(** * Evaluation metrics of the diffusion anomaly detector

    A shallow embedding of [src/evaluations/metrics.py] (and of the twin
    [mask_fn] of [src/evaluations/evaluate.py]).

    Conventions of the embedding.
    - Array elements are exact rationals [Q]: the NumPy/PyTorch code works on
      IEEE doubles, the theorems below are about the same formulas without
      rounding.  Comparisons of array elements are the comparisons of [Q].
    - An array ([np.ndarray] or [torch.Tensor]) is a shape of four extents
      together with an element function.  The four indices are always
      (sample, row, column, channel), whatever the memory layout: for NumPy
      arrays that is axes 0,1,2,3, for tensors axes 0,2,3,1.
    - An array of the model holds the values of its elements, not their
      element type.  The one function whose result depends on the element
      type, [dice_coeff] (through [np.dot], [torch.dot] and [2 * dot]), takes
      the element types as arguments.
    - Python exceptions are values of [exn]; a computation that may raise
      returns a [result]. *)

From Stdlib Require Import QArith Qabs Qminmax Qround ZArith List String Bool Lia.
From Stdlib Require Import Lqa DecimalNat DecimalString.
Import ListNotations.
Open Scope Q_scope.

(** ** Exceptions and results *)

Inductive exn : Type :=
| AssertionError (msg : string)
| ValueError (msg : string)
| IndexError (msg : string)
| KeyError (key : string)
| ZeroDivisionError
| TypeError (msg : string)
| OSError (msg : string)
| RuntimeError (msg : string).

Inductive result (A : Type) : Type :=
| Ok (a : A)
| Raise (e : exn).
Arguments Ok {A} a.
Arguments Raise {A} e.

Definition rbind {A B : Type} (r : result A) (k : A -> result B) : result B :=
  match r with
  | Ok a => k a
  | Raise e => Raise e
  end.

Notation "x <- r ;; k" := (rbind r (fun x => k))
  (at level 61, r at next level, right associativity).

(** ** Arrays *)

Inductive container : Type := NDArray | Tensor.

Definition container_eqb (a b : container) : bool :=
  match a, b with
  | NDArray, NDArray | Tensor, Tensor => true
  | _, _ => false
  end.

Record ImageClass : Type := mkImage {
  kind : container;
  dimN : nat;
  dimH : nat;
  dimW : nat;
  dimC : nat;
  px : nat -> nat -> nat -> nat -> Q
}.

Definition shape (a : ImageClass) : nat * nat * nat * nat :=
  (dimN a, dimH a, dimW a, dimC a).

Definition shape_eqb (a b : ImageClass) : bool :=
  Nat.eqb (dimN a) (dimN b) && Nat.eqb (dimH a) (dimH b) &&
  Nat.eqb (dimW a) (dimW b) && Nat.eqb (dimC a) (dimC b).

(** [in_bounds a n h w c]: the index addresses an element of [a]. *)
Definition in_bounds (a : ImageClass) (n h w c : nat) : Prop :=
  (n < dimN a)%nat /\ (h < dimH a)%nat /\ (w < dimW a)%nat /\ (c < dimC a)%nat.

Definition in_boundsb (a : ImageClass) (i : nat * nat * nat * nat) : bool :=
  let '(n, h, w, c) := i in
  Nat.ltb n (dimN a) && Nat.ltb h (dimH a) && Nat.ltb w (dimW a) && Nat.ltb c (dimC a).

(** Row-major enumeration of the indices of a block of the given extents. *)
Definition indices4 (N H W C : nat) : list (nat * nat * nat * nat) :=
  flat_map (fun n =>
    flat_map (fun h =>
      flat_map (fun w =>
        map (fun c => (n, h, w, c)) (seq 0 C)) (seq 0 W)) (seq 0 H)) (seq 0 N).

Definition indices (a : ImageClass) : list (nat * nat * nat * nat) :=
  indices4 (dimN a) (dimH a) (dimW a) (dimC a).

Definition at_index (a : ImageClass) (i : nat * nat * nat * nat) : Q :=
  let '(n, h, w, c) := i in px a n h w c.

(** [a.flatten()] / [a.reshape(-1)] *)
Definition flatten (a : ImageClass) : list Q := map (at_index a) (indices a).

Definition Qsum (l : list Q) : Q := fold_right Qplus 0 l.

(** [a.sum()] *)
Definition asum (a : ImageClass) : Q := Qsum (flatten a).

(** [a[n]] kept as a batch of one sample. *)
Definition sample (a : ImageClass) (n : nat) : ImageClass :=
  {| kind := kind a; dimN := 1; dimH := dimH a; dimW := dimW a; dimC := dimC a;
     px := fun _ h w c => px a n h w c |}.

(** Elementwise operation with a scalar, [f(a, s)]. *)
Definition amap (f : Q -> Q) (a : ImageClass) : ImageClass :=
  {| kind := kind a; dimN := dimN a; dimH := dimH a; dimW := dimW a; dimC := dimC a;
     px := fun n h w c => f (px a n h w c) |}.

Definition Qltb (a b : Q) : bool := negb (Qle_bool b a).

(** A boolean seen as a number ([True] is 1, [False] is 0). *)
Definition b2q (b : bool) : Q := if b then 1 else 0.

(** [a.min()]: raises on an array without elements. *)
Definition list_min (l : list Q) : option Q :=
  match l with
  | [] => None
  | x :: l' => Some (fold_left Qmin l' x)
  end.

Definition amin (a : ImageClass) : result Q :=
  match list_min (flatten a) with
  | Some m => Ok m
  | None => Raise (ValueError "zero-size array to reduction operation minimum which has no identity")
  end.

(** NumPy broadcasting of one axis. *)
Definition bdim (a b : nat) : option nat :=
  if Nat.eqb a b then Some a
  else if Nat.eqb a 1 then Some b
  else if Nat.eqb b 1 then Some a
  else None.

Definition bidx (d i : nat) : nat := if Nat.eqb d 1 then 0%nat else i.

(** Elementwise binary operation with broadcasting, [f(a, b)]. *)
Definition broadcast2 (f : Q -> Q -> Q) (a b : ImageClass) : result ImageClass :=
  match bdim (dimN a) (dimN b), bdim (dimH a) (dimH b),
        bdim (dimW a) (dimW b), bdim (dimC a) (dimC b) with
  | Some n, Some h, Some w, Some c =>
      Ok {| kind := kind a; dimN := n; dimH := h; dimW := w; dimC := c;
            px := fun i j k l =>
              f (px a (bidx (dimN a) i) (bidx (dimH a) j) (bidx (dimW a) k) (bidx (dimC a) l))
                (px b (bidx (dimN b) i) (bidx (dimH b) j) (bidx (dimW b) k) (bidx (dimC b) l)) |}
  | _, _, _, _ => Raise (ValueError "operands could not be broadcast together")
  end.

(** Reduction over the channel axis with [keepdims]. *)
Definition reduce_channels (f : list Q -> Q) (a : ImageClass) : ImageClass :=
  {| kind := kind a; dimN := dimN a; dimH := dimH a; dimW := dimW a; dimC := 1;
     px := fun n h w _ => f (map (px a n h w) (seq 0 (dimC a))) |}.

(** Literal arrays: one sample, one channel, given by rows; and back. *)
Definition of_rows (rows : list (list Q)) : ImageClass :=
  {| kind := NDArray; dimN := 1; dimH := List.length rows; dimW := List.length (hd [] rows); dimC := 1;
     px := fun _ h w _ => nth w (nth h rows []) 0 |}.

Definition to_rows (a : ImageClass) : list (list Q) :=
  map (fun h => map (fun w => px a 0 h w 0) (seq 0 (dimW a))) (seq 0 (dimH a)).

(** Literal arrays: one sample given by rows of pixels, a pixel being its
    list of channels. *)
Definition of_pixels (rows : list (list (list Q))) : ImageClass :=
  {| kind := NDArray; dimN := 1; dimH := List.length rows; dimW := List.length (hd [] rows);
     dimC := List.length (hd [] (hd [] rows));
     px := fun _ h w c => nth c (nth w (nth h rows []) []) 0 |}.

(** [x.astype(np.uint8)] / [x.to(torch.uint8)] of one element: the fraction is
    dropped and the integer is kept modulo 256. *)
Definition astype_uint8 (x : Q) : Z :=
  Z.modulo (Z.quot (Qnum x) (Zpos (Qden x))) 256.

(** ** Element types

    The element types of the arrays [dice_coeff] is called with: booleans
    (the values 0 and 1), bytes (the integers 0..255) and floats. *)
Inductive dtype : Type := bool_ | uint8 | float64.

Definition dtype_eqb (a b : dtype) : bool :=
  match a, b with
  | bool_, bool_ | uint8, uint8 | float64, float64 => true
  | _, _ => false
  end.

(** [np.result_type(a, b)] *)
Definition result_type (a b : dtype) : dtype :=
  match a, b with
  | float64, _ | _, float64 => float64
  | uint8, _ | _, uint8 => uint8
  | bool_, bool_ => bool_
  end.

(** The exact dot product: the value of [np.dot] and [torch.dot] on flat
    vectors of floats. *)
Fixpoint dot_product (u v : list Q) : Q :=
  match u, v with
  | x :: u', y :: v' => x * y + dot_product u' v'
  | _, _ => 0
  end.

(** A number stored in a byte: the integer modulo 256. *)
Definition wrap_uint8 (x : Q) : Q := inject_Z (Z.modulo (Qfloor x) 256).

(** The dot product of two boolean vectors: true when both vectors are true
    at some position. *)
Fixpoint dot_logical (u v : list Q) : bool :=
  match u, v with
  | x :: u', y :: v' =>
      (negb (Qeq_bool x 0) && negb (Qeq_bool y 0)) || dot_logical u' v'
  | _, _ => false
  end.

(** [np.dot(u, v)] computed in the element type [d], the result type of the
    two arrays: logical on booleans, modulo 256 on bytes, exact on floats. *)
Definition np_dot (d : dtype) (u v : list Q) : Q :=
  match d with
  | bool_ => b2q (dot_logical u v)
  | uint8 => wrap_uint8 (dot_product u v)
  | float64 => dot_product u v
  end.

(** [dot_fn = torch.dot if type(images) == torch.Tensor else np.dot], applied
    to two flat vectors with the element types [du] and [dv].  [torch.dot]
    demands one element type for both vectors, is not implemented for
    booleans and computes bytes modulo 256; [np.dot] converts both arrays to
    their result type.  [k] is [type(images)]. *)
Definition dot_fn (k : container) (du dv : dtype) (u v : list Q) : result Q :=
  match k with
  | Tensor =>
      if negb (dtype_eqb du dv) then
        Raise (RuntimeError "dot : expected both vectors to have same dtype")
      else if negb (Nat.eqb (List.length u) (List.length v)) then
        Raise (RuntimeError "inconsistent tensor size")
      else
        match du with
        | bool_ => Raise (RuntimeError "dot not implemented for Bool")
        | uint8 => Ok (wrap_uint8 (dot_product u v))
        | float64 => Ok (dot_product u v)
        end
  | NDArray =>
      if Nat.eqb (List.length u) (List.length v) then Ok (np_dot (result_type du dv) u v)
      else Raise (ValueError "shapes not aligned")
  end.

(** The element type of the scalar [dot]. *)
Definition dot_type (k : container) (du dv : dtype) : dtype :=
  match k with
  | Tensor => du
  | NDArray => result_type du dv
  end.

(** [2 * dot] for a scalar [dot] of element type [d].  A byte tensor stays a
    byte tensor.  For a NumPy byte the result depends on the promotion rules
    of the NumPy at hand: with [weak_scalars] (NumPy 2) the Python integer
    takes the type of [dot] and the product is a byte, without (NumPy 1) the
    product is a 64-bit integer.  A NumPy boolean times a Python integer is
    an integer. *)
Definition twice (k : container) (weak_scalars : bool) (d : dtype) (dot : Q) : Q :=
  match d, k with
  | uint8, Tensor => wrap_uint8 (2 * dot)
  | uint8, NDArray => if weak_scalars then wrap_uint8 (2 * dot) else 2 * dot
  | _, _ => 2 * dot
  end.

(** The dot product is exact: a float is involved (for tensors, both are
    floats). *)
Definition exact_dot (k : container) (du dv : dtype) : bool :=
  match k with
  | Tensor => dtype_eqb du float64 && dtype_eqb dv float64
  | NDArray => dtype_eqb (result_type du dv) float64
  end.

(** ** [dice_coeff] *)

Definition same_shape_and_type (images targets : ImageClass) : bool :=
  shape_eqb images targets && container_eqb (kind images) (kind targets).

Definition shape_type_msg : string :=
  "the input and target images should share the same shape and type".

(** The body of [for image, target in zip(images, targets)], the running
    total [dice] threaded through.  [dt_targets] is the element type of
    [targets], [dt_images] the element type of what [mask_fn] returns;
    [epsilon] is a float.  The sums of booleans and bytes are 64-bit integers
    and are exact.  The quotient is the code's when the denominator
    [sum + epsilon] is not zero; for a zero denominator the code yields nan or
    an infinity, which the rationals do not have. *)
Fixpoint dice_loop (weak_scalars : bool) (dt_targets dt_images : dtype)
    (mask_fn : ImageClass -> result ImageClass) (epsilon : Q)
    (targets images : ImageClass) (ns : list nat) (dice : Q) : result Q :=
  match ns with
  | [] => Ok dice
  | n :: ns' =>
      image <- mask_fn (sample images n) ;;
      let target := sample targets n in
      dot <- dot_fn (kind images) dt_images dt_targets (flatten image) (flatten target) ;;
      let sum := asum image + asum target in
      let two_dot := twice (kind images) weak_scalars
                       (dot_type (kind images) dt_images dt_targets) dot in
      dice_loop weak_scalars dt_targets dt_images mask_fn epsilon targets images ns'
        (dice + (two_dot + epsilon) / (sum + epsilon))
  end.

Definition dice_coeff (weak_scalars : bool) (dt_targets dt_images : dtype)
    (targets images : ImageClass)
    (mask_fn : ImageClass -> result ImageClass) (epsilon : Q) : result Q :=
  if negb (same_shape_and_type images targets) then
    Raise (AssertionError shape_type_msg)
  else
    dice <- dice_loop weak_scalars dt_targets dt_images mask_fn epsilon targets images
              (seq 0 (dimN images)) 0 ;;
    if Nat.eqb (dimN images) 0 then Raise ZeroDivisionError
    else Ok (dice / inject_Z (Z.of_nat (dimN images))).

(** The defaults of the signature: [mask_fn=lambda x:x], [epsilon=1e-6]. *)
Definition default_mask_fn (x : ImageClass) : result ImageClass := Ok x.
Definition default_epsilon : Q := 1 # 1000000.

(** ** [region_specific_metrics] *)

Definition region_type_msg : string := "region type should be one of ET, TC, WT".

(** The three branches that build [masks].  A comparison of an array gives a
    boolean array, [+] of boolean arrays is their disjunction, and [* 1]
    turns booleans into integers.  In the last branch [> 0 * 1] is
    [> (0 * 1)]: the mask stays boolean, and counts as 0/1 wherever it is
    used as a number. *)
Definition region_mask_ET (t : Q) : Q := b2q (Qeq_bool t 1) * 1.
Definition region_mask_TC (t : Q) : Q :=
  b2q (Qltb 0 (b2q (Qeq_bool t 1 || Qeq_bool t 4))) * 1.
Definition region_mask_WT (t : Q) : Q :=
  b2q (Qltb (0 * 1) (b2q (Qeq_bool t 1 || Qeq_bool t 2 || Qeq_bool t 4))).

Definition region_specific_metrics {A : Type} (targets images : ImageClass)
    (func : ImageClass -> ImageClass -> result A) (region_type : string) : result A :=
  if negb (existsb (String.eqb region_type) ["ET"; "TC"; "WT"]%string) then
    Raise (AssertionError region_type_msg)
  else
    let masks :=
      if String.eqb region_type "ET" then amap region_mask_ET targets
      else if String.eqb region_type "TC" then amap region_mask_TC targets
      else amap region_mask_WT targets in
    func masks images.

(** ** [AUROC] *)

Section AUROC.
(** [sklearn.metrics.roc_auc_score(y_true, y_score)], a library function. *)
Variable roc_auc_score : list Q -> list Q -> result Q.

Fixpoint AUROC_loop (threshold : Q) (targets images : ImageClass)
    (ns : list nat) (score : Q) : result Q :=
  match ns with
  | [] => Ok score
  | n :: ns' =>
      let target :=
        match kind images with
        | Tensor => map (fun v => inject_Z (astype_uint8 v)) (flatten (sample targets n))
        | NDArray => flatten (sample targets n)
        end in
      let image := flatten (sample images n) in
      if Qle_bool (Qsum target) threshold then
        AUROC_loop threshold targets images ns' (-1)
      else
        auc <- roc_auc_score target image ;;
        AUROC_loop threshold targets images ns' (score + auc)
  end.

Definition AUROC (targets images : ImageClass) (threshold : Q) : result Q :=
  if negb (same_shape_and_type images targets) then
    Raise (AssertionError shape_type_msg)
  else
    score <- AUROC_loop threshold targets images (seq 0 (dimN images)) 0 ;;
    if Nat.eqb (dimN images) 0 then Raise ZeroDivisionError
    else Ok (score / inject_Z (Z.of_nat (dimN images))).
End AUROC.

Definition default_threshold : Q := 200.

(** ** [nonzero_masking], [remove_noise] *)

Definition nonzero_type_msg : string :=
  "the input and target images should share the same and type".
Definition nonzero_shape_msg : string :=
  "the input and target images should share the same shape(H,W)".

(** [return_mask] selects between [return targets, mask] and
    [return targets]: the second component is present in the first case. *)
Definition nonzero_masking (images targets : ImageClass) (return_mask : bool)
    : result (ImageClass * option ImageClass) :=
  if negb (container_eqb (kind images) (kind targets)) then
    Raise (AssertionError nonzero_type_msg)
  else if negb (Nat.eqb (dimH images) (dimH targets) && Nat.eqb (dimW images) (dimW targets)) then
    Raise (AssertionError nonzero_shape_msg)
  else
    imin <- amin images ;;
    let mask :=
      amap (fun s => b2q (Qeq_bool s 4) * 1)
        (reduce_channels Qsum (amap (fun v => b2q (Qltb (imin * 1) v)) images)) in
    fg <- broadcast2 Qmult targets mask ;;
    tmin <- amin targets ;;
    targets' <- broadcast2 Qplus fg (amap (fun m => tmin * (1 - m)) mask) ;;
    Ok (targets', if return_mask then Some mask else None).

Section remove_noise.
(** [np.percentile(image, q)], a library function. *)
Variable np_percentile : ImageClass -> Q -> Q.

Definition remove_noise (image : ImageClass) : ImageClass :=
  let lo := np_percentile image 1 in
  let hi := np_percentile image 99 in
  amap (fun v => v * (b2q (Qle_bool lo v) * b2q (Qle_bool v hi) * 1)) image.
End remove_noise.

(** ** Otsu's threshold search *)

(** Modelled from the spec: [cv2.threshold(src, 0, 255, cv2.THRESH_OTSU)] is
    OpenCV's and is not under src/.  The spec names it Otsu's histogram-based
    variance-maximizing threshold search, degenerating to a boundary
    threshold when all pixels are identical.  What the spec leaves open
    (the order of the search, ties, the test for an empty class) is taken
    from OpenCV's 8-bit routine: a 256-bin histogram; for i = 0..255 in turn
    the between-class variance [q1*q2*(mu1-mu2)^2] of the split "levels up
    to i / levels above i"; a split with a class weight below [FLT_EPSILON]
    is skipped; the first level that strictly improves on the best variance
    so far is returned, level 0 when no split qualifies.  Values are kept
    as reduced fractions. *)
Definition FLT_EPSILON : Q := 1 # 8388608.

Record otsu_state : Type := mkOtsu {
  mu1 : Q;
  q1 : Q;
  max_sigma : Q;
  max_val : Z
}.

Definition histogram (src : list Z) (i : Z) : Z :=
  Z.of_nat (count_occ Z.eq_dec src i).

Definition levels : list Z := map Z.of_nat (seq 0 256).

Definition otsu_skip (q1 : Q) : bool :=
  let q2 := 1 - q1 in
  Qltb (Qmin q1 q2) FLT_EPSILON || Qltb (1 - FLT_EPSILON) (Qmax q1 q2).

Definition otsu_sigma (mu q1 mu1 : Q) : Q :=
  let q2 := 1 - q1 in
  let mu2 := (mu - q1 * mu1) / q2 in
  q1 * q2 * (mu1 - mu2) * (mu1 - mu2).

Definition otsu_step (h : Z -> Z) (mu scale : Q) (st : otsu_state) (i : Z) : otsu_state :=
  let p_i := inject_Z (h i) * scale in
  let mu1' := mu1 st * q1 st in
  let q1' := Qred (q1 st + p_i) in
  if otsu_skip q1' then
    mkOtsu (Qred mu1') q1' (max_sigma st) (max_val st)
  else
    let mu1'' := Qred ((mu1' + inject_Z i * p_i) / q1') in
    let sigma := Qred (otsu_sigma mu q1' mu1'') in
    if Qltb (max_sigma st) sigma then mkOtsu mu1'' q1' sigma i
    else mkOtsu mu1'' q1' (max_sigma st) (max_val st).

Definition otsu_init : otsu_state := mkOtsu 0 0 0 0.

Definition otsu_scale (src : list Z) : Q := 1 / inject_Z (Z.of_nat (List.length src)).

Definition otsu_mean (src : list Z) : Q :=
  Qred (fold_left (fun mu i => mu + inject_Z i * inject_Z (histogram src i)) levels 0
        * otsu_scale src).

(** Modelled from the spec: the level returned by
    [cv2.threshold(src, 0, 255, cv2.THRESH_OTSU)] (OpenCV, not under src/)
    for the 8-bit pixels [src], by the search described above. *)
Definition getThreshVal_Otsu_8u (src : list Z) : Z :=
  max_val (fold_left (otsu_step (histogram src) (otsu_mean src) (otsu_scale src))
                     levels otsu_init).

(** The invariant of the search loop: the split at the level just
    processed is skipped, or its variance is not above the best so far. *)
Definition otsu_inv (mu : Q) (st : otsu_state) : Prop :=
  otsu_skip (q1 st) = true \/ otsu_sigma mu (q1 st) (mu1 st) <= max_sigma st.

(** ** The two [mask_fn] closures *)

(** [pred[np.where(mask > 0)]]: the elements of [pred] at the positions
    where [mask] is positive, in row-major order. *)
Definition take_where (pred mask : ImageClass) : result (list Q) :=
  let idx := filter (fun i => Qltb 0 (at_index mask i)) (indices mask) in
  if forallb (in_boundsb pred) idx then Ok (map (at_index pred) idx)
  else Raise (IndexError "index is out of bounds").

Module finding_threshold.
(** [mask_fn] of [finding_threshold] (the same text is the [mask_fn] of
    [evaluate_image] in evaluate.py).  The first component of the result
    is present when [return_thresh] is set. *)
Definition mask_fn (pred mask : ImageClass) (return_thresh : bool)
    : result (option Q * ImageClass) :=
  masked_pred <- take_where pred mask ;;
  let masked_pred := map (fun v => astype_uint8 (v * 255)) masked_pred in
  let thresh := getThreshVal_Otsu_8u masked_pred in
  let thresh := inject_Z thresh / 255 in
  let pred := amap (fun v => b2q (Qltb thresh v) * 1) pred in
  Ok (if return_thresh then Some thresh else None, pred).
End finding_threshold.

Module using_thresh.
(** [mask_fn] of [using_thresh]; [threshold] is [metrics_threshs['threshold']]. *)
Definition mask_fn (threshold : Q) (pred : ImageClass) : ImageClass :=
  amap (fun v => b2q (Qle_bool threshold v) * 1) pred.

Definition default_thresh : Q := 817678607279089 # 10000000000000000.
End using_thresh.

(** Inputs of the worked examples. *)
Definition score_map_example : ImageClass := of_rows [[9 # 10; 9 # 10]; [1 # 10; 1 # 10]].
Definition ones_mask_example : ImageClass := of_rows [[1; 1]; [1; 1]].
Definition label_map_example : ImageClass := of_rows [[1; 2]; [4; 0]].
Definition boundary_map_example : ImageClass := of_rows [[0; 1]].

(** An image of one row of two pixels with three channels each, and a score
    map for it. *)
Definition three_channel_example : ImageClass := of_pixels [[[1; 1; 1]; [0; 0; 0]]].
Definition two_scores_example : ImageClass := of_rows [[7; 5]].
Definition four_channel_example : ImageClass := of_pixels [[[1; 2; 1; 3]; [1; 0; 1; 1]]].

(** Loaded arrays of one pixel: one with nine channels, one with ten. *)
Definition nine_channel_example : ImageClass :=
  of_pixels [[[255; 0; 51; 102; 1; 0; 255; 51; 0]]].
Definition ten_channel_example : ImageClass :=
  of_pixels [[[255; 0; 51; 102; 1; 0; 255; 51; 0; 7]]].

(** A batch of two one-pixel samples without a positive pixel, and a batch
    of two samples of 201 pixels, the first without a positive pixel, the
    second all positive. *)
Definition empty_pair_example : ImageClass :=
  {| kind := NDArray; dimN := 2; dimH := 1; dimW := 1; dimC := 1;
     px := fun _ _ _ _ => 0 |}.
Definition mixed_pair_example : ImageClass :=
  {| kind := NDArray; dimN := 2; dimH := 1; dimW := 201; dimC := 1;
     px := fun n _ _ _ => if Nat.eqb n 0 then 0 else 1 |}.
Definition boundary_mask_example : ImageClass := of_rows [[1; 1]].

(** ** Dictionaries with insertion order *)

Section dict.
Context {V : Type}.

Fixpoint dict_get (k : string) (d : list (string * V)) : option V :=
  match d with
  | [] => None
  | (k', v) :: d' => if String.eqb k k' then Some v else dict_get k d'
  end.

(** [d[k] = v]: an existing key keeps its place, a new key goes last. *)
Fixpoint dict_set (k : string) (v : V) (d : list (string * V)) : list (string * V) :=
  match d with
  | [] => [(k, v)]
  | (k', v') :: d' =>
      if String.eqb k k' then (k, v) :: d' else (k', v') :: dict_set k v d'
  end.

Definition dict_keys (d : list (string * V)) : list string := map fst d.

(** [d[k]] where a missing key raises. *)
Definition dict_item (k : string) (d : list (string * V)) : result V :=
  match dict_get k d with
  | Some v => Ok v
  | None => Raise (KeyError k)
  end.
End dict.

(** ** The sample record *)

(** [np.sqrt(d**2)], the absolute value. *)
Definition sqrt_of_square (d : Q) : Q := Qabs d.

(** [np.mean] of the channels of one pixel. *)
Definition mean_list (l : list Q) : Q := Qsum l / inject_Z (Z.of_nat (List.length l)).

(** [data[np.newaxis,0,:,:,lo:hi]]: sample 0, channels [lo, hi) clipped to
    the channels there are. *)
Definition slice_channels (data : ImageClass) (lo hi : nat) : ImageClass :=
  {| kind := kind data; dimN := 1; dimH := dimH data; dimW := dimW data;
     dimC := Nat.min hi (dimC data) - lo;
     px := fun _ h w c => px data 0 h w (lo + c) |}.

(** The four lines that split a loaded array into [img], [seg] and the
    score map [pred]. *)
Definition split_sample (data : ImageClass) : result (ImageClass * ImageClass * ImageClass) :=
  if Nat.eqb (dimN data) 0 then
    Raise (IndexError "index 0 is out of bounds for axis 0 with size 0")
  else
    let img := amap (fun v => v * 1 / 255) (slice_channels data 0 4) in
    if negb (Nat.ltb 4 (dimC data)) then
      Raise (IndexError "index 4 is out of bounds for axis 3")
    else
      let seg := {| kind := kind data; dimN := 1; dimH := dimH data; dimW := dimW data;
                    dimC := 1; px := fun _ h w _ => px data 0 h w 4 |} in
      let generated := amap (fun v => v * 1 / 255) (slice_channels data 5 (dimC data)) in
      diff <- broadcast2 Qminus generated img ;;
      let pred := reduce_channels mean_list (amap sqrt_of_square diff) in
      Ok (img, seg, pred).

(** ** [BratsEvaluator] *)

Inductive cell : Type := Num (q : Q) | Str (s : string).

Definition metric_fn : Type := ImageClass -> ImageClass -> result Q.

Definition selector : Type :=
  ImageClass -> ImageClass -> bool -> result (option Q * ImageClass).

Record BratsEvaluator : Type := mkEvaluator {
  data_folder : string;
  metrics : list (string * metric_fn);
  mask_fn : option selector;
  data_files : list string
}.

(** [file_name.endswith(suffix)] *)
Definition endswith (file_name suffix : string) : bool :=
  let n := String.length file_name in
  let m := String.length suffix in
  Nat.leb m n && String.eqb (substring (n - m) m file_name) suffix.

(** [os.path.join(folder, file_name)] for a relative [file_name]. *)
Definition path_join (folder file_name : string) : string :=
  (folder ++ "/" ++ file_name)%string.

(** [__init__]; [listdir] stands for [os.listdir(data_folder)]. *)
Definition BratsEvaluator_init (listdir : list string) (data_folder : string)
    (metrics : list (string * metric_fn)) (mask_fn : option selector) : BratsEvaluator :=
  mkEvaluator data_folder metrics mask_fn
    (filter (fun file_name => endswith file_name ".npy") listdir).

(** The file [metrics.csv]: the header line, the rows written so far, each
    row giving for every field the value written ([None] for the empty
    rest value), and whether the file has been closed. *)
Record csvfile : Type := mkCsv {
  fieldnames : list string;
  rows : list (list (string * option cell));
  closed : bool
}.

(** The state outside the evaluator: the output file, if it was opened. *)
Definition world : Type := option csvfile.

(** Computations that may raise and may write: the output written before an
    exception stays written. *)
Definition M (A : Type) : Type := world -> result A * world.

Definition ret {A : Type} (a : A) : M A := fun w => (Ok a, w).

Definition bind {A B : Type} (m : M A) (k : A -> M B) : M B :=
  fun w => match m w with
           | (Ok a, w') => k a w'
           | (Raise e, w') => (Raise e, w')
           end.

Definition lift {A : Type} (r : result A) : M A := fun w => (r, w).

Notation "x <-- m ;;; k" := (bind m (fun x => k))
  (at level 61, m at next level, right associativity).

(** [open(..., 'w')] followed by [writer.writeheader()]. *)
Definition open_csv (fieldnames : list string) : M unit :=
  fun _ => (Ok tt, Some (mkCsv fieldnames [] false)).

(** [writer.writerow(d)] *)
Definition writerow (d : list (string * cell)) : M unit :=
  fun w => match w with
           | Some f => (Ok tt, Some (mkCsv (fieldnames f)
                                      (rows f ++ [map (fun k => (k, dict_get k d)) (fieldnames f)])
                                      (closed f)))
           | None => (Ok tt, None)
           end.

(** [csvfile.close()] *)
Definition close_csv : M unit :=
  fun w => match w with
           | Some f => (Ok tt, Some (mkCsv (fieldnames f) (rows f) true))
           | None => (Ok tt, None)
           end.

(** [{metric: metric_fn(seg, pred) for metric, metric_fn in metrics.items()}] *)
Fixpoint eval_metrics (metrics : list (string * metric_fn)) (seg pred : ImageClass)
    (acc : list (string * cell)) : result (list (string * cell)) :=
  match metrics with
  | [] => Ok acc
  | (metric, fn) :: rest =>
      v <- fn seg pred ;;
      eval_metrics rest seg pred (dict_set metric (Num v) acc)
  end.

(** [{metric: [] for metric in metrics}] *)
Definition empty_lists {V : Type} (metrics : list (string * V)) : list (string * list cell) :=
  fold_left (fun d kv => dict_set (fst kv) [] d) metrics [].

(** [for key in metrics_imgs: metrics_imgs[key].append(metrics_img[key])] *)
Fixpoint append_all (metrics_imgs : list (string * list cell))
    (metrics_img : list (string * cell)) : result (list (string * list cell)) :=
  match metrics_imgs with
  | [] => Ok []
  | (key, l) :: rest =>
      v <- dict_item key metrics_img ;;
      rest' <- append_all rest metrics_img ;;
      Ok ((key, l ++ [v]) :: rest')
  end.

(** [metrics_img["AUROC_WT"] == -1] *)
Definition is_sentinel (c : cell) : bool :=
  match c with
  | Num q => Qeq_bool q (-1)
  | Str _ => false
  end.

(** [max_min_dict] of [finding_threshold]. *)
Record max_min : Type := mkMaxMin {
  max_DICE : Q;
  max_DICE_file : option string;
  max_DICE_thresh : Q;
  min_DICE : Q;
  min_DICE_file : option string;
  min_DICE_thresh : Q
}.

Definition cell_num (c : cell) : result Q :=
  match c with
  | Num q => Ok q
  | Str _ => Raise (TypeError "not supported between instances of 'str' and 'int'")
  end.

Section Evaluator.
(** [np.load(path)]: the array stored in the file, or the exception the
    loader raises for a missing or unreadable file. *)
Variable np_load : string -> result ImageClass.
(** [np.mean], [np.std] of a list and [np.percentile], library functions. *)
Variables np_mean np_std : list cell -> Q.
Variable np_percentile : ImageClass -> Q -> Q.

(** The body of [for file_name in iterf] of [evaluate_images];
    [metrics_imgs] is the local dictionary of per-metric lists. *)
Fixpoint evaluate_loop (self : BratsEvaluator) (store_data : bool)
    (files : list string) (metrics_imgs : list (string * list cell))
    : M (list (string * list cell)) :=
  match files with
  | [] => ret metrics_imgs
  | file_name :: rest =>
      let file_dir := path_join (data_folder self) file_name in
      data <-- lift (np_load file_dir) ;;;
      parts <-- lift (split_sample data) ;;;
      let '(img, seg, pred) := parts in
      masked <-- lift (nonzero_masking img pred false) ;;;
      let pred := fst masked in
      metrics_img <-- lift (eval_metrics (metrics self) seg pred []) ;;;
      let metrics_img := dict_set "file_name" (Str file_name) metrics_img in
      auroc <-- lift (dict_item "AUROC_WT" metrics_img) ;;;
      if is_sentinel auroc then
        evaluate_loop self store_data rest metrics_imgs
      else
        _ <-- (if store_data then writerow metrics_img else ret tt) ;;;
        metrics_imgs' <-- lift (append_all metrics_imgs metrics_img) ;;;
        evaluate_loop self store_data rest metrics_imgs'
  end.

Definition evaluate_images (self : BratsEvaluator) (output_dir : string)
    (store_data : bool) : M (list (string * (Q * Q))) :=
  _ <-- (if store_data
         then open_csv ("file_name" :: "threshold" :: dict_keys (metrics self))%string
         else ret tt) ;;;
  metrics_imgs <-- evaluate_loop self store_data (data_files self)
                     (empty_lists (metrics self)) ;;;
  _ <-- (if store_data then close_csv else ret tt) ;;;
  ret (map (fun kv => (fst kv, (np_mean (snd kv), np_std (snd kv)))) metrics_imgs).

(** The body of [for file_name in iterf] of the method [finding_threshold];
    [metrics] is [self.metrics], which the loop updates.  In the DICE_WT
    metric the WT mask is boolean and the masking functions of this module
    return floats ([(pred > thresh) * 1.0]); with a float operand the
    promotion flag of [dice_coeff] has no effect. *)
Fixpoint finding_loop (folder : string) (sel : option selector)
    (files : list string) (metrics : list (string * metric_fn))
    (metrics_imgs : list (string * list cell)) (mm : max_min)
    : result (list (string * list cell) * max_min) :=
  match files with
  | [] => Ok (metrics_imgs, mm)
  | file_name :: rest =>
      let file_dir := path_join folder file_name in
      data <- np_load file_dir ;;
      parts <- split_sample data ;;
      let '(img, seg, pred) := parts in
      let pred := remove_noise np_percentile pred in
      masked <- nonzero_masking img pred true ;;
      match masked, sel with
      | (pred, Some mask), Some self_mask_fn =>
          found <- self_mask_fn pred mask true ;;
          match fst found with
          | None => Raise (TypeError "cannot unpack non-iterable object")
          | Some thresh =>
              let mask_fn := fun image => r <- self_mask_fn image mask false ;; Ok (snd r) in
              let metrics :=
                dict_set "DICE_WT"
                  (fun targets images =>
                     region_specific_metrics targets images
                       (fun t i => dice_coeff true bool_ float64 t i mask_fn
                                     default_epsilon) "WT")
                  metrics in
              metrics_img <- eval_metrics metrics seg pred [] ;;
              let metrics_img := dict_set "file_name" (Str file_name) metrics_img in
              let metrics_img := dict_set "threshold" (Num thresh) metrics_img in
              auroc <- dict_item "AUROC_WT" metrics_img ;;
              if is_sentinel auroc then
                finding_loop folder sel rest metrics metrics_imgs mm
              else
                metrics_imgs' <- append_all metrics_imgs metrics_img ;;
                dice <- (c <- dict_item "DICE_WT" metrics_img ;; cell_num c) ;;
                let mm :=
                  if Qltb (max_DICE mm) dice
                  then mkMaxMin dice (Some file_name) thresh
                         (min_DICE mm) (min_DICE_file mm) (min_DICE_thresh mm)
                  else mm in
                let mm :=
                  if Qltb dice (min_DICE mm)
                  then mkMaxMin (max_DICE mm) (max_DICE_file mm) (max_DICE_thresh mm)
                         dice (Some file_name) thresh
                  else mm in
                finding_loop folder sel rest metrics metrics_imgs' mm
          end
      | _, _ => Raise (TypeError "<lambda>() got an unexpected keyword argument")
      end
  end.

Definition finding_threshold_method (self : BratsEvaluator)
    : result (list (string * (Q * Q)) * max_min) :=
  let metrics_imgs := dict_set "threshold" [] (empty_lists (metrics self)) in
  r <- finding_loop (data_folder self) (mask_fn self) (data_files self)
         (metrics self) metrics_imgs (mkMaxMin 0 None 0 1 None 0) ;;
  Ok (map (fun kv => (fst kv, (np_mean (snd kv), np_std (snd kv)))) (fst r), snd r).
End Evaluator.

(** ** Derived readings of the functions above *)

(** The mask [region_specific_metrics] hands to [func]: the function itself,
    run with a [func] that returns its first argument. *)
Definition region_mask (targets : ImageClass) (region_type : string) : result ImageClass :=
  region_specific_metrics targets targets (fun masks _ => Ok masks) region_type.

(** Two arrays with the same container type, the same shape and the same
    elements. *)
Definition same_array (a b : ImageClass) : Prop :=
  kind a = kind b /\ shape a = shape b /\
  forall n h w c, px a n h w c = px b n h w c.

(** The channels of the pixel (n, h, w) whose value exceeds [m]. *)
Definition channels_exceeding (images : ImageClass) (m : Q) (n h w : nat) : list nat :=
  filter (fun c => Qltb m (px images n h w c)) (seq 0 (dimC images)).

(** The score the specification gives to the pixel (h, w) of a loaded
    array: the mean over the four modalities of the absolute difference
    between input channel c and generated channel 5 + c, both divided by
    255. *)
Definition anomaly_score (data : ImageClass) (h w : nat) : Q :=
  Qsum (map (fun c => Qabs (px data 0 h w c / 255 - px data 0 h w (5 + c) / 255))
            (seq 0 4)) / 4.

(** The value the specification gives for one sample: the prediction is
    [images[n]], the ground truth [targets[n]]. *)
Definition dice_of_sample (epsilon : Q) (targets images : ImageClass) (n : nat) : Q :=
  let pred := sample images n in
  let target := sample targets n in
  (2 * dot_product (flatten pred) (flatten target) + epsilon) /
  (asum pred + asum target + epsilon).

(** The mean of a list of numbers. *)
Definition batch_mean (l : list Q) : Q := Qsum l / inject_Z (Z.of_nat (List.length l)).

(** ** The Dice coefficient of the specification

    Written after the words of the specification, with an enumeration of
    the pixels and sums of its own: for sample [n] the prediction and the
    target are the lists of their elements,
    dot(pred, target) is the sum of the products of corresponding elements,
    and the per-sample value is
    (2*dot(pred,target) + epsilon) / (sum(pred) + sum(target) + epsilon). *)
Definition spec_pixels (a : ImageClass) (n : nat) : list Q :=
  map (fun i => px a n (fst (fst i)) (snd (fst i)) (snd i))
      (list_prod (list_prod (seq 0 (dimH a)) (seq 0 (dimW a))) (seq 0 (dimC a))).

Definition spec_sum (l : list Q) : Q := fold_left Qplus l 0.

Definition spec_dot (u v : list Q) : Q :=
  spec_sum (map (fun p => fst p * snd p) (combine u v)).

Definition spec_denominator (epsilon : Q) (targets images : ImageClass) (n : nat) : Q :=
  spec_sum (spec_pixels images n) + spec_sum (spec_pixels targets n) + epsilon.

Definition spec_dice (epsilon : Q) (targets images : ImageClass) (n : nat) : Q :=
  (2 * spec_dot (spec_pixels images n) (spec_pixels targets n) + epsilon) /
  spec_denominator epsilon targets images n.

(** The average over the batch. *)
Definition spec_mean (l : list Q) : Q := spec_sum l / inject_Z (Z.of_nat (List.length l)).

(** A batch of one sample of 300 elements, all 1, and a batch of one sample
    of 3 elements, all 1: as bytes and as booleans they are masks. *)
Definition ones_300_example : ImageClass :=
  {| kind := NDArray; dimN := 1; dimH := 1; dimW := 300; dimC := 1;
     px := fun _ _ _ _ => 1 |}.
Definition ones_3_example : ImageClass :=
  {| kind := NDArray; dimN := 1; dimH := 1; dimW := 3; dimC := 1;
     px := fun _ _ _ _ => 1 |}.

(** ** One iteration of [evaluate_images], read off its loop body *)

(** The dictionary [metrics_img] the loop body builds for one file, up to
    and including [metrics_img["file_name"] = file_name]. *)
Definition sample_metrics (np_load : string -> result ImageClass)
    (self : BratsEvaluator) (file_name : string) : result (list (string * cell)) :=
  data <- np_load (path_join (data_folder self) file_name) ;;
  parts <- split_sample data ;;
  let '(img, seg, pred) := parts in
  masked <- nonzero_masking img pred false ;;
  metrics_img <- eval_metrics (metrics self) seg (fst masked) [] ;;
  Ok (dict_set "file_name" (Str file_name) metrics_img).

(** The sample triggers the sentinel: its AUROC_WT entry equals -1. *)
Definition sentinel_flagged (metrics_img : list (string * cell)) : bool :=
  match dict_get "AUROC_WT" metrics_img with
  | Some c => is_sentinel c
  | None => false
  end.

(** The dictionaries of the files that are evaluated and not flagged, in
    the order of the files. *)
Definition kept_samples (np_load : string -> result ImageClass)
    (self : BratsEvaluator) (files : list string) : list (list (string * cell)) :=
  flat_map (fun file_name =>
              match sample_metrics np_load self file_name with
              | Ok metrics_img => if sentinel_flagged metrics_img then [] else [metrics_img]
              | Raise _ => []
              end) files.

(** The files that are evaluated and flagged. *)
Definition flagged_files (np_load : string -> result ImageClass)
    (self : BratsEvaluator) (files : list string) : list string :=
  filter (fun file_name =>
            match sample_metrics np_load self file_name with
            | Ok metrics_img => sentinel_flagged metrics_img
            | Raise _ => false
            end) files.

(** The values of one key over a list of dictionaries. *)
Definition column (key : string) (ds : list (list (string * cell))) : list cell :=
  flat_map (fun d => match dict_get key d with Some c => [c] | None => [] end) ds.

(** The row [writer.writerow(d)] writes under the given header. *)
Definition row_of (fieldnames : list string) (d : list (string * cell))
    : list (string * option cell) :=
  map (fun k => (k, dict_get k d)) fieldnames.

(** The output file after the rows of the given dictionaries are written. *)
Definition write_rows (ds : list (list (string * cell))) (w : world) : world :=
  match w with
  | Some f => Some (mkCsv (fieldnames f) (rows f ++ map (row_of (fieldnames f)) ds) (closed f))
  | None => None
  end.

(** ** An evaluation run used as example

    Three files: a sample of 201 pixels all labelled 1 whose input and
    reconstruction differ, a one-pixel sample without a labelled pixel, and
    a file the loader cannot read. *)
Definition tumour_example : ImageClass :=
  {| kind := NDArray; dimN := 1; dimH := 1; dimW := 201; dimC := 9;
     px := fun _ _ w c =>
             if Nat.ltb c 4 then inject_Z (Z.of_nat (w + 1))
             else if Nat.eqb c 4 then 1
             else 0 |}.

Definition np_load_example (path : string) : result ImageClass :=
  if String.eqb path "val/a.npy" then Ok tumour_example
  else if String.eqb path "val/b.npy" then Ok nine_channel_example
  else if String.eqb path "val/c.npy" then Ok tumour_example
  else Raise (OSError "Failed to interpret file as a pickle").

Definition roc_auc_score_example (y_true y_score : list Q) : result Q := Ok (1 # 2).

(** The metrics of [using_thresh]: the WT mask is boolean, the masking
    function returns floats. *)
Definition metrics_example : list (string * metric_fn) :=
  [("DICE_WT"%string,
    fun targets images =>
      region_specific_metrics targets images
        (fun t i => dice_coeff true bool_ float64 t i
                      (fun x => Ok (using_thresh.mask_fn using_thresh.default_thresh x))
                      default_epsilon) "WT");
   ("AUROC_WT"%string,
    fun targets images =>
      region_specific_metrics targets images
        (fun t i => AUROC roc_auc_score_example t i default_threshold) "WT")].

Definition evaluator_example (listdir : list string) : BratsEvaluator :=
  BratsEvaluator_init listdir "val" metrics_example None.

Definition directory_example : list string :=
  ["a.npy"; "notes.txt"; "b.npy"; "c.npy"]%string.
Definition broken_directory_example : list string :=
  ["a.npy"; "bad.npy"; "c.npy"]%string.

Definition np_mean_example (l : list cell) : Q :=
  Qsum (map (fun c => match c with Num q => q | Str _ => 0 end) l)
  / inject_Z (Z.of_nat (List.length l)).

Definition np_std_example (l : list cell) : Q := 0.

(** ** Further example inputs *)

(** A batch without samples. *)
Definition empty_batch_example : ImageClass :=
  {| kind := NDArray; dimN := 0; dimH := 2; dimW := 2; dimC := 1;
     px := fun _ _ _ _ => 0 |}.

(** ** [min_max_scale] *)

(** [a.max()]: raises on an array without elements. *)
Definition list_max (l : list Q) : option Q :=
  match l with
  | [] => None
  | x :: l' => Some (fold_left Qmax l' x)
  end.

Definition amax (a : ImageClass) : result Q :=
  match list_max (flatten a) with
  | Some m => Ok m
  | None => Raise (ValueError "zero-size array to reduction operation maximum which has no identity")
  end.

(** [(image - image.min())/(image.max()-image.min())].  For a constant image
    NumPy divides 0 by 0 and fills the result with nan; the quotient of the
    model is only NumPy's when the maximum differs from the minimum. *)
Definition min_max_scale (image : ImageClass) : result ImageClass :=
  lo <- amin image ;;
  hi <- amax image ;;
  lo' <- amin image ;;
  Ok (amap (fun v => (v - lo) / (hi - lo')) image).

(** A mask that keeps the first row only, and a second score map that agrees
    with [score_map_example] on that row. *)
Definition top_mask_example : ImageClass := of_rows [[1; 1]; [0; 0]].
Definition score_map_variant : ImageClass := of_rows [[9 # 10; 9 # 10]; [1 # 2; 3 # 10]].

(** An evaluator whose only metric is DICE_WT. *)
Definition dice_only_evaluator_example : BratsEvaluator :=
  BratsEvaluator_init ["a.npy"%string] "val" (firstn 1 metrics_example) None.

(** ** Readings of the extrema of [finding_threshold] *)

(** [mm'] follows [mm] over [files]: the maximum has not decreased, and it is
    unchanged together with its file and threshold or it belongs to one of
    the files and has increased; likewise for the minimum. *)
Definition tracks (files : list string) (mm mm' : max_min) : Prop :=
  max_DICE mm <= max_DICE mm' /\ min_DICE mm' <= min_DICE mm /\
  ((max_DICE mm' = max_DICE mm /\ max_DICE_file mm' = max_DICE_file mm /\
    max_DICE_thresh mm' = max_DICE_thresh mm) \/
   (exists f, In f files /\ max_DICE_file mm' = Some f /\ max_DICE mm < max_DICE mm')) /\
  ((min_DICE mm' = min_DICE mm /\ min_DICE_file mm' = min_DICE_file mm /\
    min_DICE_thresh mm' = min_DICE_thresh mm) \/
   (exists f, In f files /\ min_DICE_file mm' = Some f /\ min_DICE mm' < min_DICE mm)).

(** An evaluator for find-threshold mode, with the selector of
    [finding_threshold], and a percentile function that clips nothing on
    scores between 0 and 1. *)
Definition finding_evaluator_example : BratsEvaluator :=
  BratsEvaluator_init directory_example "val" metrics_example
    (Some finding_threshold.mask_fn).

Definition np_percentile_example (image : ImageClass) (q : Q) : Q :=
  if Qle_bool q 50 then 0 else 1.

(** * The sampling driver, [scripts/decoupled_diffusion_anomaly_detection.py] *)

(** ** [float2uint] *)

(** [x.clamp(lo, hi)] of one element. *)
Definition clamp (lo hi x : Q) : Q := Qmin (Qmax x lo) hi.

(** The tensor comes in laid out (N, C, H, W) and leaves laid out
    (N, H, W, C).  The indices of an [ImageClass] are (sample, row, column,
    channel) in both layouts, so that [permute(0, 2, 3, 1)] and
    [contiguous()] leave [px] as it is. *)
Definition float2uint (input : ImageClass) (rescale : bool) : ImageClass :=
  let input :=
    if rescale then
      amap (fun v => inject_Z (astype_uint8 (clamp 0 255 ((v + 1) * (255 # 2))))) input
    else
      amap (fun v => inject_Z (astype_uint8 (clamp 0 255 v))) input in
  input.

(** ** The saved records *)

(** [th.concat([a, b, c], dim=3)] of tensors laid out (N, H, W, C): the
    channels of [a], then those of [b], then those of [c].  The other
    extents must agree; torch raises a [RuntimeError] otherwise, which is
    [None] here. *)
Definition concat_channels (a b c : ImageClass) : option ImageClass :=
  if Nat.eqb (dimN a) (dimN b) && Nat.eqb (dimH a) (dimH b) && Nat.eqb (dimW a) (dimW b) &&
     Nat.eqb (dimN a) (dimN c) && Nat.eqb (dimH a) (dimH c) && Nat.eqb (dimW a) (dimW c)
  then
    Some {| kind := kind a; dimN := dimN a; dimH := dimH a; dimW := dimW a;
            dimC := dimC a + dimC b + dimC c;
            px := fun n h w k =>
                    if Nat.ltb k (dimC a) then px a n h w k
                    else if Nat.ltb k (dimC a + dimC b) then px b n h w (k - dimC a)
                    else px c n h w (k - dimC a - dimC b) |}
  else None.

(** The record of one batch, [save_sample]: the input scaled to bytes, the
    label map, and the generated image scaled to bytes. *)
Definition save_sample (img_batch seg sample : ImageClass) : option ImageClass :=
  let sample := float2uint sample true in
  let seg := float2uint seg false in
  let img_batch := float2uint img_batch true in
  concat_channels img_batch seg sample.

(** [t.cpu().numpy()] *)
Definition numpy (t : ImageClass) : ImageClass :=
  {| kind := NDArray; dimN := dimN t; dimH := dimH t; dimW := dimW t; dimC := dimC t;
     px := px t |}.

(** [f"samples_{idx}.npy"] *)
Definition sample_name (idx : nat) : string :=
  ("samples_" ++ NilEmpty.string_of_uint (Nat.to_uint idx) ++ ".npy")%string.

(** The loop [for idx, sample in enumerate(arr)]: the paths written by
    [np.save] with the arrays [arr[idx][None,...]] stored there. *)
Definition save_all (dir : string) (arr : ImageClass) : list (string * ImageClass) :=
  map (fun idx => (path_join dir (sample_name idx), sample arr idx)) (seq 0 (dimN arr)).

(** ** [shiftingZ] *)

(** Latent vectors have [D] coordinates and are given by their coordinate
    function.  [shiftingZ] treats the rows of the batch [z] of shape (B, D)
    one by one: [th.mm(z, w.transpose(0,1))] holds for each row its product
    with the single row of [w], and the other operations are elementwise
    with [z_mean], [z_std] and [w] broadcast over the rows.  The function
    below is [shiftingZ] on one row. *)
Definition vdot (D : nat) (u v : nat -> Q) : Q :=
  Qsum (map (fun i => u i * v i) (seq 0 D)).

(** [(z - z_mean)/z_std] *)
Definition standardize (z_mean z_std z : nat -> Q) : nat -> Q :=
  fun i => (z i - z_mean i) / z_std i.

(** [score] is [args.anomaly_score]. *)
Definition shiftingZ (D : nat) (z_mean z_std w : nat -> Q) (b score : Q)
    (z : nat -> Q) : nat -> Q :=
  let z := standardize z_mean z_std z in
  let s := (score - b - vdot D z w) / vdot D w w in
  let z := fun i => z i + s * w i in
  let z := fun i => z i * z_std i + z_mean i in
  z.

(** The output of the linear classifier with weight [w] and bias [b] on the
    standardized latent vector. *)
Definition logit (D : nat) (z_mean z_std w : nat -> Q) (b : Q) (z : nat -> Q) : Q :=
  vdot D (standardize z_mean z_std z) w + b.

(** Inputs of the driver examples: a batch of one pixel per sample. *)
Definition img_batch_example : ImageClass :=
  {| kind := Tensor; dimN := 2; dimH := 1; dimW := 1; dimC := 4;
     px := fun n _ _ c => if Nat.eqb n 0 then inject_Z (Z.of_nat c) - 1 else 1 # 3 |}.
Definition seg_example : ImageClass :=
  {| kind := Tensor; dimN := 2; dimH := 1; dimW := 1; dimC := 1;
     px := fun n _ _ _ => if Nat.eqb n 0 then 0 else 4 |}.
Definition generated_example : ImageClass :=
  {| kind := Tensor; dimN := 2; dimH := 1; dimW := 1; dimC := 4;
     px := fun n _ _ c => if Nat.eqb n 0 then -1 else 3 # 2 |}.

(** * Plots of the training and of one sample, [evaluations/evaluate.py] *)

(** ** [evaluate_training] *)

Definition num_columns : nat := 4.
Definition warm_up_steps : Z := 4000.
Definition skip_metric : list string := ["step"; "samples"]%string.

(** [s in l] for a list of strings *)
Definition mem (s : string) (l : list string) : bool := existsb (String.eqb s) l.

(** [metrics[k]] of a [defaultdict(list)] *)
Definition default_get (k : string) (metrics : list (string * list Q)) : list Q :=
  match dict_get k metrics with
  | Some l => l
  | None => []
  end.

(** One subplot of the figure: its position in the grid, its title, the two
    series handed to [plt.plot] and the limits handed to [plt.ylim]. *)
Record subplot : Type := mkSubplot {
  position : nat;
  title : string;
  xdata : list Q;
  ydata : list Q;
  ylim : Q * Q
}.

Section evaluate_training.
(** [int(v)] and [float(v)] of the text of a cell. *)
Variable py_int : string -> result Z.
Variable py_float : string -> result Q.

(** [for k, v in row.items(): metrics[k].append(float(v))] *)
Fixpoint append_items (items : list (string * string)) (metrics : list (string * list Q))
    : result (list (string * list Q)) :=
  match items with
  | [] => Ok metrics
  | (k, v) :: rest =>
      x <- py_float v ;;
      append_items rest (dict_set k (default_get k metrics ++ [x]) metrics)
  end.

(** The loop over the rows of the [csv.DictReader]. *)
Fixpoint read_rows (reader : list (list (string * string))) (warm_up_idx : nat)
    (metrics : list (string * list Q)) : result (nat * list (string * list Q)) :=
  match reader with
  | [] => Ok (warm_up_idx, metrics)
  | row :: rest =>
      step <- (s <- dict_item "step" row ;; py_int s) ;;
      let warm_up_idx := if (step <? warm_up_steps)%Z then S warm_up_idx else warm_up_idx in
      metrics <- append_items row metrics ;;
      read_rows rest warm_up_idx metrics
  end.

(** [int(np.ceil((len(metrics) - len(set(skip_metric) & set(metrics.keys()))) / num_columns))] *)
Definition num_rows (metrics : list (string * list Q)) : nat :=
  Z.to_nat (Qceiling
    (inject_Z (Z.of_nat (List.length metrics -
                         List.length (filter (fun s => mem s (dict_keys metrics)) skip_metric)))
     / inject_Z (Z.of_nat num_columns))).

(** The loop [for metric_name in metrics].  [plt.subplot] raises for a
    position outside the grid, [plt.plot] for two series of different
    length, [min] and [max] for an empty list.  [metrics["step"]] does not
    add a key: a dictionary with a key has the key "step", which the first
    row read has put there. *)
Fixpoint plot_loop (names : list string) (metrics : list (string * list Q))
    (warm_up_idx rows idx : nat) (fig : list subplot) : result (list subplot) :=
  match names with
  | [] => Ok fig
  | metric_name :: rest =>
      if mem metric_name skip_metric then
        plot_loop rest metrics warm_up_idx rows idx fig
      else
        let idx := S idx in
        if negb (Nat.leb 1 idx && Nat.leb idx (rows * num_columns)) then
          Raise (ValueError "num must be an integer with 1 <= num <= nrows*ncols")
        else
          let x := default_get "step" metrics in
          let y := default_get metric_name metrics in
          if negb (Nat.eqb (List.length x) (List.length y)) then
            Raise (ValueError "x and y must have same first dimension")
          else
            match list_min (skipn warm_up_idx y), list_max (skipn warm_up_idx y) with
            | Some lo, Some hi =>
                plot_loop rest metrics warm_up_idx rows idx
                  (fig ++ [mkSubplot idx metric_name x y (lo, hi)])
            | None, _ => Raise (ValueError "min() arg is an empty sequence")
            | _, None => Raise (ValueError "max() arg is an empty sequence")
            end
  end.

(** [reader] holds the rows [csv.DictReader] yields for the progress file;
    the result is the figure that is saved. *)
Definition evaluate_training (reader : list (list (string * string)))
    : result (list subplot) :=
  r <- read_rows reader 0 [] ;;
  let '(warm_up_idx, metrics) := r in
  plot_loop (dict_keys metrics) metrics warm_up_idx (num_rows metrics) 0 [].
End evaluate_training.

(** The row belongs to the warm-up: its step is read and is below
    [warm_up_steps]. *)
Definition is_warm_up (py_int : string -> result Z) (row : list (string * string)) : bool :=
  match s <- dict_item "step" row ;; py_int s with
  | Ok step => (step <? warm_up_steps)%Z
  | Raise _ => false
  end.

(** The columns that are plotted. *)
Definition plotted (fields : list string) : list string :=
  filter (fun k => negb (mem k skip_metric)) fields.

(** Example readers: the cells hold the texts "0", "1", ..., which the two
    parsers below read as numbers; the step of a row is a thousand times its
    first cell. *)
Definition py_float_example (v : string) : result Q :=
  match NilEmpty.uint_of_string v with
  | Some d => Ok (inject_Z (Z.of_nat (Nat.of_uint d)))
  | None => Raise (ValueError "could not convert string to float")
  end.
Definition py_int_example (v : string) : result Z :=
  match NilEmpty.uint_of_string v with
  | Some d => Ok (1000 * Z.of_nat (Nat.of_uint d))%Z
  | None => Raise (ValueError "invalid literal for int() with base 10")
  end.
Definition progress_example : list (list (string * string)) :=
  [[("step", "1"); ("loss", "9"); ("samples", "8"); ("mse", "5")];
   [("step", "5"); ("loss", "4"); ("samples", "16"); ("mse", "2")]]%string.
Definition warm_up_progress_example : list (list (string * string)) :=
  [[("step", "1"); ("loss", "9"); ("samples", "8"); ("mse", "5")];
   [("step", "2"); ("loss", "4"); ("samples", "16"); ("mse", "2")]]%string.

(** ** [evaluate_image] *)


Section evaluate_image.
Variable np_load : string -> result ImageClass.
Variable np_percentile : ImageClass -> Q -> Q.

End evaluate_image.

(** The dictionary holds, under each of the given fields and in their
    order, a list of [n] numbers; before the first row it is empty. *)
Definition table_of (fields : list string) (n : nat) (metrics : list (string * list Q)) : Prop :=
  (metrics = [] /\ n = 0%nat) \/
  (dict_keys metrics = fields /\
   forall k, In k fields -> List.length (default_get k metrics) = n).

(** * Properties *)

(** ** Comparisons *)

Lemma Qltb_lt (a b : Q) : Qltb a b = true <-> a < b.
Proof.
  unfold Qltb. rewrite negb_true_iff.
  split; intro H.
  - apply Qnot_le_lt. intro Hle. apply Qle_bool_iff in Hle. congruence.
  - destruct (Qle_bool b a) eqn:E; [|reflexivity].
    apply Qle_bool_iff in E. exfalso. exact (Qlt_not_le _ _ H E).
Qed.

Lemma Qltb_ge (a b : Q) : Qltb a b = false <-> b <= a.
Proof.
  unfold Qltb. rewrite negb_false_iff. apply Qle_bool_iff.
Qed.

Lemma b2q_times_1 (b : bool) : b2q b * 1 = b2q b.
Proof. destruct b; reflexivity. Qed.

Lemma b2q_cases (b : bool) : b2q b = 1 \/ b2q b = 0.
Proof. destruct b; auto. Qed.

Lemma b2q_one (b : bool) : b2q b = 1 <-> b = true.
Proof. destruct b; simpl; split; intro; try reflexivity; discriminate. Qed.

Lemma Qltb_0_b2q (b : bool) : Qltb 0 (b2q b) = b.
Proof. destruct b; reflexivity. Qed.

(** ** The region masker *)

Lemma region_mask_ET_spec (t : Q) : region_mask_ET t = b2q (Qeq_bool t 1).
Proof. unfold region_mask_ET. apply b2q_times_1. Qed.

Lemma region_mask_TC_spec (t : Q) :
  region_mask_TC t = b2q (Qeq_bool t 1 || Qeq_bool t 4).
Proof. unfold region_mask_TC. now rewrite Qltb_0_b2q, b2q_times_1. Qed.

Lemma region_mask_WT_spec (t : Q) :
  region_mask_WT t = b2q (Qeq_bool t 1 || Qeq_bool t 2 || Qeq_bool t 4).
Proof.
  unfold region_mask_WT.
  change (0 * 1) with 0. now rewrite Qltb_0_b2q.
Qed.

Lemma region_specific_metrics_valid {A : Type} (targets images : ImageClass)
    (func : ImageClass -> ImageClass -> result A) :
  region_specific_metrics targets images func "ET" = func (amap region_mask_ET targets) images /\
  region_specific_metrics targets images func "TC" = func (amap region_mask_TC targets) images /\
  region_specific_metrics targets images func "WT" = func (amap region_mask_WT targets) images.
Proof. repeat split. Qed.

Lemma region_specific_metrics_invalid {A : Type} (targets images : ImageClass)
    (func : ImageClass -> ImageClass -> result A) (region_type : string) :
  ~ In region_type ["ET"; "TC"; "WT"]%string ->
  region_specific_metrics targets images func region_type =
  Raise (AssertionError region_type_msg).
Proof.
  intro Hnot. unfold region_specific_metrics.
  destruct (existsb (String.eqb region_type) ["ET"; "TC"; "WT"]%string) eqn:E; [|reflexivity].
  apply existsb_exists in E. destruct E as [x [Hin Hx]].
  apply String.eqb_eq in Hx. subst x. contradiction.
Qed.

(** C4. For each of the region types ET, TC and WT the mask handed to the
    metric has the shape of the label map and values in {0,1}; it is 1 exactly
    at the labels equal to 1 (ET), to 1 or 4 (TC), to 1, 2 or 4 (WT).  The
    label map [[1,2],[4,0]] gives WT [[1,1],[1,0]], TC [[1,0],[1,0]] and
    ET [[1,0],[0,0]].  Any other region type raises the assertion error. *)
Theorem region_masker_correct :
  (forall (A : Type) (targets images : ImageClass)
          (func : ImageClass -> ImageClass -> result A),
     exists et tc wt,
       region_specific_metrics targets images func "ET" = func et images /\
       region_specific_metrics targets images func "TC" = func tc images /\
       region_specific_metrics targets images func "WT" = func wt images /\
       (shape et = shape targets /\ shape tc = shape targets /\ shape wt = shape targets) /\
       forall n h w c,
         let t := px targets n h w c in
         (px et n h w c = 1 \/ px et n h w c = 0) /\
         (px tc n h w c = 1 \/ px tc n h w c = 0) /\
         (px wt n h w c = 1 \/ px wt n h w c = 0) /\
         (px et n h w c = 1 <-> t == 1) /\
         (px tc n h w c = 1 <-> t == 1 \/ t == 4) /\
         (px wt n h w c = 1 <-> t == 1 \/ t == 2 \/ t == 4)) /\
  (exists et tc wt,
     region_mask label_map_example "ET" = Ok et /\
     region_mask label_map_example "TC" = Ok tc /\
     region_mask label_map_example "WT" = Ok wt /\
     to_rows wt = [[1; 1]; [1; 0]] /\
     to_rows tc = [[1; 0]; [1; 0]] /\
     to_rows et = [[1; 0]; [0; 0]]) /\
  (forall (A : Type) (targets images : ImageClass)
          (func : ImageClass -> ImageClass -> result A) (region_type : string),
     ~ In region_type ["ET"; "TC"; "WT"]%string ->
     region_specific_metrics targets images func region_type =
     Raise (AssertionError region_type_msg)).
Proof.
  split; [|split].
  - intros A targets images func.
    exists (amap region_mask_ET targets), (amap region_mask_TC targets),
           (amap region_mask_WT targets).
    destruct (region_specific_metrics_valid targets images func) as [E1 [E2 E3]].
    repeat split; try assumption; cbn [px amap];
      rewrite ?region_mask_ET_spec, ?region_mask_TC_spec, ?region_mask_WT_spec;
      try apply b2q_cases;
      rewrite ?b2q_one, ?orb_true_iff, ?Qeq_bool_iff in *; tauto.
  - eexists _, _, _. repeat split.
  - intros. now apply region_specific_metrics_invalid.
Qed.

Lemma region_masker_correct_witness :
  region_specific_metrics label_map_example label_map_example
    (fun masks _ => Ok masks) "NCR" = Raise (AssertionError region_type_msg).
Proof.
  apply (proj2 (proj2 region_masker_correct)).
  simpl. intros [H | [H | [H | H]]]; try discriminate H; exact H.
Defined.

(** ** The two binarization predicates *)

Lemma finding_mask_fn_inv (pred mask : ImageClass) (flag : bool)
    (t : option Q) (b : ImageClass) :
  finding_threshold.mask_fn pred mask flag = Ok (t, b) ->
  exists sel,
    take_where pred mask = Ok sel /\
    let thresh :=
      inject_Z (getThreshVal_Otsu_8u (map (fun v => astype_uint8 (v * 255)) sel)) / 255 in
    t = (if flag then Some thresh else None) /\
    b = amap (fun v => b2q (Qltb thresh v) * 1) pred.
Proof.
  unfold finding_threshold.mask_fn. intro H.
  destruct (take_where pred mask) as [sel|e]; cbn [rbind] in H; [|discriminate].
  exists sel. split; [reflexivity|]. inversion H. split; reflexivity.
Qed.

Lemma finding_mask_fn_pixel (pred mask : ImageClass) (t : Q) (b : ImageClass) :
  finding_threshold.mask_fn pred mask true = Ok (Some t, b) ->
  forall n h w c, px b n h w c = b2q (Qltb t (px pred n h w c)).
Proof.
  intros H n h w c.
  apply finding_mask_fn_inv in H. destruct H as [sel [_ [Ht Hb]]].
  cbv zeta in Ht, Hb. inversion Ht. subst b. cbn [px amap].
  apply b2q_times_1.
Qed.

Lemma using_mask_fn_pixel (t : Q) (pred : ImageClass) :
  forall n h w c,
    px (using_thresh.mask_fn t pred) n h w c = b2q (Qle_bool t (px pred n h w c)).
Proof. intros. unfold using_thresh.mask_fn. cbn [px amap]. apply b2q_times_1. Qed.

Lemma gt_ge_agree_off_threshold (t v : Q) :
  ~ v == t -> b2q (Qltb t v) = b2q (Qle_bool t v).
Proof.
  intro Hne. f_equal.
  destruct (Qle_bool t v) eqn:E.
  - apply Qltb_lt. apply Qle_bool_iff in E.
    apply Qle_lt_or_eq in E. destruct E as [E | E]; [exact E|].
    exfalso. apply Hne. symmetry. exact E.
  - apply Qltb_ge. apply Qlt_le_weak. apply Qnot_le_lt.
    intro Hle. apply Qle_bool_iff in Hle. congruence.
Qed.

(** C10. Find-threshold mode marks a pixel exactly when its score is strictly
    greater than the threshold, use-threshold mode exactly when it is greater
    than or equal to it.  So on a score map without a pixel equal to the
    threshold the two binarizations coincide, and there is a score map with a
    pixel at the threshold on which they differ. *)
Theorem binarization_predicates_differ_at_threshold :
  (forall (pred mask : ImageClass) (t : Q) (b : ImageClass),
     finding_threshold.mask_fn pred mask true = Ok (Some t, b) ->
     (forall n h w c, px b n h w c = 1 <-> t < px pred n h w c) /\
     (forall n h w c,
        px (using_thresh.mask_fn t pred) n h w c = 1 <-> t <= px pred n h w c) /\
     ((forall n h w c, in_bounds pred n h w c -> ~ px pred n h w c == t) ->
      shape b = shape (using_thresh.mask_fn t pred) /\
      forall n h w c, in_bounds pred n h w c ->
        px b n h w c = px (using_thresh.mask_fn t pred) n h w c)) /\
  (exists (pred mask : ImageClass) (t : Q) (b : ImageClass),
     finding_threshold.mask_fn pred mask true = Ok (Some t, b) /\
     exists n h w c,
       in_bounds pred n h w c /\ px pred n h w c == t /\
       px b n h w c = 0 /\ px (using_thresh.mask_fn t pred) n h w c = 1).
Proof.
  split.
  - intros pred mask t b H. split; [|split].
    + intros. rewrite (finding_mask_fn_pixel _ _ _ _ H), b2q_one. apply Qltb_lt.
    + intros. rewrite using_mask_fn_pixel, b2q_one. apply Qle_bool_iff.
    + intro Hoff. split.
      * apply finding_mask_fn_inv in H. destruct H as [sel [_ [_ Hb]]].
        subst b. reflexivity.
      * intros n h w c Hin.
        rewrite (finding_mask_fn_pixel _ _ _ _ H), using_mask_fn_pixel.
        apply gt_ge_agree_off_threshold. now apply Hoff.
  - exists boundary_map_example, boundary_mask_example. eexists _, _.
    split; [vm_compute; reflexivity|].
    exists 0%nat, 0%nat, 0%nat, 0%nat. repeat split; cbn; lia.
Qed.

Lemma binarization_predicates_differ_at_threshold_witness :
  finding_threshold.mask_fn score_map_example ones_mask_example true =
    Ok (Some (25 # 255), amap (fun v => b2q (Qltb (25 # 255) v) * 1) score_map_example) /\
  px (amap (fun v => b2q (Qltb (25 # 255) v) * 1) score_map_example) 0 1 1 0 =
  px (using_thresh.mask_fn (25 # 255) score_map_example) 0 1 1 0.
Proof.
  split; [reflexivity|].
  refine (proj2 (proj2 (proj2 (proj1 binarization_predicates_differ_at_threshold
            score_map_example ones_mask_example (25 # 255) _ eq_refl)) _) 0 1 1 0 _)%nat.
  - intros n h w c [Hn [Hh [Hw Hc]]]. cbn in Hn, Hh, Hw, Hc.
    destruct n as [|n]; [|lia]. destruct c as [|c]; [|lia].
    destruct h as [|[|h]]; [| |lia]; (destruct w as [|[|w]]; [| |lia]);
      vm_compute; discriminate.
  - cbv; repeat split; constructor.
Defined.

(** ** The Dice coefficient *)

Lemma same_shape_and_type_iff (images targets : ImageClass) :
  same_shape_and_type images targets = true <->
  shape images = shape targets /\ kind images = kind targets.
Proof.
  unfold same_shape_and_type, shape_eqb, shape.
  rewrite !andb_true_iff, !Nat.eqb_eq.
  split.
  - intros [[[[HN HH] HW] HC] HK]. split.
    + congruence.
    + destruct (kind images), (kind targets); try reflexivity; discriminate.
  - intros [Hs Hk]. inversion Hs. rewrite Hk.
    repeat split; try reflexivity. now destruct (kind targets).
Qed.

Lemma flatten_sample_length (a b : ImageClass) (n m : nat) :
  shape a = shape b ->
  List.length (flatten (sample a n)) = List.length (flatten (sample b m)).
Proof.
  intro Hs. inversion Hs as [[HN HH HW HC]].
  unfold flatten, indices. rewrite !length_map. cbn [dimN dimH dimW dimC sample].
  now rewrite HH, HW, HC.
Qed.

Lemma dot_fn_exact (k : container) (du dv : dtype) (u v : list Q) :
  exact_dot k du dv = true -> List.length u = List.length v ->
  dot_fn k du dv u v = Ok (dot_product u v).
Proof.
  intros He Hl. unfold dot_fn. rewrite Hl, Nat.eqb_refl.
  destruct k, du, dv; try discriminate He; reflexivity.
Qed.

Lemma twice_exact (k : container) (weak_scalars : bool) (du dv : dtype) (dot : Q) :
  exact_dot k du dv = true -> twice k weak_scalars (dot_type k du dv) dot = 2 * dot.
Proof.
  intro He. destruct k, du, dv; try discriminate He; reflexivity.
Qed.

Lemma dice_loop_spec (weak_scalars : bool) (dt_targets dt_images : dtype)
    (epsilon : Q) (targets images : ImageClass) :
  exact_dot (kind images) dt_images dt_targets = true ->
  shape images = shape targets ->
  forall (ns : list nat) (acc : Q),
  exists d,
    dice_loop weak_scalars dt_targets dt_images default_mask_fn epsilon targets images ns acc
      = Ok d /\
    d == acc + Qsum (map (dice_of_sample epsilon targets images) ns).
Proof.
  intros He Hs ns. induction ns as [|n ns IH]; intro acc.
  - exists acc. split; [reflexivity|]. cbn. ring.
  - cbn [dice_loop default_mask_fn rbind].
    rewrite (dot_fn_exact _ _ _ _ _ He (flatten_sample_length images targets n n Hs)).
    cbn [rbind]. rewrite (twice_exact _ _ _ _ _ He).
    destruct (IH (acc + (2 * dot_product (flatten (sample images n)) (flatten (sample targets n))
                         + epsilon)
                        / (asum (sample images n) + asum (sample targets n) + epsilon)))
      as [d [Hd Heq]].
    exists d. split; [exact Hd|].
    rewrite Heq. cbn [map]. unfold Qsum, dice_of_sample. cbn [fold_right]. ring.
Qed.

Lemma dice_coeff_empty_batch (weak_scalars : bool) (dt_targets dt_images : dtype)
    (targets images : ImageClass)
    (mask_fn : ImageClass -> result ImageClass) (epsilon : Q) :
  same_shape_and_type images targets = true ->
  dimN images = 0%nat ->
  dice_coeff weak_scalars dt_targets dt_images targets images mask_fn epsilon =
  Raise ZeroDivisionError.
Proof.
  intros Hs HN. unfold dice_coeff. rewrite Hs, HN. reflexivity.
Qed.

Lemma dice_coeff_mean (weak_scalars : bool) (dt_targets dt_images : dtype)
    (targets images : ImageClass) (epsilon : Q) :
  exact_dot (kind images) dt_images dt_targets = true ->
  shape images = shape targets -> kind images = kind targets ->
  (0 < dimN images)%nat ->
  exists d,
    dice_coeff weak_scalars dt_targets dt_images targets images default_mask_fn epsilon
      = Ok d /\
    d == batch_mean (map (dice_of_sample epsilon targets images) (seq 0 (dimN images))).
Proof.
  intros He Hs Hk HN.
  assert (Hst : same_shape_and_type images targets = true)
    by (apply same_shape_and_type_iff; auto).
  destruct (dice_loop_spec weak_scalars dt_targets dt_images epsilon targets images He Hs
              (seq 0 (dimN images)) 0) as [d [Hd Heq]].
  exists (d / inject_Z (Z.of_nat (dimN images))).
  unfold dice_coeff. rewrite Hst, Hd. cbn [negb rbind].
  destruct (Nat.eqb_spec (dimN images) 0) as [E|_]; [lia|].
  split; [reflexivity|].
  unfold batch_mean. rewrite length_map, length_seq, Heq.
  apply Qdiv_comp; [ring | reflexivity].
Qed.

(** The sums and the enumeration of the specification agree with those of
    the code. *)
Lemma fold_left_Qplus (l : list Q) (a : Q) : fold_left Qplus l a == a + Qsum l.
Proof.
  revert a. induction l as [|x l IH]; intro a; cbn [fold_left].
  - unfold Qsum. cbn [fold_right]. ring.
  - rewrite IH. unfold Qsum. cbn [fold_right]. ring.
Qed.

Lemma spec_sum_Qsum (l : list Q) : spec_sum l == Qsum l.
Proof. unfold spec_sum. rewrite fold_left_Qplus. ring. Qed.

Lemma spec_dot_product (u v : list Q) : spec_dot u v == dot_product u v.
Proof.
  unfold spec_dot. rewrite spec_sum_Qsum.
  revert v. induction u as [|x u IH]; intros [|y v]; cbn [combine map dot_product];
    try reflexivity.
  unfold Qsum. cbn [fold_right fst snd].
  fold (Qsum (map (fun p => fst p * snd p) (combine u v))). rewrite IH. reflexivity.
Qed.

Lemma map_flat_map {A B C : Type} (g : B -> C) (f : A -> list B) (l : list A) :
  map g (flat_map f l) = flat_map (fun x => map g (f x)) l.
Proof.
  induction l as [|x l IH]; cbn [flat_map map]; [reflexivity|].
  now rewrite map_app, IH.
Qed.

Lemma flat_map_list_prod {A B C : Type} (f : A * B -> list C) (l : list A) (l' : list B) :
  flat_map f (list_prod l l') = flat_map (fun x => flat_map (fun y => f (x, y)) l') l.
Proof.
  induction l as [|x l IH]; cbn [list_prod flat_map]; [reflexivity|].
  rewrite flat_map_app, IH. f_equal.
  clear. induction l' as [|y l' IH]; cbn [map flat_map]; [reflexivity | now rewrite IH].
Qed.

Lemma map_list_prod {A B C : Type} (f : A * B -> C) (l : list A) (l' : list B) :
  map f (list_prod l l') = flat_map (fun x => map (fun y => f (x, y)) l') l.
Proof.
  induction l as [|x l IH]; cbn [list_prod flat_map map]; [reflexivity|].
  now rewrite map_app, map_map, IH.
Qed.

Lemma spec_pixels_flatten (a : ImageClass) (n : nat) :
  spec_pixels a n = flatten (sample a n).
Proof.
  unfold spec_pixels, flatten, indices, indices4.
  cbn [dimN dimH dimW dimC sample seq flat_map]. rewrite app_nil_r.
  rewrite map_list_prod, flat_map_list_prod, map_flat_map.
  apply flat_map_ext. intro h. rewrite map_flat_map. apply flat_map_ext. intro w.
  rewrite map_map. reflexivity.
Qed.

Lemma spec_dice_of_sample (epsilon : Q) (targets images : ImageClass) (n : nat) :
  spec_dice epsilon targets images n == dice_of_sample epsilon targets images n.
Proof.
  unfold spec_dice, spec_denominator, dice_of_sample, asum. cbv zeta.
  rewrite !spec_pixels_flatten.
  apply Qdiv_comp; rewrite ?spec_dot_product, ?spec_sum_Qsum; reflexivity.
Qed.

Lemma spec_mean_batch (f g : nat -> Q) (ns : list nat) :
  (forall n, In n ns -> f n == g n) ->
  spec_mean (map f ns) == batch_mean (map g ns).
Proof.
  intro H. unfold spec_mean, batch_mean. rewrite !length_map, spec_sum_Qsum.
  apply Qdiv_comp; [|reflexivity].
  induction ns as [|n ns IH]; [reflexivity|].
  cbn [map]. unfold Qsum. cbn [fold_right].
  fold (Qsum (map f ns)). fold (Qsum (map g ns)).
  rewrite (H n (or_introl eq_refl)), IH; [reflexivity|].
  intros m Hm. apply H. now right.
Qed.

(** C3 (as amended). On batches of floats of the same shape and type, with at
    least one sample (the average of no sample being a division by zero) and
    denominators that are not zero, the Dice coefficient is the mean over the
    batch of (2*dot(pred,target) + epsilon) / (sum(pred) + sum(target) +
    epsilon), the default epsilon being 1e-6; on a shape or type mismatch the
    assertion fails whatever the element types, the masking function and
    epsilon are.  For NumPy arrays it is enough that one of the two batches
    holds floats. *)
Theorem dice_coeff_correct (weak_scalars : bool) (dt_targets dt_images : dtype)
    (targets images : ImageClass) :
  (shape images = shape targets -> kind images = kind targets ->
   exact_dot (kind images) dt_images dt_targets = true ->
   (0 < dimN images)%nat ->
   forall epsilon,
     (forall n, (n < dimN images)%nat -> ~ spec_denominator epsilon targets images n == 0) ->
     exists d,
       dice_coeff weak_scalars dt_targets dt_images targets images default_mask_fn epsilon
         = Ok d /\
       d == spec_mean (map (spec_dice epsilon targets images) (seq 0 (dimN images)))) /\
  default_epsilon == 1 / 1000000 /\
  (shape images <> shape targets \/ kind images <> kind targets ->
   forall mask_fn epsilon,
     dice_coeff weak_scalars dt_targets dt_images targets images mask_fn epsilon =
     Raise (AssertionError shape_type_msg)).
Proof.
  split; [|split].
  - intros Hs Hk He HN epsilon _.
    destruct (dice_coeff_mean weak_scalars dt_targets dt_images targets images epsilon
                He Hs Hk HN) as [d [Hd Hmean]].
    exists d. split; [exact Hd|]. rewrite Hmean.
    symmetry. apply spec_mean_batch. intros n _. apply spec_dice_of_sample.
  - reflexivity.
  - intros Hmis mask_fn epsilon. unfold dice_coeff.
    destruct (same_shape_and_type images targets) eqn:E; [|reflexivity].
    apply same_shape_and_type_iff in E. tauto.
Qed.

Lemma dice_coeff_correct_witness :
  (exists d,
     dice_coeff true float64 float64 ones_mask_example score_map_example default_mask_fn
       default_epsilon = Ok d /\
     d == spec_mean (map (spec_dice default_epsilon ones_mask_example score_map_example)
                         (seq 0 (dimN score_map_example))) /\
     d == 4000001 # 6000001) /\
  dice_coeff true float64 float64 label_map_example boundary_map_example default_mask_fn
    default_epsilon = Raise (AssertionError shape_type_msg).
Proof.
  split.
  - destruct (proj1 (dice_coeff_correct true float64 float64 ones_mask_example
                       score_map_example) eq_refl eq_refl eq_refl) with (epsilon := default_epsilon)
      as [d [Hd Hmean]].
    + cbn. lia.
    + intros n Hn H. cbn in Hn. assert (n = 0%nat) by lia. subst n.
      vm_compute in H. discriminate H.
    + exists d. split; [exact Hd|]. split; [exact Hmean|].
      rewrite Hmean. vm_compute. reflexivity.
  - apply (proj2 (proj2 (dice_coeff_correct true float64 float64 label_map_example
                           boundary_map_example))).
    left. cbv. discriminate.
Defined.

(** C3 (the claim as stated fails). Two identical batches of 300 bytes, all
    1, have the same shape and the same type, and the formula of the claim
    gives 1 for them; [np.dot] computes their product in a byte, 300 modulo
    256 = 44, and [dice_coeff] returns (2*44 + epsilon) / (600 + epsilon),
    under either promotion rule.  Two identical batches of 3 booleans, all
    true, have the logical product 1, and [dice_coeff] returns
    (2 + epsilon) / (6 + epsilon). *)
Lemma dice_coeff_bytes_wrap :
  shape ones_300_example = (1, 1, 300, 1)%nat /\
  spec_mean (map (spec_dice default_epsilon ones_300_example ones_300_example) (seq 0 1)) == 1 /\
  spec_mean (map (spec_dice default_epsilon ones_3_example ones_3_example) (seq 0 1)) == 1 /\
  (forall weak_scalars, exists d,
     dice_coeff weak_scalars uint8 uint8 ones_300_example ones_300_example default_mask_fn
       default_epsilon = Ok d /\
     d == (88 + default_epsilon) / (600 + default_epsilon) /\ ~ d == 1) /\
  (forall weak_scalars, exists d,
     dice_coeff weak_scalars bool_ bool_ ones_3_example ones_3_example default_mask_fn
       default_epsilon = Ok d /\
     d == (2 + default_epsilon) / (6 + default_epsilon) /\ ~ d == 1).
Proof.
  split; [reflexivity|].
  split; [vm_compute; reflexivity|].
  split; [vm_compute; reflexivity|].
  split; intros [|]; eexists; (split; [vm_compute; reflexivity|]);
    (split; [vm_compute; reflexivity | intro H; vm_compute in H; discriminate H]).
Qed.

(** ** AUROC *)

(** A batch of one sample at or below the minimum gives exactly -1. *)
Lemma AUROC_single_sample_sentinel
    (roc_auc_score : list Q -> list Q -> result Q)
    (targets images : ImageClass) (threshold : Q) :
  shape images = shape targets -> kind images = NDArray -> kind targets = NDArray ->
  dimN images = 1%nat ->
  Qsum (flatten (sample targets 0)) <= threshold ->
  AUROC roc_auc_score targets images threshold = Ok (-1).
Proof.
  intros Hs Hk Hk' HN Hle. unfold AUROC.
  assert (Hst : same_shape_and_type images targets = true)
    by (apply same_shape_and_type_iff; split; congruence).
  rewrite Hst, HN. cbn [negb seq AUROC_loop]. rewrite Hk.
  apply Qle_bool_iff in Hle. rewrite Hle. reflexivity.
Qed.

(** A batch of one sample above the minimum gives its ROC-AUC score. *)
Lemma AUROC_single_sample_score
    (roc_auc_score : list Q -> list Q -> result Q)
    (targets images : ImageClass) (threshold auc : Q) :
  shape images = shape targets -> kind images = NDArray -> kind targets = NDArray ->
  dimN images = 1%nat ->
  threshold < Qsum (flatten (sample targets 0)) ->
  roc_auc_score (flatten (sample targets 0)) (flatten (sample images 0)) = Ok auc ->
  exists r, AUROC roc_auc_score targets images threshold = Ok r /\ r == auc.
Proof.
  intros Hs Hk Hk' HN Hlt Hauc. unfold AUROC.
  assert (Hst : same_shape_and_type images targets = true)
    by (apply same_shape_and_type_iff; split; congruence).
  rewrite Hst, HN. cbn [negb seq AUROC_loop]. rewrite Hk.
  destruct (Qle_bool (Qsum (flatten (sample targets 0))) threshold) eqn:E.
  - apply Qle_bool_iff in E. exfalso. exact (Qlt_not_le _ _ Hlt E).
  - rewrite Hauc. cbn [rbind Nat.eqb]. eexists. split; [reflexivity|].
    change (inject_Z (Z.of_nat 1)) with 1. field.
Qed.

(** C1 (the code at the failing input). With two samples in the batch, both
    without a positive pixel, the result is -1/2 and not the sentinel -1;
    with the first sample below the minimum and the second above it, the
    result is (-1 + score)/2. *)
Theorem AUROC_batch_dilutes_sentinel
    (roc_auc_score : list Q -> list Q -> result Q) :
  AUROC roc_auc_score empty_pair_example empty_pair_example default_threshold = Ok (-1 # 2) /\
  ~ (-1 # 2) == -1 /\
  (forall auc,
     roc_auc_score (flatten (sample mixed_pair_example 1))
                   (flatten (sample mixed_pair_example 1)) = Ok auc ->
     AUROC roc_auc_score mixed_pair_example mixed_pair_example default_threshold =
     Ok ((-1 + auc) / 2)).
Proof.
  split; [reflexivity|]. split; [discriminate|].
  intros auc Hauc. unfold AUROC.
  change (same_shape_and_type mixed_pair_example mixed_pair_example) with true.
  cbn [negb]. change (dimN mixed_pair_example) with 2%nat.
  cbn [seq AUROC_loop]. change (kind mixed_pair_example) with NDArray. cbv iota.
  replace (Qle_bool (Qsum (flatten (sample mixed_pair_example 0))) default_threshold)
    with true by (vm_compute; reflexivity).
  replace (Qle_bool (Qsum (flatten (sample mixed_pair_example 1))) default_threshold)
    with false by (vm_compute; reflexivity).
  rewrite Hauc. reflexivity.
Qed.

Lemma AUROC_batch_dilutes_sentinel_witness :
  AUROC (fun _ _ => Ok (1 # 2)) mixed_pair_example mixed_pair_example default_threshold =
  Ok ((-1 + (1 # 2)) / 2).
Proof.
  apply (proj2 (proj2 (AUROC_batch_dilutes_sentinel (fun _ _ => Ok (1 # 2))))).
  reflexivity.
Defined.

(** ** Indices and the global minimum *)

Lemma in_indices4 (N H W C n h w c : nat) :
  In (n, h, w, c) (indices4 N H W C) <->
  (n < N)%nat /\ (h < H)%nat /\ (w < W)%nat /\ (c < C)%nat.
Proof.
  unfold indices4. rewrite in_flat_map. split.
  - intros [n' [Hn Hin]]. apply in_flat_map in Hin. destruct Hin as [h' [Hh Hin]].
    apply in_flat_map in Hin. destruct Hin as [w' [Hw Hin]].
    apply in_map_iff in Hin. destruct Hin as [c' [Heq Hc]].
    inversion Heq; subst. rewrite in_seq in Hn, Hh, Hw, Hc. lia.
  - intros [Hn [Hh [Hw Hc]]].
    exists n. split; [apply in_seq; lia|].
    apply in_flat_map. exists h. split; [apply in_seq; lia|].
    apply in_flat_map. exists w. split; [apply in_seq; lia|].
    apply in_map_iff. exists c. split; [reflexivity | apply in_seq; lia].
Qed.

Lemma in_flatten (a : ImageClass) (v : Q) :
  In v (flatten a) <-> exists n h w c, in_bounds a n h w c /\ px a n h w c = v.
Proof.
  unfold flatten, indices. rewrite in_map_iff. split.
  - intros [[[[n h] w] c] [Hv Hin]]. apply in_indices4 in Hin.
    exists n, h, w, c. split; [exact Hin | exact Hv].
  - intros [n [h [w [c [Hin Hv]]]]]. exists (n, h, w, c).
    split; [exact Hv | apply in_indices4; exact Hin].
Qed.

Lemma fold_Qmin_le (l : list Q) (x : Q) :
  fold_left Qmin l x <= x /\ forall y, In y l -> fold_left Qmin l x <= y.
Proof.
  revert x. induction l as [|z l IH]; intro x; cbn [fold_left].
  - split; [apply Qle_refl | intros y []].
  - destruct (IH (Qmin x z)) as [H1 H2]. split.
    + eapply Qle_trans; [exact H1 | apply Q.le_min_l].
    + intros y [-> | Hy].
      * eapply Qle_trans; [exact H1 | apply Q.le_min_r].
      * now apply H2.
Qed.

Lemma fold_Qmin_in (l : list Q) (x : Q) :
  fold_left Qmin l x = x \/ In (fold_left Qmin l x) l.
Proof.
  revert x. induction l as [|z l IH]; intro x; cbn [fold_left].
  - now left.
  - destruct (IH (Qmin x z)) as [H | H].
    + rewrite H. unfold Qmin, GenericMinMax.gmin.
      destruct (x ?= z); [now left | now left | right; now left].
    + right; now right.
Qed.

(** [amin] is the least element of the array, and an array with an element
    has one. *)
Lemma amin_is_minimum (a : ImageClass) (m : Q) :
  amin a = Ok m ->
  (forall n h w c, in_bounds a n h w c -> m <= px a n h w c) /\
  (exists n h w c, in_bounds a n h w c /\ px a n h w c = m).
Proof.
  unfold amin, list_min. intro H.
  destruct (flatten a) as [|x l] eqn:E; [discriminate|].
  inversion H as [Hm]. clear H.
  destruct (fold_Qmin_le l x) as [H1 H2]. split.
  - intros n h w c Hin.
    assert (Hv : In (px a n h w c) (flatten a))
      by (apply in_flatten; exists n, h, w, c; auto).
    rewrite E in Hv. destruct Hv as [<- | Hv]; [exact H1 | now apply H2].
  - apply in_flatten. rewrite E.
    destruct (fold_Qmin_in l x) as [-> | Hin]; [now left | now right].
Qed.

Lemma amin_defined (a : ImageClass) :
  (0 < dimN a)%nat -> (0 < dimH a)%nat -> (0 < dimW a)%nat -> (0 < dimC a)%nat ->
  exists m, amin a = Ok m.
Proof.
  intros HN HH HW HC. unfold amin, list_min.
  destruct (flatten a) as [|x l] eqn:E.
  - exfalso.
    assert (Hin : In (px a 0 0 0 0) (flatten a))
      by (apply in_flatten; exists 0%nat, 0%nat, 0%nat, 0%nat; unfold in_bounds; auto).
    rewrite E in Hin. exact Hin.
  - eexists. reflexivity.
Qed.

(** ** Broadcasting against a one-channel array *)

Lemma bidx_in_range (d i : nat) : (i < d)%nat -> bidx d i = i.
Proof.
  intro H. unfold bidx. destruct (Nat.eqb_spec d 1) as [E|_]; [lia | reflexivity].
Qed.

Lemma bdim_same (d : nat) : bdim d d = Some d.
Proof. unfold bdim. now rewrite Nat.eqb_refl. Qed.

Lemma bdim_one (d : nat) : bdim d 1 = Some d.
Proof.
  unfold bdim. destruct (Nat.eqb_spec d 1) as [E|_]; [now rewrite E | reflexivity].
Qed.

Lemma broadcast2_one_channel (f : Q -> Q -> Q) (a b : ImageClass) :
  dimN a = dimN b -> dimH a = dimH b -> dimW a = dimW b -> dimC b = 1%nat ->
  exists r,
    broadcast2 f a b = Ok r /\ kind r = kind a /\ shape r = shape a /\
    forall n h w c, in_bounds a n h w c ->
      px r n h w c = f (px a n h w c) (px b n h w 0).
Proof.
  intros HN HH HW HC. unfold broadcast2.
  rewrite <- HN, <- HH, <- HW, HC, !bdim_same, bdim_one.
  eexists. split; [reflexivity|]. split; [reflexivity|]. split; [reflexivity|].
  intros n h w c [Hn [Hh [Hw Hc]]]. cbn [px].
  rewrite !bidx_in_range by assumption. reflexivity.
Qed.

(** ** The non-zero mask *)

Lemma Qltb_proper (a a' b b' : Q) : a == a' -> b == b' -> Qltb a b = Qltb a' b'.
Proof. intros Ha Hb. unfold Qltb. now rewrite Ha, Hb. Qed.

Lemma Qsum_indicator (f : nat -> bool) (l : list nat) :
  Qsum (map (fun c => b2q (f c)) l) == inject_Z (Z.of_nat (List.length (filter f l))).
Proof.
  induction l as [|c l IH]; [reflexivity|].
  cbn [map filter]. unfold Qsum in *. cbn [fold_right]. rewrite IH.
  destruct (f c); cbn [b2q List.length].
  - rewrite Nat2Z.inj_succ, <- Z.add_1_l, inject_Z_plus. reflexivity.
  - ring.
Qed.

Lemma filter_all_length {A : Type} (f : A -> bool) (l : list A) :
  List.length (filter f l) = List.length l <-> forall x, In x l -> f x = true.
Proof.
  induction l as [|x l IH]; cbn [filter List.length].
  - split; [intros _ y [] | reflexivity].
  - pose proof (filter_length_le f l) as Hle.
    destruct (f x) eqn:E; cbn [List.length].
    + split.
      * intros H y [<- | Hy]; [exact E | apply IH; [lia | exact Hy]].
      * intro H. f_equal. apply IH. intros y Hy. apply H. now right.
    + split; [lia|]. intro H. specialize (H x (or_introl eq_refl)). congruence.
Qed.

(** The value of the mask at a pixel: 1 when exactly four channels exceed
    the minimum, 0 otherwise. *)
Lemma nonzero_mask_pixel (images : ImageClass) (imin : Q) (n h w c : nat) :
  px (amap (fun s => b2q (Qeq_bool s 4) * 1)
        (reduce_channels Qsum (amap (fun v => b2q (Qltb (imin * 1) v)) images))) n h w c =
  b2q (Nat.eqb (List.length (channels_exceeding images imin n h w)) 4).
Proof.
  cbn [px amap reduce_channels dimC]. rewrite b2q_times_1. f_equal.
  unfold channels_exceeding.
  assert (E : Qsum (map (fun c0 => b2q (Qltb (imin * 1) (px images n h w c0)))
                        (seq 0 (dimC images))) ==
              inject_Z (Z.of_nat (List.length
                (filter (fun c0 => Qltb imin (px images n h w c0)) (seq 0 (dimC images)))))).
  { rewrite (Qsum_indicator (fun c0 => Qltb (imin * 1) (px images n h w c0))).
    rewrite (filter_ext (fun c0 => Qltb (imin * 1) (px images n h w c0))
                        (fun c0 => Qltb imin (px images n h w c0))); [reflexivity|].
    intro c0. apply Qltb_proper; [ring | reflexivity]. }
  rewrite (Qeqb_comp _ _ E 4 4 (Qeq_refl 4)).
  set (k := List.length _).
  destruct (Nat.eqb_spec k 4) as [-> | Hne]; [reflexivity|].
  destruct (Qeq_bool (inject_Z (Z.of_nat k)) 4) eqn:Eb; [|reflexivity].
  apply Qeq_bool_iff in Eb. exfalso. apply Hne.
  unfold Qeq in Eb. cbn in Eb. lia.
Qed.

Lemma container_eqb_refl (k : container) : container_eqb k k = true.
Proof. now destruct k. Qed.

(** C5 (as amended). On an image batch and a score batch of the same type
    and the same batch and spatial extents, none of them empty, the mask has
    one channel and the batch and spatial extents of the image, its values
    are 0 or 1, and it is 1 at a pixel exactly when exactly four channels of
    the image exceed the global minimum of the image batch there; for an
    image of four channels that is: when all channels do.  The score keeps
    its value where the mask is 1 and becomes the global minimum of the score
    batch where the mask is 0. *)
Theorem nonzero_masking_correct (images targets : ImageClass) :
  kind images = kind targets ->
  dimN images = dimN targets -> dimH images = dimH targets -> dimW images = dimW targets ->
  (0 < dimN images)%nat -> (0 < dimH images)%nat -> (0 < dimW images)%nat ->
  (0 < dimC images)%nat -> (0 < dimC targets)%nat ->
  exists imin tmin targets' mask,
    amin images = Ok imin /\ amin targets = Ok tmin /\
    nonzero_masking images targets true = Ok (targets', Some mask) /\
    nonzero_masking images targets false = Ok (targets', None) /\
    shape mask = (dimN images, dimH images, dimW images, 1%nat) /\
    shape targets' = shape targets /\
    forall n h w,
      (n < dimN images)%nat -> (h < dimH images)%nat -> (w < dimW images)%nat ->
      (px mask n h w 0 = 1 \/ px mask n h w 0 = 0) /\
      (px mask n h w 0 = 1 <->
       List.length (channels_exceeding images imin n h w) = 4%nat) /\
      (dimC images = 4%nat ->
       (px mask n h w 0 = 1 <->
        forall c, (c < dimC images)%nat -> imin < px images n h w c)) /\
      forall c, (c < dimC targets)%nat ->
        (px mask n h w 0 = 1 -> px targets' n h w c == px targets n h w c) /\
        (px mask n h w 0 = 0 -> px targets' n h w c == tmin).
Proof.
  intros Hk HN HH HW HN0 HH0 HW0 HC0 HCt0.
  destruct (amin_defined images HN0 HH0 HW0 HC0) as [imin Himin].
  assert (Htdef : exists tmin, amin targets = Ok tmin)
    by (apply amin_defined; lia).
  destruct Htdef as [tmin Htmin].
  set (mask := amap (fun s => b2q (Qeq_bool s 4) * 1)
                 (reduce_channels Qsum (amap (fun v => b2q (Qltb (imin * 1) v)) images))).
  destruct (broadcast2_one_channel Qmult targets mask)
    as [fg [Hfg [Hfgk [Hfgs Hfgp]]]]; try (cbn; congruence).
  inversion Hfgs as [[HfN HfH HfW HfC]].
  destruct (broadcast2_one_channel Qplus fg (amap (fun m => tmin * (1 - m)) mask))
    as [t' [Ht' [Htk [Hts Htp]]]]; try (cbn; congruence).
  exists imin, tmin, t', mask.
  assert (Hrun : forall flag,
            nonzero_masking images targets flag =
            Ok (t', if flag then Some mask else None)).
  { intro flag. unfold nonzero_masking.
    rewrite Hk, container_eqb_refl, HH, HW, !Nat.eqb_refl. cbn [negb andb].
    rewrite Himin. cbn [rbind]. fold mask. rewrite Hfg. cbn [rbind].
    rewrite Htmin. cbn [rbind]. rewrite Ht'. reflexivity. }
  split; [exact Himin|]. split; [exact Htmin|].
  split; [exact (Hrun true)|]. split; [exact (Hrun false)|].
  split; [reflexivity|]. split; [congruence|].
  intros n h w Hn Hh Hw.
  assert (Hmask : px mask n h w 0 =
                  b2q (Nat.eqb (List.length (channels_exceeding images imin n h w)) 4))
    by apply nonzero_mask_pixel.
  split; [rewrite Hmask; apply b2q_cases|].
  split; [rewrite Hmask, b2q_one; apply Nat.eqb_eq|].
  split.
  - intro HC4. rewrite Hmask, b2q_one, Nat.eqb_eq. unfold channels_exceeding.
    assert (E : forall k : nat,
               k = 4%nat <-> k = List.length (seq 0 (dimC images)))
      by (intro k; rewrite length_seq; lia).
    rewrite E, filter_all_length. split.
    + intros H c Hc. apply Qltb_lt. apply H. apply in_seq. lia.
    + intros H c Hc. apply Qltb_lt. apply H. apply in_seq in Hc. lia.
  - intros c Hc.
    assert (Hin : in_bounds targets n h w c) by (unfold in_bounds; lia).
    assert (Hin' : in_bounds fg n h w c) by (unfold in_bounds; lia).
    rewrite (Htp n h w c Hin'), (Hfgp n h w c Hin). cbn [px amap] in *.
    split; intro Hv; rewrite Hv; ring.
Qed.

Lemma nonzero_masking_correct_witness :
  exists targets' mask,
    nonzero_masking four_channel_example two_scores_example true = Ok (targets', Some mask) /\
    to_rows mask = [[1; 0]] /\ to_rows targets' = [[7; 5]].
Proof.
  destruct (nonzero_masking_correct four_channel_example two_scores_example)
    as [imin [tmin [t' [m [_ [_ [H _]]]]]]];
    try reflexivity; try (cbn; lia).
  exists t', m. split; [exact H|].
  assert (F : match nonzero_masking four_channel_example two_scores_example true with
              | Ok (t, Some k) => to_rows k = [[1; 0]] /\ to_rows t = [[7; 5]]
              | _ => False
              end) by (vm_compute; split; reflexivity).
  rewrite H in F. exact F.
Defined.

(** C5 (the claim as stated fails). In an image of three channels, all
    three channels of the first pixel exceed the global minimum 0, and still
    the mask is 0 there and the score 7 of that pixel is replaced by the
    minimum 5. *)
Lemma nonzero_masking_counts_four_channels :
  amin three_channel_example = Ok 0 /\
  dimC three_channel_example = 3%nat /\
  0 < px three_channel_example 0 0 0 0 /\
  0 < px three_channel_example 0 0 0 1 /\
  0 < px three_channel_example 0 0 0 2 /\
  match nonzero_masking three_channel_example two_scores_example true with
  | Ok (targets', Some mask) =>
      px mask 0 0 0 0 = 0 /\ to_rows two_scores_example = [[7; 5]] /\
      to_rows targets' = [[5; 5]]
  | _ => False
  end.
Proof. vm_compute. repeat split; reflexivity. Qed.

(** ** The anomaly score map *)

Lemma abs_diff_scaled (g i : Q) :
  Qabs (g * 1 / 255 - i * 1 / 255) == Qabs (i / 255 - g / 255).
Proof.
  rewrite Qabs_Qminus. apply Qabs_wd. field.
Qed.

Lemma split_sample_more_channels (data : ImageClass) :
  (0 < dimN data)%nat -> (10 <= dimC data)%nat ->
  split_sample data = Raise (ValueError "operands could not be broadcast together").
Proof.
  intros HN HC. unfold split_sample.
  destruct (Nat.eqb_spec (dimN data) 0) as [E|_]; [lia|].
  destruct (Nat.ltb_spec 4 (dimC data)) as [_|E]; [|lia].
  cbn [negb]. unfold broadcast2. cbn [dimN dimH dimW dimC amap slice_channels].
  rewrite !bdim_same.
  replace (Nat.min 4 (dimC data) - 0)%nat with 4%nat by lia.
  replace (Nat.min (dimC data) (dimC data) - 5)%nat with (dimC data - 5)%nat by lia.
  unfold bdim.
  destruct (Nat.eqb_spec (dimC data - 5) 4) as [E|_]; [lia|].
  destruct (Nat.eqb_spec (dimC data - 5) 1) as [E|_]; [lia|].
  reflexivity.
Qed.

(** C7 (as amended). For a loaded array of shape (1, H, W, 9) the score map
    has shape (1, H, W, 1) and its value at a pixel is the mean over the four
    modalities of the absolute difference between the input channels [0:4)
    and the generated channels [5:9), both divided by 255.  The generated
    slice is [5:], not [5:9): with ten channels or more the subtraction of
    the two slices raises. *)
Theorem score_map_correct (data : ImageClass) :
  (dimN data = 1%nat -> dimC data = 9%nat ->
   exists img seg pred,
     split_sample data = Ok (img, seg, pred) /\
     shape img = (1%nat, dimH data, dimW data, 4%nat) /\
     shape pred = (1%nat, dimH data, dimW data, 1%nat) /\
     forall h w, (h < dimH data)%nat -> (w < dimW data)%nat ->
       px pred 0 h w 0 == anomaly_score data h w) /\
  (dimN data = 1%nat -> (10 <= dimC data)%nat ->
   split_sample data = Raise (ValueError "operands could not be broadcast together")).
Proof.
  split.
  - intros HN HC. unfold split_sample. rewrite HN, HC. cbn [Nat.eqb Nat.ltb Nat.leb negb].
    unfold broadcast2. cbn [dimN dimH dimW dimC amap slice_channels].
    rewrite HC, !bdim_same. cbn [Nat.min Nat.sub bdim Nat.eqb rbind].
    eexists _, _, _. split; [reflexivity|].
    split; [unfold shape; cbn [dimN dimH dimW dimC amap slice_channels];
            rewrite HC; reflexivity|].
    split; [reflexivity|].
    intros h w Hh Hw.
    cbn [px reduce_channels amap dimC seq map].
    rewrite !(bidx_in_range (dimH data)), !(bidx_in_range (dimW data)) by assumption.
    unfold anomaly_score, mean_list, sqrt_of_square, Qsum.
    cbn [bidx Nat.eqb Nat.add List.length map seq fold_right].
    rewrite !abs_diff_scaled. reflexivity.
  - intros HN HC. apply split_sample_more_channels; lia.
Qed.

Lemma score_map_correct_witness :
  (exists img seg pred,
     split_sample nine_channel_example = Ok (img, seg, pred) /\
     map (map Qred) (to_rows pred) = [[3 # 5]]) /\
  split_sample ten_channel_example =
    Raise (ValueError "operands could not be broadcast together").
Proof.
  split.
  - destruct (proj1 (score_map_correct nine_channel_example) eq_refl eq_refl)
      as [img [seg [pred [H _]]]].
    exists img, seg, pred. split; [exact H|].
    assert (F : match split_sample nine_channel_example with
                | Ok (_, _, p) => map (map Qred) (to_rows p) = [[3 # 5]]
                | Raise _ => False
                end) by (vm_compute; reflexivity).
    rewrite H in F. exact F.
  - apply (proj2 (score_map_correct ten_channel_example)); [reflexivity | cbn; lia].
Defined.

(** C7 (the claim as stated fails). A loaded array of shape (1, 1, 1, 10)
    has at least nine channels, and no score map is computed for it. *)
Lemma score_map_ten_channels :
  shape ten_channel_example = (1, 1, 1, 10)%nat /\
  (9 <= dimC ten_channel_example)%nat /\
  split_sample ten_channel_example =
    Raise (ValueError "operands could not be broadcast together").
Proof. split; [reflexivity|]. split; [cbn; lia | reflexivity]. Qed.

(** ** Otsu's search *)

Lemma otsu_skip_proper (q q' : Q) : q == q' -> otsu_skip q = otsu_skip q'.
Proof.
  intro H. unfold otsu_skip. cbv zeta.
  f_equal; apply Qltb_proper; try reflexivity; rewrite H; reflexivity.
Qed.

Lemma otsu_sigma_proper (mu q q' m m' : Q) :
  q == q' -> m == m' -> otsu_sigma mu q m == otsu_sigma mu q' m'.
Proof. intros Hq Hm. unfold otsu_sigma. cbv zeta. rewrite Hq, Hm. reflexivity. Qed.

Lemma otsu_skip_at_0 (q : Q) : q == 0 -> otsu_skip q = true.
Proof. intro H. rewrite (otsu_skip_proper q 0 H). reflexivity. Qed.

Lemma otsu_skip_at_1 (q : Q) : q == 1 -> otsu_skip q = true.
Proof. intro H. rewrite (otsu_skip_proper q 1 H). reflexivity. Qed.

Lemma otsu_step_max_val (h : Z -> Z) (mu scale : Q) (st : otsu_state) (i : Z) :
  max_val (otsu_step h mu scale st i) = max_val st \/
  max_val (otsu_step h mu scale st i) = i.
Proof.
  unfold otsu_step. cbv zeta.
  destruct (otsu_skip _); [now left|].
  destruct (Qltb _ _); [now right | now left].
Qed.

Lemma otsu_step_inv (h : Z -> Z) (mu scale : Q) (st : otsu_state) (i : Z) :
  otsu_inv mu (otsu_step h mu scale st i).
Proof.
  unfold otsu_step, otsu_inv. cbv zeta.
  destruct (otsu_skip (Qred (q1 st + inject_Z (h i) * scale))) eqn:Es.
  - left. exact Es.
  - match goal with |- context [Qltb ?a ?b] => destruct (Qltb a b) eqn:El end;
      right; cbn [q1 mu1 max_sigma].
    + apply Qle_lteq. right. symmetry. apply Qred_correct.
    + apply Qltb_ge in El. eapply Qle_trans; [|exact El].
      apply Qle_lteq. right. symmetry. apply Qred_correct.
Qed.

Lemma otsu_step_skipped (h : Z -> Z) (mu scale : Q) (st : otsu_state) (i : Z) :
  otsu_skip (Qred (q1 st + inject_Z (h i) * scale)) = true ->
  max_val (otsu_step h mu scale st i) = max_val st.
Proof. intro H. unfold otsu_step. cbv zeta. now rewrite H. Qed.

Lemma otsu_step_q1 (h : Z -> Z) (mu scale : Q) (st : otsu_state) (i : Z) :
  q1 (otsu_step h mu scale st i) == q1 st + inject_Z (h i) * scale.
Proof.
  unfold otsu_step. cbv zeta.
  destruct (otsu_skip _); [|destruct (Qltb _ _)]; cbn [q1]; apply Qred_correct.
Qed.

Lemma not_skip_nonzero (q : Q) : otsu_skip q = false -> ~ q == 0.
Proof. intros H E. rewrite (otsu_skip_at_0 q E) in H. discriminate. Qed.

(** An empty bin changes neither the best level nor the best variance. *)
Lemma otsu_step_zero_bin (h : Z -> Z) (mu scale : Q) (st : otsu_state) (i : Z) :
  h i = 0%Z -> otsu_inv mu st ->
  max_val (otsu_step h mu scale st i) = max_val st.
Proof.
  intros Hz Hinv.
  assert (Hq : Qred (q1 st + inject_Z (h i) * scale) == q1 st)
    by (rewrite Qred_correct, Hz; change (inject_Z 0) with 0; ring).
  unfold otsu_step. cbv zeta.
  rewrite (otsu_skip_proper _ _ Hq).
  destruct (otsu_skip (q1 st)) eqn:Es; [reflexivity|].
  destruct Hinv as [Hs | Hle]; [congruence|].
  match goal with |- context [Qltb ?a ?b] => destruct (Qltb a b) eqn:El end;
    [|reflexivity].
  exfalso. apply Qltb_lt in El. apply (Qlt_not_le _ _ El).
  eapply Qle_trans; [apply Qle_lteq; right; apply Qred_correct|].
  assert (Hm : Qred ((mu1 st * q1 st + inject_Z i * (inject_Z (h i) * scale)) /
                     Qred (q1 st + inject_Z (h i) * scale)) == mu1 st).
  { rewrite Qred_correct, Hq, Hz. change (inject_Z 0) with 0.
    field. now apply not_skip_nonzero. }
  rewrite (otsu_sigma_proper mu _ _ _ _ Hq Hm). exact Hle.
Qed.

Lemma otsu_fold_zero_bins (h : Z -> Z) (mu scale : Q) (l : list Z) :
  Forall (fun i => h i = 0%Z) l ->
  forall st, otsu_inv mu st ->
    max_val (fold_left (otsu_step h mu scale) l st) = max_val st /\
    q1 (fold_left (otsu_step h mu scale) l st) == q1 st /\
    otsu_inv mu (fold_left (otsu_step h mu scale) l st).
Proof.
  induction 1 as [|i l Hi Hl IH]; intros st Hinv; cbn [fold_left].
  - split; [reflexivity|]. split; [reflexivity | exact Hinv].
  - destruct (IH (otsu_step h mu scale st i) (otsu_step_inv h mu scale st i))
      as [Hv [Hq Hi']].
    split; [rewrite Hv; now apply otsu_step_zero_bin|].
    split; [|exact Hi'].
    rewrite Hq, otsu_step_q1, Hi. change (inject_Z 0) with 0. ring.
Qed.

(** The level found is one of the 256 levels. *)
Lemma otsu_fold_range (h : Z -> Z) (mu scale : Q) (l : list Z) :
  Forall (fun i => (0 <= i <= 255)%Z) l ->
  forall st, (0 <= max_val st <= 255)%Z ->
    (0 <= max_val (fold_left (otsu_step h mu scale) l st) <= 255)%Z.
Proof.
  induction 1 as [|i l Hi Hl IH]; intros st Hst; cbn [fold_left]; [exact Hst|].
  apply IH. destruct (otsu_step_max_val h mu scale st i) as [-> | ->]; assumption.
Qed.

Lemma levels_range : Forall (fun i => (0 <= i <= 255)%Z) levels.
Proof.
  unfold levels. apply Forall_forall. intros i Hi.
  apply in_map_iff in Hi. destruct Hi as [k [<- Hk]]. apply in_seq in Hk. lia.
Qed.

Lemma getThreshVal_Otsu_8u_range (src : list Z) :
  (0 <= getThreshVal_Otsu_8u src <= 255)%Z.
Proof.
  unfold getThreshVal_Otsu_8u. apply otsu_fold_range; [apply levels_range|].
  cbn. lia.
Qed.

(** *** Two-valued data *)

Lemma histogram_two_valued (src : list Z) :
  Forall (fun v => v = 0 \/ v = 255)%Z src ->
  (forall i, i <> 0%Z -> i <> 255%Z -> histogram src i = 0%Z) /\
  (histogram src 0 + histogram src 255 = Z.of_nat (List.length src))%Z.
Proof.
  unfold histogram.
  induction 1 as [|v src Hv Hsrc [IH1 IH2]]; [split; reflexivity|].
  split.
  - intros i H0 H255. rewrite count_occ_cons_neq by (destruct Hv; subst; congruence).
    now apply IH1.
  - cbn [List.length]. destruct Hv as [-> | ->].
    + rewrite count_occ_cons_eq by reflexivity.
      rewrite (count_occ_cons_neq _ src (x := 0%Z) (y := 255%Z)) by discriminate. lia.
    + rewrite (count_occ_cons_neq _ src (x := 255%Z) (y := 0%Z)) by discriminate.
      rewrite count_occ_cons_eq by reflexivity. lia.
Qed.

Lemma levels_split : levels = 0%Z :: map Z.of_nat (seq 1 254) ++ [255%Z].
Proof. reflexivity. Qed.

Lemma otsu_fold_two_valued (h : Z -> Z) (mu scale : Q) (mid : list Z) (n : nat) :
  Forall (fun i => h i = 0%Z) mid ->
  (h 0 + h 255 = Z.of_nat n)%Z ->
  scale = 1 / inject_Z (Z.of_nat n) ->
  max_val (fold_left (otsu_step h mu scale) (0%Z :: mid ++ [255%Z]) otsu_init) = 0%Z.
Proof.
  intros Hzero Htot Hscale.
  cbn [fold_left]. rewrite fold_left_app. cbn [fold_left].
  pose proof (otsu_step_inv h mu scale otsu_init 0) as Hinv0.
  assert (Hv0 : max_val (otsu_step h mu scale otsu_init 0) = 0%Z)
    by (destruct (otsu_step_max_val h mu scale otsu_init 0) as [E | E]; exact E).
  assert (Hq0 : q1 (otsu_step h mu scale otsu_init 0) == inject_Z (h 0%Z) * scale)
    by (rewrite otsu_step_q1; cbn [q1 otsu_init]; ring).
  revert Hinv0 Hv0 Hq0. generalize (otsu_step h mu scale otsu_init 0). intros st0 Hinv0 Hv0 Hq0.
  destruct (otsu_fold_zero_bins h mu scale mid Hzero st0 Hinv0) as [Hv1 [Hq1 _]].
  revert Hv1 Hq1. generalize (fold_left (otsu_step h mu scale) mid st0). intros st1 Hv1 Hq1.
  rewrite otsu_step_skipped; [congruence|].
  assert (Hq : Qred (q1 st1 + inject_Z (h 255%Z) * scale) == inject_Z (Z.of_nat n) * scale).
  { rewrite Qred_correct, Hq1, Hq0, <- Htot, inject_Z_plus. ring. }
  destruct n as [|n].
  - apply otsu_skip_at_0. rewrite Hq, Hscale. reflexivity.
  - apply otsu_skip_at_1. rewrite Hq, Hscale. field.
    intro E. unfold Qeq in E. cbn in E. lia.
Qed.

(** On data that only has the levels 0 and 255 the search returns 0. *)
Lemma otsu_two_valued (src : list Z) :
  Forall (fun v => v = 0 \/ v = 255)%Z src -> getThreshVal_Otsu_8u src = 0%Z.
Proof.
  intro Hsrc. destruct (histogram_two_valued src Hsrc) as [Hmid Htot].
  unfold getThreshVal_Otsu_8u. rewrite levels_split.
  apply (otsu_fold_two_valued _ _ _ _ (List.length src)).
  - apply Forall_forall. intros i Hi. apply in_map_iff in Hi.
    destruct Hi as [k [<- Hk]]. apply in_seq in Hk. apply Hmid; lia.
  - exact Htot.
  - reflexivity.
Qed.

(** ** The threshold selector *)

Lemma in_boundsb_iff (a : ImageClass) (n h w c : nat) :
  in_boundsb a (n, h, w, c) = true <-> in_bounds a n h w c.
Proof.
  unfold in_boundsb, in_bounds. rewrite !andb_true_iff, !Nat.ltb_lt. tauto.
Qed.

Lemma take_where_same_shape (pred mask : ImageClass) :
  shape mask = shape pred ->
  take_where pred mask =
  Ok (map (at_index pred) (filter (fun i => Qltb 0 (at_index mask i)) (indices pred))).
Proof.
  intro Hs. inversion Hs as [[HN HH HW HC]]. unfold take_where.
  assert (Hidx : indices mask = indices pred) by (unfold indices; congruence).
  rewrite Hidx.
  replace (forallb (in_boundsb pred)
             (filter (fun i => Qltb 0 (at_index mask i)) (indices pred))) with true;
    [reflexivity|].
  symmetry. apply forallb_forall. intros [[[n h] w] c] Hin.
  apply filter_In in Hin. destruct Hin as [Hin _].
  apply in_boundsb_iff. exact (proj1 (in_indices4 _ _ _ _ n h w c) Hin).
Qed.

Lemma take_where_amap (f : Q -> Q) (pred mask : ImageClass) (sel : list Q) :
  take_where pred mask = Ok sel ->
  take_where (amap f pred) mask = Ok (map f sel).
Proof.
  unfold take_where.
  change (in_boundsb (amap f pred)) with (in_boundsb pred).
  destruct (forallb (in_boundsb pred) _); [|discriminate].
  intro H. inversion H. rewrite map_map. f_equal.
  apply map_ext. now intros [[[n h] w] c].
Qed.

Lemma astype_uint8_range (x : Q) : (0 <= astype_uint8 x <= 255)%Z.
Proof.
  unfold astype_uint8.
  pose proof (Z.mod_pos_bound (Z.quot (Qnum x) (Zpos (Qden x))) 256). lia.
Qed.

Lemma scaled_level_range (z : Z) :
  (0 <= z <= 255)%Z -> 0 <= inject_Z z / 255 /\ inject_Z z / 255 <= 1.
Proof.
  intro H. unfold Qle, Qdiv, Qmult, Qinv, inject_Z. cbn. lia.
Qed.

(** C8. When the selector has produced a threshold and a binary map, running
    it on that binary map with the same mask succeeds, returns the threshold
    0, and returns the same binary map again; the binary map has the values
    0 and 1 only. *)
Theorem otsu_selection_idempotent (pred mask : ImageClass) (t : Q) (b : ImageClass) :
  finding_threshold.mask_fn pred mask true = Ok (Some t, b) ->
  (forall n h w c, px b n h w c = 1 \/ px b n h w c = 0) /\
  exists t' b',
    finding_threshold.mask_fn b mask true = Ok (Some t', b') /\
    t' == 0 /\ same_array b' b.
Proof.
  intro H. pose proof (finding_mask_fn_pixel _ _ _ _ H) as Hpx.
  split; [intros; rewrite Hpx; apply b2q_cases|].
  apply finding_mask_fn_inv in H. destruct H as [sel [Hsel [_ Hb]]].
  cbv zeta in Hb. subst b.
  unfold finding_threshold.mask_fn.
  rewrite (take_where_amap _ _ _ _ Hsel). cbn [rbind].
  rewrite otsu_two_valued.
  - eexists _, _. split; [reflexivity|]. split; [reflexivity|].
    split; [reflexivity|]. split; [reflexivity|].
    intros n h w c. cbn [px amap].
    match goal with |- context [Qltb ?a (px pred n h w c)] =>
      destruct (Qltb a (px pred n h w c)) end; reflexivity.
  - rewrite map_map. apply Forall_forall. intros z Hz.
    apply in_map_iff in Hz. destruct Hz as [v [<- _]].
    destruct (Qltb _ v); [right | left]; reflexivity.
Qed.

Lemma otsu_selection_idempotent_witness :
  exists t' b',
    finding_threshold.mask_fn
      (amap (fun v => b2q (Qltb (25 # 255) v) * 1) score_map_example)
      ones_mask_example true = Ok (Some t', b') /\
    t' == 0 /\
    same_array b' (amap (fun v => b2q (Qltb (25 # 255) v) * 1) score_map_example).
Proof.
  exact (proj2 (otsu_selection_idempotent score_map_example ones_mask_example
                  (25 # 255) _ eq_refl)).
Defined.

(** C2 (as amended). Given a score map and a mask of the same shape, the
    selector takes the scores at the positions where the mask is positive,
    turns them into integers 0..255, runs Otsu's search on them, divides the
    level found by 255, which gives a threshold between 0 and 1, and marks
    in the whole score map the pixels strictly above that threshold; with
    [return_thresh] it returns the pair (threshold, binary map), without it
    the binary map alone.  For the score map [[0.9,0.9],[0.1,0.1]] and the
    all-ones mask the integers are 229, 229, 25, 25, the search returns 25,
    the threshold is 25/255, below 0.1, and the binary map is
    [[1,1],[1,1]]. *)
Theorem threshold_selector_correct :
  (forall pred mask : ImageClass,
     shape mask = shape pred ->
     exists sel t b,
       take_where pred mask = Ok sel /\
       sel = map (at_index pred)
               (filter (fun i => Qltb 0 (at_index mask i)) (indices pred)) /\
       Forall (fun z => 0 <= z <= 255)%Z (map (fun v => astype_uint8 (v * 255)) sel) /\
       t = inject_Z (getThreshVal_Otsu_8u (map (fun v => astype_uint8 (v * 255)) sel)) / 255 /\
       0 <= t /\ t <= 1 /\
       finding_threshold.mask_fn pred mask true = Ok (Some t, b) /\
       finding_threshold.mask_fn pred mask false = Ok (None, b) /\
       kind b = kind pred /\ shape b = shape pred /\
       forall n h w c,
         (px b n h w c = 1 \/ px b n h w c = 0) /\
         (px b n h w c = 1 <-> t < px pred n h w c)) /\
  (exists t b,
     finding_threshold.mask_fn score_map_example ones_mask_example true = Ok (Some t, b) /\
     map (fun v => astype_uint8 (v * 255)) (flatten score_map_example) =
       [229; 229; 25; 25]%Z /\
     getThreshVal_Otsu_8u [229; 229; 25; 25]%Z = 25%Z /\
     t == 25 / 255 /\ t < 1 / 10 /\
     to_rows b = [[1; 1]; [1; 1]]).
Proof.
  split.
  - intros pred mask Hs.
    pose proof (take_where_same_shape pred mask Hs) as Hsel.
    eexists _, _, _. split; [exact Hsel|]. split; [reflexivity|].
    split.
    { apply Forall_forall. intros z Hz. apply in_map_iff in Hz.
      destruct Hz as [v [<- _]]. apply astype_uint8_range. }
    split; [reflexivity|].
    split; [apply scaled_level_range, getThreshVal_Otsu_8u_range|].
    split; [apply scaled_level_range, getThreshVal_Otsu_8u_range|].
    unfold finding_threshold.mask_fn. rewrite Hsel. cbn [rbind].
    split; [reflexivity|]. split; [reflexivity|].
    split; [reflexivity|]. split; [reflexivity|].
    intros n h w c. cbn [px amap]. rewrite b2q_times_1.
    split; [apply b2q_cases|]. rewrite b2q_one. apply Qltb_lt.
  - eexists _, _. split; [vm_compute; reflexivity|].
    split; [vm_compute; reflexivity|]. split; [vm_compute; reflexivity|].
    split; [reflexivity|]. split; [reflexivity|]. vm_compute. reflexivity.
Qed.

Lemma threshold_selector_correct_witness :
  exists t b,
    finding_threshold.mask_fn score_map_example ones_mask_example true = Ok (Some t, b) /\
    0 <= t /\ t <= 1.
Proof.
  destruct (proj1 threshold_selector_correct score_map_example ones_mask_example eq_refl)
    as [sel [t [b [_ [_ [_ [_ [H0 [H1 [H _]]]]]]]]]].
  exists t, b. auto.
Defined.

(** C2 (the claim as stated fails). For the score map
    [[0.9,0.9],[0.1,0.1]] and the all-ones mask the threshold returned is
    25/255: it does not lie strictly between 0.1 and 0.9, and the binary map
    is [[1,1],[1,1]], not [[1,1],[0,0]]. *)
Lemma threshold_example_not_between :
  exists t b,
    finding_threshold.mask_fn score_map_example ones_mask_example true = Ok (Some t, b) /\
    t == 25 / 255 /\
    ~ (1 / 10 < t /\ t < 9 / 10) /\
    to_rows b = [[1; 1]; [1; 1]] /\
    to_rows b <> [[1; 1]; [0; 0]].
Proof.
  eexists _, _. split; [vm_compute; reflexivity|].
  split; [reflexivity|].
  split; [intros [H _]; revert H; apply Qle_not_lt; discriminate|].
  split; [vm_compute; reflexivity | vm_compute; discriminate].
Qed.

(** ** Dictionaries *)

Section dict_facts.
Context {V : Type}.
Implicit Types (d : list (string * V)) (k : string) (v : V).

Lemma dict_get_set_same k v d : dict_get k (dict_set k v d) = Some v.
Proof.
  induction d as [|[k' v'] d IH]; cbn [dict_set dict_get].
  - now rewrite String.eqb_refl.
  - destruct (String.eqb k k') eqn:E; cbn [dict_get]; rewrite ?String.eqb_refl, ?E; auto.
Qed.

Lemma dict_get_set_other k k' v d :
  k <> k' -> dict_get k (dict_set k' v d) = dict_get k d.
Proof.
  intro Hne. apply String.eqb_neq in Hne.
  induction d as [|[k'' v''] d IH]; cbn [dict_set dict_get].
  - now rewrite Hne.
  - destruct (String.eqb k' k'') eqn:E; cbn [dict_get].
    + apply String.eqb_eq in E. subst k''. now rewrite Hne.
    + destruct (String.eqb k k''); auto.
Qed.

Lemma dict_get_set_present k k' v d :
  dict_get k d <> None -> dict_get k (dict_set k' v d) <> None.
Proof.
  intro H. destruct (string_dec k k') as [-> | Hne].
  - rewrite dict_get_set_same. discriminate.
  - now rewrite dict_get_set_other.
Qed.

Lemma dict_keys_set k k' v d :
  In k (dict_keys (dict_set k' v d)) -> k = k' \/ In k (dict_keys d).
Proof.
  unfold dict_keys.
  induction d as [|[k'' v''] d IH]; cbn [dict_set map fst In].
  - intros [H | []]. now left.
  - destruct (String.eqb k' k'') eqn:E; cbn [map fst In].
    + intros [H | H]; [now left | now right; right].
    + intros [H | H]; [now right; left|].
      destruct (IH H) as [H' | H']; [now left | now right; right].
Qed.
End dict_facts.

Lemma empty_lists_keys {V : Type} (ms : list (string * V)) (k : string) :
  In k (dict_keys (empty_lists ms)) -> In k (dict_keys ms).
Proof.
  unfold empty_lists.
  assert (G : forall acc : list (string * list cell),
             In k (dict_keys (fold_left (fun d kv => dict_set (fst kv) [] d) ms acc)) ->
             In k (dict_keys ms) \/ In k (dict_keys acc)).
  { induction ms as [|[k' v'] ms IH]; intros acc H; cbn [fold_left] in H.
    - now right.
    - destruct (IH _ H) as [H' | H']; [left; now right|].
      apply dict_keys_set in H'. destruct H' as [-> | H']; [left; now left | now right]. }
  intro H. destruct (G [] H) as [H' | []]. exact H'.
Qed.

Lemma eval_metrics_keys (ms : list (string * metric_fn)) (seg pred : ImageClass) :
  forall acc m,
    eval_metrics ms seg pred acc = Ok m ->
    forall k, In k (dict_keys ms) \/ dict_get k acc <> None -> dict_get k m <> None.
Proof.
  induction ms as [|[k' fn] ms IH]; intros acc m H k Hk; cbn [eval_metrics] in H.
  - inversion H. subst m. destruct Hk as [[] | Hk]. exact Hk.
  - destruct (fn seg pred) as [v|e]; cbn [rbind] in H; [|discriminate].
    apply (IH _ _ H). destruct Hk as [[Hk | Hk] | Hk].
    + right. cbn [fst] in Hk. subst k'. rewrite dict_get_set_same. discriminate.
    + now left.
    + right. now apply dict_get_set_present.
Qed.

Lemma append_all_ok (mi : list (string * list cell)) (m : list (string * cell)) :
  (forall key, In key (dict_keys mi) -> dict_get key m <> None) ->
  append_all mi m = Ok (map (fun kv => (fst kv, snd kv ++ column (fst kv) [m])) mi).
Proof.
  induction mi as [|[key l] mi IH]; intro H; cbn [append_all map]; [reflexivity|].
  unfold dict_item. cbn [fst snd column flat_map].
  destruct (dict_get key m) as [c|] eqn:E.
  - cbn [rbind]. rewrite IH by (intros k Hk; apply H; now right).
    cbn [rbind]. now rewrite app_nil_r.
  - exfalso. apply (H key); [now left | exact E].
Qed.

Lemma column_app (key : string) (a b : list (list (string * cell))) :
  column key (a ++ b) = column key a ++ column key b.
Proof. unfold column. apply flat_map_app. Qed.

(** ** The evaluation loop *)

Lemma write_rows_cons (m : list (string * cell)) (ds : list (list (string * cell)))
    (w : world) :
  write_rows (m :: ds) w = write_rows ds (snd (writerow m w)).
Proof.
  destruct w as [f|]; cbn [write_rows writerow snd fieldnames rows closed map];
    [|reflexivity].
  unfold row_of. now rewrite <- app_assoc.
Qed.

Lemma write_rows_nil (w : world) : write_rows [] w = w.
Proof.
  destruct w as [[fs rs c]|]; cbn [write_rows map fieldnames rows closed]; [|reflexivity].
  now rewrite app_nil_r.
Qed.

Lemma kept_samples_cons (np_load : string -> result ImageClass) (self : BratsEvaluator)
    (f : string) (files : list string) (m : list (string * cell)) :
  sample_metrics np_load self f = Ok m ->
  kept_samples np_load self (f :: files) =
  (if sentinel_flagged m then [] else [m]) ++ kept_samples np_load self files.
Proof. intro H. unfold kept_samples. cbn [flat_map]. now rewrite H. Qed.

Lemma sample_metrics_keys (np_load : string -> result ImageClass) (self : BratsEvaluator)
    (f : string) (m : list (string * cell)) :
  sample_metrics np_load self f = Ok m ->
  forall key, In key (dict_keys (metrics self)) -> dict_get key m <> None.
Proof.
  unfold sample_metrics. intros H key Hkey.
  destruct (np_load _) as [data|]; cbn [rbind] in H; [|discriminate].
  destruct (split_sample data) as [[[img seg] pred]|]; cbn [rbind] in H; [|discriminate].
  destruct (nonzero_masking img pred false) as [masked|]; cbn [rbind] in H; [|discriminate].
  destruct (eval_metrics _ _ _ _) as [m0|] eqn:E; cbn [rbind] in H; [|discriminate].
  inversion H. apply dict_get_set_present.
  apply (eval_metrics_keys _ _ _ _ _ E). now left.
Qed.

Lemma map_append_nil (mi : list (string * list cell)) :
  map (fun kv => (fst kv, snd kv ++ column (fst kv) [])) mi = mi.
Proof.
  rewrite <- (map_id mi) at 2. apply map_ext. intros [k l]. cbn [fst snd column flat_map].
  now rewrite app_nil_r.
Qed.

Lemma map_append_twice (mi : list (string * list cell))
    (a b : list (list (string * cell))) :
  map (fun kv => (fst kv, snd kv ++ column (fst kv) b))
      (map (fun kv => (fst kv, snd kv ++ column (fst kv) a)) mi) =
  map (fun kv => (fst kv, snd kv ++ column (fst kv) (a ++ b))) mi.
Proof.
  rewrite map_map. apply map_ext. intros [k l]. cbn [fst snd].
  now rewrite <- app_assoc, <- column_app.
Qed.

(** The files evaluated without an exception at the head of the list are
    consumed one by one: the loop continues on the remaining files with the
    lists extended by the samples kept and their rows written. *)
Lemma evaluate_loop_app (np_load : string -> result ImageClass)
    (self : BratsEvaluator) (store_data : bool) :
  In "AUROC_WT"%string (dict_keys (metrics self)) ->
  forall pre,
    Forall (fun f => exists m, sample_metrics np_load self f = Ok m) pre ->
    forall rest mi w,
      (forall key, In key (dict_keys mi) -> In key (dict_keys (metrics self))) ->
      evaluate_loop np_load self store_data (pre ++ rest) mi w =
      evaluate_loop np_load self store_data rest
        (map (fun kv => (fst kv, snd kv ++ column (fst kv) (kept_samples np_load self pre))) mi)
        (if store_data then write_rows (kept_samples np_load self pre) w else w).
Proof.
  intros Hauroc pre Hpre.
  induction Hpre as [|f files [m Hm] Hrest IH]; intros rest mi w Hkeys.
  - cbn [app kept_samples flat_map]. rewrite map_append_nil, write_rows_nil.
    now destruct store_data.
  - rewrite (kept_samples_cons np_load self f files m Hm).
    pose proof Hm as Hm'. unfold sample_metrics in Hm'.
    destruct (np_load (path_join (data_folder self) f)) as [data|] eqn:Eload;
      cbn [rbind] in Hm'; [|discriminate].
    destruct (split_sample data) as [[[img seg] pred]|] eqn:Esplit;
      cbn [rbind] in Hm'; [|discriminate].
    destruct (nonzero_masking img pred false) as [masked|] eqn:Emask;
      cbn [rbind] in Hm'; [|discriminate].
    destruct (eval_metrics (metrics self) seg (fst masked) []) as [m0|] eqn:Eeval;
      cbn [rbind] in Hm'; [|discriminate].
    inversion Hm' as [Hm0]. clear Hm'.
    pose proof (sample_metrics_keys np_load self f m Hm) as Hpresent.
    cbn [app evaluate_loop]. unfold bind at 1, lift at 1. rewrite Eload.
    unfold bind at 1, lift at 1. rewrite Esplit.
    unfold bind at 1, lift at 1. rewrite Emask.
    unfold bind at 1, lift at 1. rewrite Eeval. rewrite Hm0.
    unfold bind at 1, lift at 1, dict_item, sentinel_flagged.
    destruct (dict_get "AUROC_WT" m) as [auroc|] eqn:Eauroc;
      [|exfalso; exact (Hpresent _ Hauroc Eauroc)].
    destruct (is_sentinel auroc).
    + cbn [app]. now apply IH.
    + assert (Happ := append_all_ok mi m (fun key Hk => Hpresent key (Hkeys key Hk))).
      assert (Hkeys' : forall key,
                 In key (dict_keys (map (fun kv => (fst kv, snd kv ++ column (fst kv) [m])) mi)) ->
                 In key (dict_keys (metrics self))).
      { intros key Hk. apply Hkeys. unfold dict_keys in *.
        rewrite map_map in Hk. exact Hk. }
      destruct store_data.
      * unfold bind at 1. destruct (writerow m w) as [r w'] eqn:Ew.
        assert (Hr : r = Ok tt) by (destruct w; cbn in Ew; inversion Ew; reflexivity).
        subst r. unfold bind at 1, lift at 1. rewrite Happ.
        rewrite (IH rest _ w' Hkeys'), map_append_twice.
        replace w' with (snd (writerow m w)) by now rewrite Ew.
        now rewrite <- write_rows_cons.
      * unfold bind at 1, ret at 1. unfold bind at 1, lift at 1. rewrite Happ.
        now rewrite (IH rest _ w Hkeys'), map_append_twice.
Qed.

Lemma evaluate_loop_spec (np_load : string -> result ImageClass)
    (self : BratsEvaluator) (store_data : bool) :
  In "AUROC_WT"%string (dict_keys (metrics self)) ->
  forall files,
    Forall (fun f => exists m, sample_metrics np_load self f = Ok m) files ->
    forall mi w,
      (forall key, In key (dict_keys mi) -> In key (dict_keys (metrics self))) ->
      evaluate_loop np_load self store_data files mi w =
      (Ok (map (fun kv => (fst kv, snd kv ++ column (fst kv) (kept_samples np_load self files)))
               mi),
       if store_data then write_rows (kept_samples np_load self files) w else w).
Proof.
  intros Hauroc files Hfiles mi w Hkeys.
  rewrite <- (app_nil_r files) at 1.
  now rewrite (evaluate_loop_app np_load self store_data Hauroc files Hfiles [] mi w Hkeys).
Qed.

Lemma kept_and_flagged (np_load : string -> result ImageClass) (self : BratsEvaluator)
    (files : list string) :
  Forall (fun f => exists m, sample_metrics np_load self f = Ok m) files ->
  (List.length (kept_samples np_load self files) +
   List.length (flagged_files np_load self files) = List.length files)%nat /\
  Forall (fun m => sentinel_flagged m = false) (kept_samples np_load self files) /\
  forall key, In key (dict_keys (metrics self)) ->
    List.length (column key (kept_samples np_load self files)) =
    List.length (kept_samples np_load self files).
Proof.
  induction 1 as [|f files [m Hm] Hrest [IH1 [IH2 IH3]]].
  - repeat split; auto.
  - rewrite (kept_samples_cons np_load self f files m Hm).
    unfold flagged_files in *. cbn [filter]. rewrite Hm.
    destruct (sentinel_flagged m) eqn:E; cbn [app List.length].
    + repeat split; [lia | exact IH2 | exact IH3].
    + split; [lia|]. split; [constructor; assumption|].
      intros key Hkey. unfold column in *. cbn [flat_map].
      destruct (dict_get key m) eqn:Eg;
        [|exfalso; exact (sample_metrics_keys _ _ _ _ Hm key Hkey Eg)].
      cbn [app List.length]. f_equal. now apply IH3.
Qed.

Lemma empty_lists_empty {V : Type} (ms : list (string * V)) :
  Forall (fun kv => snd kv = []) (empty_lists ms).
Proof.
  unfold empty_lists.
  assert (Hset : forall (k : string) (d : list (string * list cell)),
             Forall (fun kv => snd kv = []) d ->
             Forall (fun kv => snd kv = []) (dict_set k [] d)).
  { intros k d Hd. induction Hd as [|[k' l] d Hl Hd IH]; cbn [dict_set].
    - constructor; [reflexivity | constructor].
    - destruct (String.eqb k k'); constructor; auto. }
  assert (G : forall acc : list (string * list cell),
             Forall (fun kv => snd kv = []) acc ->
             Forall (fun kv => snd kv = [])
                    (fold_left (fun d kv => dict_set (fst kv) [] d) ms acc)).
  { induction ms as [|[k v] ms IH]; intros acc Hacc; cbn [fold_left]; auto. }
  apply G. constructor.
Qed.

(** C6. When every file of the directory is evaluated without an exception
    and [store_data] is set, the table written has one row for each sample
    that is not flagged by the sentinel, in the order of the files: N - k
    rows when k of the N samples are flagged, N rows when none is.  The
    list behind each (mean, std) aggregate is the column of that metric
    over the same N - k samples, none of which is flagged. *)
Theorem evaluate_images_row_count
    (np_load : string -> result ImageClass) (np_mean np_std : list cell -> Q)
    (self : BratsEvaluator) (output_dir : string) (w0 : world) :
  In "AUROC_WT"%string (dict_keys (metrics self)) ->
  Forall (fun f => exists m, sample_metrics np_load self f = Ok m) (data_files self) ->
  let N := List.length (data_files self) in
  let k := List.length (flagged_files np_load self (data_files self)) in
  let kept := kept_samples np_load self (data_files self) in
  exists agg csv,
    evaluate_images np_load np_mean np_std self output_dir true w0 = (Ok agg, Some csv) /\
    rows csv = map (row_of (fieldnames csv)) kept /\
    List.length (rows csv) = (N - k)%nat /\
    (k = 0%nat -> List.length (rows csv) = N) /\
    (k <= N)%nat /\
    Forall (fun m => sentinel_flagged m = false) kept /\
    agg = map (fun kv => (fst kv, (np_mean (column (fst kv) kept),
                                   np_std (column (fst kv) kept))))
              (empty_lists (metrics self)) /\
    forall key, In key (dict_keys (metrics self)) ->
      List.length (column key kept) = (N - k)%nat.
Proof.
  intros Hauroc Hfiles N k kept.
  destruct (kept_and_flagged np_load self (data_files self) Hfiles) as [Hlen [Hnot Hcol]].
  fold kept in Hlen, Hnot, Hcol. fold k in Hlen. fold N in Hlen.
  unfold evaluate_images. unfold bind at 1, open_csv at 1.
  unfold bind at 1.
  rewrite (evaluate_loop_spec np_load self true Hauroc (data_files self) Hfiles)
    by (intros key Hk; now apply empty_lists_keys).
  fold kept. cbn [write_rows fieldnames rows closed app].
  unfold bind at 1, close_csv at 1, ret. cbn [fieldnames rows closed].
  eexists _, _. split; [reflexivity|]. cbn [rows fieldnames].
  split; [reflexivity|].
  split; [rewrite length_map; lia|].
  split; [intro Hk; rewrite length_map; lia|].
  split; [lia|]. split; [exact Hnot|].
  split.
  - rewrite map_map. apply map_ext_in. intros [key l] Hin. cbn [fst snd].
    pose proof (empty_lists_empty (metrics self)) as He.
    rewrite Forall_forall in He. specialize (He _ Hin). cbn [snd] in He. subst l.
    reflexivity.
  - intros key Hkey. rewrite (Hcol key Hkey). lia.
Qed.

Lemma evaluate_images_row_count_witness :
  exists agg csv,
    evaluate_images np_load_example np_mean_example np_std_example
      (evaluator_example directory_example) "out" true None = (Ok agg, Some csv) /\
    List.length (rows csv) = 2%nat.
Proof.
  destruct (evaluate_images_row_count np_load_example np_mean_example np_std_example
              (evaluator_example directory_example) "out" None)
    as [agg [csv [H [_ [Hl _]]]]].
  - cbn. auto.
  - apply Forall_forall. intros f Hf. vm_compute in Hf.
    destruct Hf as [<- | [<- | [<- | []]]]; eexists; vm_compute; reflexivity.
  - exists agg, csv. split; [exact H|]. rewrite Hl. vm_compute. reflexivity.
Defined.

(** ** A file that cannot be loaded *)

Lemma evaluate_loop_load_failure (np_load : string -> result ImageClass)
    (self : BratsEvaluator) (store_data : bool) (bad : string) (rest : list string)
    (e : exn) (mi : list (string * list cell)) (w : world) :
  np_load (path_join (data_folder self) bad) = Raise e ->
  evaluate_loop np_load self store_data (bad :: rest) mi w = (Raise e, w).
Proof.
  intro H. cbn [evaluate_loop]. unfold bind at 1, lift at 1. now rewrite H.
Qed.

Lemma evaluate_loop_never_ok (np_load : string -> result ImageClass)
    (self : BratsEvaluator) (store_data : bool) (bad : string) (e : exn) :
  np_load (path_join (data_folder self) bad) = Raise e ->
  forall files, In bad files ->
  forall mi w, exists e' w',
    evaluate_loop np_load self store_data files mi w = (Raise e', w').
Proof.
  intros Hbad files. induction files as [|f files IH]; intros Hin mi w; [destruct Hin|].
  destruct (string_dec f bad) as [-> | Hne].
  - rewrite (evaluate_loop_load_failure _ _ _ _ _ e _ _ Hbad). eauto.
  - assert (Hin' : In bad files) by (destruct Hin; [contradiction | assumption]).
    specialize (IH Hin').
    cbn [evaluate_loop]. unfold bind, lift, ret.
    repeat first
      [ solve [eauto]
      | match goal with
        | |- context [match ?x with _ => _ end] => destruct x
        end ].
Qed.

Lemma finding_loop_never_ok (np_load : string -> result ImageClass)
    (np_percentile : ImageClass -> Q -> Q) (folder : string) (sel : option selector)
    (bad : string) (e : exn) :
  np_load (path_join folder bad) = Raise e ->
  forall files, In bad files ->
  forall metrics mi mm, exists e',
    finding_loop np_load np_percentile folder sel files metrics mi mm = Raise e'.
Proof.
  intros Hbad files. induction files as [|f files IH]; intros Hin metrics mi mm;
    [destruct Hin|].
  destruct (string_dec f bad) as [-> | Hne].
  - cbn [finding_loop]. rewrite Hbad. cbn [rbind]. eauto.
  - assert (Hin' : In bad files) by (destruct Hin; [contradiction | assumption]).
    specialize (IH Hin').
    cbn [finding_loop]. unfold rbind.
    repeat first
      [ solve [eauto]
      | match goal with
        | |- context [match ?x with _ => _ end] => destruct x
        end ].
Qed.

(** C9 (as amended). The exception of the loader is not caught.  When the
    files before the failing one are evaluated, [evaluate_images] raises the
    loader's exception itself and returns no aggregate, whatever files come
    after; the rows of the earlier samples stay in the output file, which is
    left open.  In general, as soon as one file of the directory fails to
    load, neither [evaluate_images] nor [finding_threshold] returns an
    aggregate. *)
Theorem load_failure_aborts_evaluation
    (np_load : string -> result ImageClass) (np_mean np_std : list cell -> Q)
    (np_percentile : ImageClass -> Q -> Q)
    (self : BratsEvaluator) (output_dir : string) (w0 : world)
    (pre : list string) (bad : string) (rest : list string) (e : exn) :
  data_files self = pre ++ bad :: rest ->
  np_load (path_join (data_folder self) bad) = Raise e ->
  (In "AUROC_WT"%string (dict_keys (metrics self)) ->
   Forall (fun f => exists m, sample_metrics np_load self f = Ok m) pre ->
   let header := ("file_name" :: "threshold" :: dict_keys (metrics self))%string in
   evaluate_images np_load np_mean np_std self output_dir true w0 =
     (Raise e, Some (mkCsv header
                       (map (row_of header) (kept_samples np_load self pre)) false)) /\
   evaluate_images np_load np_mean np_std self output_dir false w0 = (Raise e, w0)) /\
  (forall store_data agg w,
     evaluate_images np_load np_mean np_std self output_dir store_data w0 <> (Ok agg, w)) /\
  (forall r, finding_threshold_method np_load np_mean np_std np_percentile self <> Ok r).
Proof.
  intros Hfiles Hbad. split; [|split].
  - intros Hauroc Hpre header.
    assert (Hkeys : forall key, In key (dict_keys (empty_lists (metrics self))) ->
                                In key (dict_keys (metrics self)))
      by (intros key Hk; now apply empty_lists_keys).
    unfold evaluate_images. rewrite Hfiles. split.
    + unfold bind at 1, open_csv at 1. unfold bind at 1.
      rewrite (evaluate_loop_app np_load self true Hauroc pre Hpre _ _ _ Hkeys).
      rewrite (evaluate_loop_load_failure _ _ _ _ _ e _ _ Hbad).
      reflexivity.
    + unfold bind at 1, ret at 1. unfold bind at 1.
      rewrite (evaluate_loop_app np_load self false Hauroc pre Hpre _ _ _ Hkeys).
      rewrite (evaluate_loop_load_failure _ _ _ _ _ e _ _ Hbad).
      reflexivity.
  - intros store_data agg w. unfold evaluate_images.
    assert (Hin : In bad (data_files self))
      by (rewrite Hfiles; apply in_or_app; right; now left).
    unfold bind at 1.
    destruct (if store_data then _ else _) as [[[]|e0] w1]; [|discriminate].
    unfold bind at 1.
    destruct (evaluate_loop_never_ok np_load self store_data bad e Hbad
                (data_files self) Hin (empty_lists (metrics self)) w1) as [e' [w' He]].
    rewrite He. discriminate.
  - intro r. unfold finding_threshold_method.
    assert (Hin : In bad (data_files self))
      by (rewrite Hfiles; apply in_or_app; right; now left).
    destruct (finding_loop_never_ok np_load np_percentile (data_folder self) (mask_fn self)
                bad e Hbad (data_files self) Hin (metrics self)
                (dict_set "threshold" [] (empty_lists (metrics self)))
                (mkMaxMin 0 None 0 1 None 0)) as [e' He].
    rewrite He. discriminate.
Qed.

Lemma load_failure_aborts_evaluation_witness :
  fst (evaluate_images np_load_example np_mean_example np_std_example
         (evaluator_example broken_directory_example) "out" false None) =
  Raise (OSError "Failed to interpret file as a pickle").
Proof.
  refine (f_equal fst (proj2 (proj1
    (load_failure_aborts_evaluation np_load_example np_mean_example np_std_example
       (fun _ _ => 0) (evaluator_example broken_directory_example) "out" None
       ["a.npy"%string] "bad.npy"%string ["c.npy"%string]
       (OSError "Failed to interpret file as a pickle") eq_refl eq_refl) _ _))).
  - cbn. auto.
  - repeat constructor. eexists. vm_compute. reflexivity.
Defined.

(** C9 (the claim as stated fails). In a directory of a good file, a file
    that cannot be loaded and another good file, the run raises the loader's
    exception: there is no aggregate, although the same run without the
    unreadable file returns one over both good files, and the third file is
    never reached: the output holds the row of the first file alone. *)
Lemma load_failure_loses_aggregate :
  exists csv,
    evaluate_images np_load_example np_mean_example np_std_example
      (evaluator_example broken_directory_example) "out" true None =
    (Raise (OSError "Failed to interpret file as a pickle"), Some csv) /\
    List.length (rows csv) = 1%nat /\ closed csv = false /\
    (exists agg csv',
       evaluate_images np_load_example np_mean_example np_std_example
         (evaluator_example ["a.npy"; "c.npy"]%string) "out" true None =
       (Ok agg, Some csv') /\
       List.length (rows csv') = 2%nat /\ closed csv' = true).
Proof.
  eexists. split; [vm_compute; reflexivity|].
  split; [reflexivity|]. split; [reflexivity|].
  eexists _, _. split; [vm_compute; reflexivity|]. split; reflexivity.
Qed.

(** * Further properties of the metric functions *)

(** ** Sums and dot products over a common index list *)

Lemma indices_sample_eq (a b : ImageClass) (n m : nat) :
  shape a = shape b -> indices (sample a n) = indices (sample b m).
Proof.
  intro Hs. inversion Hs as [[HN HH HW HC]]. unfold indices.
  cbn [dimN dimH dimW dimC sample]. now rewrite HH, HW, HC.
Qed.

Lemma in_indices_sample (a : ImageClass) (n : nat) (i : nat * nat * nat * nat) :
  (n < dimN a)%nat -> In i (indices (sample a n)) ->
  exists h w c, in_bounds a n h w c /\ forall b : ImageClass,
    at_index (sample b n) i = px b n h w c.
Proof.
  intros Hn Hin. destruct i as [[[n' h] w] c].
  apply (proj1 (in_indices4 _ _ _ _ n' h w c)) in Hin.
  cbn [dimN dimH dimW dimC sample] in Hin.
  exists h, w, c. split; [unfold in_bounds; lia | reflexivity].
Qed.

Section index_sums.
Context {I : Type}.
Implicit Types (f g : I -> Q) (l : list I).

Lemma Qsum_map_nonneg f l :
  (forall i, In i l -> 0 <= f i) -> 0 <= Qsum (map f l).
Proof.
  induction l as [|i l IH]; intro H; cbn [map]; unfold Qsum; cbn [fold_right].
  - apply Qle_refl.
  - fold (Qsum (map f l)).
    apply (Qle_trans _ (0 + 0)); [discriminate|].
    apply Qplus_le_compat; [apply H; now left | apply IH; intros; apply H; now right].
Qed.

Lemma Qsum_map_ext f g l :
  (forall i, In i l -> f i == g i) -> Qsum (map f l) == Qsum (map g l).
Proof.
  induction l as [|i l IH]; intro H; cbn [map]; unfold Qsum; cbn [fold_right].
  - reflexivity.
  - fold (Qsum (map f l)). fold (Qsum (map g l)).
    rewrite (H i (or_introl eq_refl)), IH; [reflexivity|].
    intros; apply H; now right.
Qed.

Lemma dot_map_comm f g l :
  dot_product (map f l) (map g l) == dot_product (map g l) (map f l).
Proof.
  induction l as [|i l IH]; cbn [map dot_product]; [reflexivity|].
  rewrite IH. ring.
Qed.

Lemma dot_map_ext f f' g g' l :
  (forall i, In i l -> f i == f' i) -> (forall i, In i l -> g i == g' i) ->
  dot_product (map f l) (map g l) == dot_product (map f' l) (map g' l).
Proof.
  induction l as [|i l IH]; intros Hf Hg; cbn [map dot_product]; [reflexivity|].
  rewrite (Hf i (or_introl eq_refl)), (Hg i (or_introl eq_refl)), IH;
    [reflexivity | intros; apply Hf; now right | intros; apply Hg; now right].
Qed.

Lemma dot_map_self_binary f l :
  (forall i, In i l -> f i == 0 \/ f i == 1) ->
  dot_product (map f l) (map f l) == Qsum (map f l).
Proof.
  induction l as [|i l IH]; intro H; cbn [map dot_product]; unfold Qsum;
    cbn [fold_right]; [reflexivity|].
  fold (Qsum (map f l)). rewrite IH by (intros; apply H; now right).
  destruct (H i (or_introl eq_refl)) as [E | E]; rewrite E; ring.
Qed.

Lemma dot_map_zero f g l :
  (forall i, In i l -> f i == 0) -> dot_product (map f l) (map g l) == 0.
Proof.
  induction l as [|i l IH]; intro H; cbn [map dot_product]; [reflexivity|].
  rewrite (H i (or_introl eq_refl)), IH by (intros; apply H; now right). ring.
Qed.

Lemma dot_map_bounds f g l :
  (forall i, In i l -> 0 <= f i /\ f i <= 1) ->
  (forall i, In i l -> 0 <= g i /\ g i <= 1) ->
  0 <= dot_product (map f l) (map g l) /\
  dot_product (map f l) (map g l) <= Qsum (map f l) /\
  dot_product (map f l) (map g l) <= Qsum (map g l).
Proof.
  induction l as [|i l IH]; intros Hf Hg; cbn [map dot_product]; unfold Qsum;
    cbn [fold_right].
  - repeat split; apply Qle_refl.
  - fold (Qsum (map f l)). fold (Qsum (map g l)).
    destruct IH as [I0 [I1 I2]];
      [intros; apply Hf; now right | intros; apply Hg; now right|].
    destruct (Hf i (or_introl eq_refl)) as [F0 F1].
    destruct (Hg i (or_introl eq_refl)) as [G0 G1].
    assert (P0 : 0 <= f i * g i) by now apply Qmult_le_0_compat.
    assert (P1 : f i * g i <= f i).
    { rewrite <- (Qmult_1_r (f i)) at 2.
      destruct (Qle_lt_or_eq _ _ F0) as [F | F].
      - apply Qmult_le_l; assumption.
      - rewrite <- F. apply Qle_lteq. right. ring. }
    assert (P2 : f i * g i <= g i).
    { rewrite <- (Qmult_1_l (g i)) at 2.
      destruct (Qle_lt_or_eq _ _ G0) as [G | G].
      - apply Qmult_le_r; assumption.
      - rewrite <- G. apply Qle_lteq. right. ring. }
    split; [|split].
    + apply (Qle_trans _ (0 + 0)); [discriminate | now apply Qplus_le_compat].
    + now apply Qplus_le_compat.
    + now apply Qplus_le_compat.
Qed.
End index_sums.

(** ** More on the Dice coefficient *)

Lemma dice_of_sample_form (epsilon : Q) (targets images : ImageClass) (n : nat) :
  shape images = shape targets ->
  dice_of_sample epsilon targets images n =
  (2 * dot_product (map (at_index (sample images n)) (indices (sample targets n)))
                   (map (at_index (sample targets n)) (indices (sample targets n)))
   + epsilon) /
  (Qsum (map (at_index (sample images n)) (indices (sample targets n))) +
   Qsum (map (at_index (sample targets n)) (indices (sample targets n))) + epsilon).
Proof.
  intro Hs. unfold dice_of_sample, asum, flatten. cbv zeta.
  now rewrite (indices_sample_eq images targets n n Hs).
Qed.

Lemma inject_nat_succ (n : nat) :
  inject_Z (Z.of_nat (S n)) == inject_Z (Z.of_nat n) + 1.
Proof. rewrite Nat2Z.inj_succ, <- Z.add_1_r, inject_Z_plus. reflexivity. Qed.

Lemma inject_nat_pos (n : nat) : (0 < n)%nat -> 0 < inject_Z (Z.of_nat n).
Proof. intro H. unfold Qlt. cbn. lia. Qed.

Lemma Qsum_upper (l : list Q) (hi : Q) :
  Forall (fun x => x <= hi) l -> Qsum l <= inject_Z (Z.of_nat (List.length l)) * hi.
Proof.
  induction 1 as [|x l Hx Hl IH]; unfold Qsum; cbn [fold_right List.length].
  - apply Qle_lteq. right. ring.
  - fold (Qsum l). rewrite inject_nat_succ.
    apply (Qle_trans _ (hi + inject_Z (Z.of_nat (List.length l)) * hi));
      [now apply Qplus_le_compat | apply Qle_lteq; right; ring].
Qed.

Lemma Qsum_lower (l : list Q) (lo : Q) :
  Forall (fun x => lo <= x) l -> inject_Z (Z.of_nat (List.length l)) * lo <= Qsum l.
Proof.
  induction 1 as [|x l Hx Hl IH]; unfold Qsum; cbn [fold_right List.length].
  - apply Qle_lteq. right. ring.
  - fold (Qsum l). rewrite inject_nat_succ.
    apply (Qle_trans _ (lo + inject_Z (Z.of_nat (List.length l)) * lo));
      [apply Qle_lteq; right; ring | now apply Qplus_le_compat].
Qed.

Lemma batch_mean_bounds (l : list Q) (lo hi : Q) :
  l <> [] -> Forall (fun x => lo <= x /\ x <= hi) l ->
  lo <= batch_mean l /\ batch_mean l <= hi.
Proof.
  intros Hne Hall. unfold batch_mean.
  assert (Hpos : 0 < inject_Z (Z.of_nat (List.length l)))
    by (apply inject_nat_pos; destruct l; [congruence | cbn; lia]).
  split.
  - apply Qle_shift_div_l; [exact Hpos|]. rewrite Qmult_comm.
    apply Qsum_lower. eapply Forall_impl; [|exact Hall]. now intros x [H _].
  - apply Qle_shift_div_r; [exact Hpos|]. rewrite Qmult_comm.
    apply Qsum_upper. eapply Forall_impl; [|exact Hall]. now intros x [_ H].
Qed.

Lemma batch_mean_ext {I : Type} (f g : I -> Q) (l : list I) :
  (forall i, In i l -> f i == g i) -> batch_mean (map f l) == batch_mean (map g l).
Proof.
  intro H. unfold batch_mean. rewrite !length_map.
  apply Qdiv_comp; [now apply Qsum_map_ext | reflexivity].
Qed.

Lemma seq_nonempty_map {A : Type} (f : nat -> A) (n : nat) :
  (0 < n)%nat -> map f (seq 0 n) <> [].
Proof. destruct n; [lia | discriminate]. Qed.

(** X1. The Dice coefficient of a binary batch of floats against itself
    is 1. *)
Theorem dice_coeff_identical_masks (weak_scalars : bool) (dt_targets dt_images : dtype)
    (targets images : ImageClass) (epsilon : Q) :
  exact_dot (kind images) dt_images dt_targets = true ->
  shape images = shape targets -> kind images = kind targets ->
  (0 < dimN images)%nat -> 0 < epsilon ->
  (forall n h w c, in_bounds targets n h w c ->
     px images n h w c = px targets n h w c /\
     (px targets n h w c == 0 \/ px targets n h w c == 1)) ->
  exists d,
    dice_coeff weak_scalars dt_targets dt_images targets images default_mask_fn epsilon
      = Ok d /\ d == 1.
Proof.
  intros He Hs Hk HN Heps Hpx.
  destruct (dice_coeff_mean weak_scalars dt_targets dt_images targets images epsilon
              He Hs Hk HN) as [d [Hd Hmean]].
  exists d. split; [exact Hd|]. rewrite Hmean.
  assert (HNt : dimN targets = dimN images) by (inversion Hs; congruence).
  assert (Hall : Forall (fun x => 1 <= x /\ x <= 1)
                   (map (dice_of_sample epsilon targets images) (seq 0 (dimN images)))).
  { apply Forall_forall. intros x Hx. apply in_map_iff in Hx.
    destruct Hx as [n [<- Hn]]. apply in_seq in Hn.
    rewrite (dice_of_sample_form epsilon targets images n Hs).
    set (L := indices (sample targets n)).
    set (fI := at_index (sample images n)). set (fT := at_index (sample targets n)).
    assert (HL : forall i, In i L -> fI i == fT i /\ (fT i == 0 \/ fT i == 1)).
    { intros i Hi. destruct (in_indices_sample targets n i) as [h [w [c [Hb Hat]]]];
        [lia | exact Hi|].
      unfold fI, fT. rewrite !Hat. destruct (Hpx n h w c Hb) as [E B].
      rewrite E. split; [reflexivity | exact B]. }
    assert (Hdot : dot_product (map fI L) (map fT L) == Qsum (map fT L)).
    { rewrite (dot_map_ext fI fT fT fT L); [|intros; now apply HL | reflexivity].
      apply dot_map_self_binary. intros; now apply HL. }
    assert (Hsum : Qsum (map fI L) == Qsum (map fT L))
      by (apply Qsum_map_ext; intros; now apply HL).
    assert (Hnn : 0 <= Qsum (map fT L)).
    { apply Qsum_map_nonneg. intros i Hi.
      destruct (proj2 (HL i Hi)) as [E | E]; rewrite E; discriminate. }
    rewrite Hdot, Hsum.
    assert (Hden : ~ Qsum (map fT L) + Qsum (map fT L) + epsilon == 0).
    { intro E. apply (Qlt_irrefl 0). rewrite <- E at 2.
      apply (Qlt_le_trans _ (0 + 0 + epsilon)); [now rewrite !Qplus_0_l|].
      apply Qplus_le_compat; [now apply Qplus_le_compat | apply Qle_refl]. }
    assert (E1 : (2 * Qsum (map fT L) + epsilon) /
                 (Qsum (map fT L) + Qsum (map fT L) + epsilon) == 1)
      by (field; exact Hden).
    rewrite E1. split; apply Qle_refl. }
  apply Qle_antisym;
    apply (batch_mean_bounds _ 1 1 (seq_nonempty_map _ _ HN) Hall).
Qed.

Lemma dice_coeff_identical_masks_witness :
  exists d,
    dice_coeff true float64 float64 ones_mask_example ones_mask_example default_mask_fn
      default_epsilon = Ok d /\
    d == 1.
Proof.
  apply dice_coeff_identical_masks; try reflexivity; [cbn; lia|].
  intros n h w c [Hn [Hh [Hw Hc]]]. cbn in Hn, Hh, Hw, Hc.
  split; [reflexivity|]. right.
  destruct h as [|[|h]]; [| |lia]; (destruct w as [|[|w]]; [| |lia]); reflexivity.
Defined.

Lemma Qsum_pos (l : list Q) : l <> [] -> Forall (fun x => 0 < x) l -> 0 < Qsum l.
Proof.
  intros Hne Hall. destruct Hall as [|x l Hx Hl]; [congruence|].
  unfold Qsum. cbn [fold_right]. fold (Qsum l).
  apply (Qlt_le_trans _ (x + 0)); [now rewrite Qplus_0_r|].
  apply Qplus_le_compat; [apply Qle_refl|].
  rewrite <- (map_id l). apply Qsum_map_nonneg. intros i Hi.
  apply Qlt_le_weak. rewrite Forall_forall in Hl. now apply Hl.
Qed.

Lemma batch_mean_pos (l : list Q) :
  l <> [] -> Forall (fun x => 0 < x) l -> 0 < batch_mean l.
Proof.
  intros Hne Hall. unfold batch_mean.
  apply Qlt_shift_div_l.
  - apply inject_nat_pos. destruct l; [congruence | cbn; lia].
  - rewrite Qmult_0_l. now apply Qsum_pos.
Qed.

(** X2. For a prediction and a target of floats with values between 0 and 1
    and a positive epsilon, the Dice coefficient lies in (0, 1]. *)
Theorem dice_coeff_bounds (weak_scalars : bool) (dt_targets dt_images : dtype)
    (targets images : ImageClass) (epsilon : Q) :
  exact_dot (kind images) dt_images dt_targets = true ->
  shape images = shape targets -> kind images = kind targets ->
  (0 < dimN images)%nat -> 0 < epsilon ->
  (forall n h w c, in_bounds targets n h w c ->
     (0 <= px images n h w c /\ px images n h w c <= 1) /\
     (0 <= px targets n h w c /\ px targets n h w c <= 1)) ->
  exists d,
    dice_coeff weak_scalars dt_targets dt_images targets images default_mask_fn epsilon
      = Ok d /\ 0 < d /\ d <= 1.
Proof.
  intros He Hs Hk HN Heps Hpx.
  destruct (dice_coeff_mean weak_scalars dt_targets dt_images targets images epsilon
              He Hs Hk HN) as [d [Hd Hmean]].
  exists d. split; [exact Hd|]. rewrite Hmean.
  assert (HNt : dimN targets = dimN images) by (inversion Hs; congruence).
  assert (Hall : Forall (fun x => 0 < x /\ x <= 1)
                   (map (dice_of_sample epsilon targets images) (seq 0 (dimN images)))).
  { apply Forall_forall. intros x Hx. apply in_map_iff in Hx.
    destruct Hx as [n [<- Hn]]. apply in_seq in Hn.
    rewrite (dice_of_sample_form epsilon targets images n Hs).
    set (L := indices (sample targets n)).
    set (fI := at_index (sample images n)). set (fT := at_index (sample targets n)).
    assert (HI : forall i, In i L -> 0 <= fI i /\ fI i <= 1).
    { intros i Hi. destruct (in_indices_sample targets n i) as [h [w [c [Hb Hat]]]];
        [lia | exact Hi|].
      unfold fI. rewrite Hat. apply (Hpx n h w c Hb). }
    assert (HT : forall i, In i L -> 0 <= fT i /\ fT i <= 1).
    { intros i Hi. destruct (in_indices_sample targets n i) as [h [w [c [Hb Hat]]]];
        [lia | exact Hi|].
      unfold fT. rewrite Hat. apply (Hpx n h w c Hb). }
    destruct (dot_map_bounds fI fT L HI HT) as [D0 [D1 D2]].
    set (dt := dot_product (map fI L) (map fT L)) in *.
    set (sI := Qsum (map fI L)) in *. set (sT := Qsum (map fT L)) in *.
    assert (Hden : 0 < sI + sT + epsilon).
    { apply (Qlt_le_trans _ (0 + 0 + epsilon)); [now rewrite !Qplus_0_l|].
      apply Qplus_le_compat; [|apply Qle_refl].
      apply Qplus_le_compat; eapply Qle_trans; eassumption. }
    split.
    - apply Qlt_shift_div_l; [exact Hden|]. rewrite Qmult_0_l.
      apply (Qlt_le_trans _ (2 * 0 + epsilon)); [now rewrite Qmult_0_r, Qplus_0_l|].
      apply Qplus_le_compat; [|apply Qle_refl].
      apply Qmult_le_l; [reflexivity | exact D0].
    - apply Qle_shift_div_r; [exact Hden|]. rewrite Qmult_1_l.
      apply Qplus_le_compat; [|apply Qle_refl].
      apply (Qle_trans _ (dt + dt)); [apply Qle_lteq; right; ring|].
      now apply Qplus_le_compat. }
  split.
  - apply batch_mean_pos; [now apply seq_nonempty_map|].
    eapply Forall_impl; [|exact Hall]. now intros x [H _].
  - apply (batch_mean_bounds _ 0 1 (seq_nonempty_map _ _ HN)).
    eapply Forall_impl; [|exact Hall]. intros x [H1 H2].
    split; [now apply Qlt_le_weak | exact H2].
Qed.

Lemma dice_coeff_bounds_witness :
  exists d,
    dice_coeff true float64 float64 ones_mask_example score_map_example default_mask_fn
      default_epsilon = Ok d /\
    0 < d /\ d <= 1.
Proof.
  apply dice_coeff_bounds; try reflexivity; [cbn; lia|].
  intros n h w c [Hn [Hh [Hw Hc]]]. cbn in Hn, Hh, Hw, Hc.
  destruct h as [|[|h]]; [| |lia]; (destruct w as [|[|w]]; [| |lia]);
    cbn; repeat split; discriminate.
Defined.

(** X3. On batches of floats with denominators that are not zero, the Dice
    coefficient does not depend on which of the two batches is called the
    prediction. *)
Theorem dice_coeff_symmetric (weak_scalars : bool) (dt_targets dt_images : dtype)
    (targets images : ImageClass) (epsilon : Q) :
  exact_dot (kind images) dt_images dt_targets = true ->
  shape images = shape targets -> kind images = kind targets ->
  (0 < dimN images)%nat ->
  (forall n, (n < dimN images)%nat -> ~ spec_denominator epsilon targets images n == 0) ->
  exists d d',
    dice_coeff weak_scalars dt_targets dt_images targets images default_mask_fn epsilon
      = Ok d /\
    dice_coeff weak_scalars dt_images dt_targets images targets default_mask_fn epsilon
      = Ok d' /\
    d == d'.
Proof.
  intros He Hs Hk HN _.
  assert (HNt : dimN targets = dimN images) by (inversion Hs; congruence).
  assert (He' : exact_dot (kind targets) dt_targets dt_images = true).
  { rewrite <- Hk. destruct (kind images), dt_images, dt_targets;
      try discriminate He; reflexivity. }
  destruct (dice_coeff_mean weak_scalars dt_targets dt_images targets images epsilon
              He Hs Hk HN) as [d [Hd Hmean]].
  destruct (dice_coeff_mean weak_scalars dt_images dt_targets images targets epsilon
              He' (eq_sym Hs) (eq_sym Hk)) as [d' [Hd' Hmean']]; [lia|].
  exists d, d'. split; [exact Hd|]. split; [exact Hd'|].
  rewrite Hmean, Hmean', HNt. apply batch_mean_ext. intros n _.
  rewrite (dice_of_sample_form epsilon targets images n Hs).
  rewrite (dice_of_sample_form epsilon images targets n (eq_sym Hs)).
  rewrite (indices_sample_eq images targets n n Hs).
  rewrite dot_map_comm.
  apply Qdiv_comp; [reflexivity | ring].
Qed.

Lemma dice_coeff_symmetric_witness :
  exists d d',
    dice_coeff true float64 float64 ones_mask_example score_map_example default_mask_fn
      default_epsilon = Ok d /\
    dice_coeff true float64 float64 score_map_example ones_mask_example default_mask_fn
      default_epsilon = Ok d' /\
    d == d'.
Proof.
  apply dice_coeff_symmetric; try reflexivity; [cbn; lia|].
  intros n Hn H. cbn in Hn. assert (n = 0%nat) by lia. subst n.
  vm_compute in H. discriminate H.
Defined.

(** X4. On a batch without samples [dice_coeff] passes its assertion and then
    divides by zero, whatever the element types and the masking function
    are. *)
Theorem dice_coeff_empty_batch_raises (weak_scalars : bool) (dt_targets dt_images : dtype)
    (targets images : ImageClass)
    (mask_fn : ImageClass -> result ImageClass) (epsilon : Q) :
  shape images = shape targets -> kind images = kind targets ->
  dimN images = 0%nat ->
  dice_coeff weak_scalars dt_targets dt_images targets images mask_fn epsilon =
  Raise ZeroDivisionError.
Proof.
  intros Hs Hk HN. unfold dice_coeff.
  rewrite (proj2 (same_shape_and_type_iff images targets) (conj Hs Hk)), HN.
  reflexivity.
Qed.

Lemma dice_coeff_empty_batch_raises_witness :
  dice_coeff true float64 float64 empty_batch_example empty_batch_example default_mask_fn
    default_epsilon = Raise ZeroDivisionError.
Proof. apply dice_coeff_empty_batch_raises; reflexivity. Defined.

(** ** More on AUROC *)

(** X5. [AUROC] checks shape and type before anything else: on a mismatch it
    raises the assertion error whatever the scoring function is, and on
    matching batches without samples it divides by zero. *)
Theorem AUROC_preconditions (roc_auc_score : list Q -> list Q -> result Q)
    (targets images : ImageClass) (threshold : Q) :
  (shape images <> shape targets \/ kind images <> kind targets ->
   AUROC roc_auc_score targets images threshold = Raise (AssertionError shape_type_msg)) /\
  (shape images = shape targets -> kind images = kind targets -> dimN images = 0%nat ->
   AUROC roc_auc_score targets images threshold = Raise ZeroDivisionError).
Proof.
  split.
  - intro Hmis. unfold AUROC.
    destruct (same_shape_and_type images targets) eqn:E; [|reflexivity].
    apply same_shape_and_type_iff in E. tauto.
  - intros Hs Hk HN. unfold AUROC.
    rewrite (proj2 (same_shape_and_type_iff images targets) (conj Hs Hk)), HN.
    reflexivity.
Qed.

Lemma AUROC_preconditions_witness :
  AUROC roc_auc_score_example label_map_example boundary_map_example default_threshold =
    Raise (AssertionError shape_type_msg) /\
  AUROC roc_auc_score_example empty_batch_example empty_batch_example default_threshold =
    Raise ZeroDivisionError.
Proof.
  split.
  - apply (proj1 (AUROC_preconditions roc_auc_score_example label_map_example
                    boundary_map_example default_threshold)).
    left. cbv. discriminate.
  - apply (proj2 (AUROC_preconditions roc_auc_score_example empty_batch_example
                    empty_batch_example default_threshold)); reflexivity.
Defined.

(** X6. For a NumPy batch of one sample [AUROC] returns exactly -1 when the
    sum of the target is at most the minimum, and otherwise what the scoring
    function gives for that sample: its score, or its exception. *)
Theorem AUROC_single_sample (roc_auc_score : list Q -> list Q -> result Q)
    (targets images : ImageClass) (threshold : Q) :
  shape images = shape targets -> kind images = NDArray -> kind targets = NDArray ->
  dimN images = 1%nat ->
  let target := flatten (sample targets 0) in
  let image := flatten (sample images 0) in
  (Qsum target <= threshold ->
   AUROC roc_auc_score targets images threshold = Ok (-1)) /\
  (threshold < Qsum target ->
   forall auc, roc_auc_score target image = Ok auc ->
     exists r, AUROC roc_auc_score targets images threshold = Ok r /\ r == auc) /\
  (threshold < Qsum target ->
   forall e, roc_auc_score target image = Raise e ->
     AUROC roc_auc_score targets images threshold = Raise e).
Proof.
  intros Hs Hk Hk' HN target image.
  assert (Hst : same_shape_and_type images targets = true)
    by (apply same_shape_and_type_iff; split; congruence).
  unfold AUROC. rewrite Hst, HN. cbn [negb seq AUROC_loop]. rewrite Hk.
  fold target. fold image.
  split; [|split].
  - intro Hle. apply Qle_bool_iff in Hle. rewrite Hle. reflexivity.
  - intros Hlt auc Hauc.
    destruct (Qle_bool (Qsum target) threshold) eqn:E.
    + apply Qle_bool_iff in E. exfalso. exact (Qlt_not_le _ _ Hlt E).
    + rewrite Hauc. cbn [rbind Nat.eqb]. eexists. split; [reflexivity|].
      change (inject_Z (Z.of_nat 1)) with 1. field.
  - intros Hlt e He.
    destruct (Qle_bool (Qsum target) threshold) eqn:E.
    + apply Qle_bool_iff in E. exfalso. exact (Qlt_not_le _ _ Hlt E).
    + rewrite He. reflexivity.
Qed.

Lemma AUROC_single_sample_witness :
  AUROC roc_auc_score_example label_map_example label_map_example default_threshold =
  Ok (-1).
Proof.
  apply (proj1 (AUROC_single_sample roc_auc_score_example label_map_example
                  label_map_example default_threshold eq_refl eq_refl eq_refl eq_refl)).
  vm_compute. discriminate.
Defined.

(** ** Nesting of the regions *)

(** X7. The three region masks are nested: wherever the ET mask is 1 the TC
    mask is 1, and wherever the TC mask is 1 the WT mask is 1. *)
Theorem region_masks_nested (targets : ImageClass) :
  exists et tc wt,
    region_mask targets "ET" = Ok et /\
    region_mask targets "TC" = Ok tc /\
    region_mask targets "WT" = Ok wt /\
    forall n h w c,
      px et n h w c <= px tc n h w c /\ px tc n h w c <= px wt n h w c /\
      (px et n h w c = 1 -> px tc n h w c = 1) /\
      (px tc n h w c = 1 -> px wt n h w c = 1).
Proof.
  exists (amap region_mask_ET targets), (amap region_mask_TC targets),
         (amap region_mask_WT targets).
  split; [reflexivity|]. split; [reflexivity|]. split; [reflexivity|].
  intros n h w c. cbn [px amap].
  rewrite region_mask_ET_spec, region_mask_TC_spec, region_mask_WT_spec.
  destruct (Qeq_bool (px targets n h w c) 1), (Qeq_bool (px targets n h w c) 4),
    (Qeq_bool (px targets n h w c) 2); cbn; repeat split;
    try discriminate; try reflexivity; intro H; discriminate H.
Qed.

(** ** More on the non-zero mask *)

Lemma length_indices4 (N H W C : nat) :
  List.length (indices4 N H W C) = (N * (H * (W * C)))%nat.
Proof.
  unfold indices4.
  rewrite (flat_map_constant_length (c := (H * (W * C))%nat)), length_seq; [reflexivity|].
  intros n _.
  rewrite (flat_map_constant_length (c := (W * C)%nat)), length_seq; [reflexivity|].
  intros h _.
  rewrite (flat_map_constant_length (c := C)), length_seq; [reflexivity|].
  intros w _. now rewrite length_map, length_seq.
Qed.

Lemma amin_empty (a : ImageClass) :
  dimN a = 0%nat \/ dimH a = 0%nat \/ dimW a = 0%nat \/ dimC a = 0%nat ->
  amin a =
  Raise (ValueError "zero-size array to reduction operation minimum which has no identity").
Proof.
  intro H. unfold amin.
  assert (E : flatten a = []).
  { apply length_zero_iff_nil. unfold flatten, indices.
    rewrite length_map, length_indices4. nia. }
  now rewrite E.
Qed.

(** The run of [nonzero_masking] on well-formed input, spelled out. *)
Lemma nonzero_masking_run (images targets : ImageClass) :
  kind images = kind targets ->
  dimN images = dimN targets -> dimH images = dimH targets -> dimW images = dimW targets ->
  (0 < dimN images)%nat -> (0 < dimH images)%nat -> (0 < dimW images)%nat ->
  (0 < dimC images)%nat -> (0 < dimC targets)%nat ->
  exists imin tmin targets',
    amin images = Ok imin /\ amin targets = Ok tmin /\
    let mask := amap (fun s => b2q (Qeq_bool s 4) * 1)
                  (reduce_channels Qsum (amap (fun v => b2q (Qltb (imin * 1) v)) images)) in
    (forall flag, nonzero_masking images targets flag =
                  Ok (targets', if flag then Some mask else None)) /\
    kind targets' = kind targets /\ shape targets' = shape targets /\
    forall n h w c, in_bounds targets n h w c ->
      px targets' n h w c =
      px targets n h w c * px mask n h w 0 + tmin * (1 - px mask n h w 0).
Proof.
  intros Hk HN HH HW HN0 HH0 HW0 HC0 HCt0.
  destruct (amin_defined images HN0 HH0 HW0 HC0) as [imin Himin].
  assert (Htdef : exists tmin, amin targets = Ok tmin)
    by (apply amin_defined; lia).
  destruct Htdef as [tmin Htmin].
  set (mask := amap (fun s => b2q (Qeq_bool s 4) * 1)
                 (reduce_channels Qsum (amap (fun v => b2q (Qltb (imin * 1) v)) images))).
  destruct (broadcast2_one_channel Qmult targets mask)
    as [fg [Hfg [Hfgk [Hfgs Hfgp]]]]; try (cbn; congruence).
  inversion Hfgs as [[HfN HfH HfW HfC]].
  destruct (broadcast2_one_channel Qplus fg (amap (fun m => tmin * (1 - m)) mask))
    as [t' [Ht' [Htk [Hts Htp]]]]; try (cbn; congruence).
  exists imin, tmin, t'. split; [exact Himin|]. split; [exact Htmin|].
  fold mask. cbv zeta.
  split.
  { intro flag. unfold nonzero_masking.
    rewrite Hk, container_eqb_refl, HH, HW, !Nat.eqb_refl. cbn [negb andb].
    rewrite Himin. cbn [rbind]. fold mask. rewrite Hfg. cbn [rbind].
    rewrite Htmin. cbn [rbind]. rewrite Ht'. reflexivity. }
  split; [congruence|]. split; [congruence|].
  intros n h w c Hin.
  assert (Hin' : in_bounds fg n h w c) by (unfold in_bounds in *; lia).
  rewrite (Htp n h w c Hin'), (Hfgp n h w c Hin). reflexivity.
Qed.

Lemma mask_value_cases (images : ImageClass) (imin : Q) (n h w : nat) :
  let mask := amap (fun s => b2q (Qeq_bool s 4) * 1)
                (reduce_channels Qsum (amap (fun v => b2q (Qltb (imin * 1) v)) images)) in
  px mask n h w 0 = 1 \/ px mask n h w 0 = 0.
Proof. cbv zeta. rewrite nonzero_mask_pixel. apply b2q_cases. Qed.

(** Each masked score is the score itself or the minimum of the scores. *)
Lemma nonzero_masked_value (t tmin m : Q) :
  m = 1 \/ m = 0 ->
  t * m + tmin * (1 - m) == t \/ t * m + tmin * (1 - m) == tmin.
Proof. intros [-> | ->]; [left | right]; ring. Qed.

(** X8. [nonzero_masking] rejects its input in this order: arrays of
    different type and arrays of different height or width fail the two
    assertions, and an image array without elements makes the minimum
    raise. *)
Theorem nonzero_masking_rejects (images targets : ImageClass) (return_mask : bool) :
  (kind images <> kind targets ->
   nonzero_masking images targets return_mask = Raise (AssertionError nonzero_type_msg)) /\
  (kind images = kind targets ->
   dimH images <> dimH targets \/ dimW images <> dimW targets ->
   nonzero_masking images targets return_mask = Raise (AssertionError nonzero_shape_msg)) /\
  (kind images = kind targets ->
   dimH images = dimH targets -> dimW images = dimW targets ->
   dimN images = 0%nat \/ dimH images = 0%nat \/ dimW images = 0%nat \/ dimC images = 0%nat ->
   nonzero_masking images targets return_mask =
   Raise (ValueError "zero-size array to reduction operation minimum which has no identity")).
Proof.
  split; [|split].
  - intro Hk. unfold nonzero_masking.
    destruct (kind images), (kind targets); try reflexivity; congruence.
  - intros Hk Hd. unfold nonzero_masking. rewrite Hk, container_eqb_refl. cbn [negb].
    destruct (Nat.eqb_spec (dimH images) (dimH targets));
      destruct (Nat.eqb_spec (dimW images) (dimW targets)); try reflexivity.
    destruct Hd; contradiction.
  - intros Hk HH HW Hempty. unfold nonzero_masking.
    rewrite Hk, container_eqb_refl, HH, HW, !Nat.eqb_refl. cbn [negb andb].
    now rewrite (amin_empty images Hempty).
Qed.

Lemma nonzero_masking_rejects_witness :
  nonzero_masking label_map_example boundary_map_example false =
    Raise (AssertionError nonzero_shape_msg) /\
  nonzero_masking empty_batch_example empty_batch_example false =
    Raise (ValueError "zero-size array to reduction operation minimum which has no identity").
Proof.
  split.
  - apply (proj1 (proj2 (nonzero_masking_rejects label_map_example boundary_map_example
                           false))); [reflexivity|].
    left. cbn. lia.
  - apply (proj2 (proj2 (nonzero_masking_rejects empty_batch_example empty_batch_example
                           false))); try reflexivity.
    left. reflexivity.
Defined.

Lemma in_bounds_same_shape (a b : ImageClass) (n h w c : nat) :
  shape a = shape b -> in_bounds a n h w c -> in_bounds b n h w c.
Proof.
  intros Hs Hin. inversion Hs as [[HN HH HW HC]]. unfold in_bounds in *.
  now rewrite <- HN, <- HH, <- HW, <- HC.
Qed.

(** An array whose elements are, place by place, those of [targets] or the
    minimum of [targets] has the same minimum. *)
Lemma amin_of_masked (targets targets' : ImageClass) (tmin m' : Q) :
  amin targets = Ok tmin -> shape targets' = shape targets ->
  (forall n h w c, in_bounds targets n h w c ->
     px targets' n h w c == px targets n h w c \/ px targets' n h w c == tmin) ->
  amin targets' = Ok m' -> m' == tmin.
Proof.
  intros Ht Hs Hval Hm.
  destruct (amin_is_minimum targets tmin Ht) as [Hle [n0 [h0 [w0 [c0 [Hin0 Hat0]]]]]].
  destruct (amin_is_minimum targets' m' Hm) as [Hle' [n1 [h1 [w1 [c1 [Hin1 Hat1]]]]]].
  apply Qle_antisym.
  - apply (Qle_trans _ (px targets' n0 h0 w0 c0)).
    + apply Hle'. now apply (in_bounds_same_shape targets targets').
    + destruct (Hval _ _ _ _ Hin0) as [E | E]; rewrite E;
        [rewrite Hat0 |]; apply Qle_refl.
  - rewrite <- Hat1.
    assert (Hin1' : in_bounds targets n1 h1 w1 c1)
      by now apply (in_bounds_same_shape targets' targets).
    destruct (Hval _ _ _ _ Hin1') as [E | E]; rewrite E;
      [now apply Hle | apply Qle_refl].
Qed.

(** X9. Masking keeps every score or replaces it by the minimum of the
    scores, so no masked score is below that minimum and the masked score
    map has the same global minimum as the score map. *)
Theorem nonzero_masking_keeps_minimum (images targets : ImageClass) :
  kind images = kind targets ->
  dimN images = dimN targets -> dimH images = dimH targets -> dimW images = dimW targets ->
  (0 < dimN images)%nat -> (0 < dimH images)%nat -> (0 < dimW images)%nat ->
  (0 < dimC images)%nat -> (0 < dimC targets)%nat ->
  exists tmin targets' m',
    amin targets = Ok tmin /\
    nonzero_masking images targets false = Ok (targets', None) /\
    (forall n h w c, in_bounds targets n h w c ->
       tmin <= px targets' n h w c /\
       (px targets' n h w c == px targets n h w c \/ px targets' n h w c == tmin)) /\
    amin targets' = Ok m' /\ m' == tmin.
Proof.
  intros Hk HN HH HW HN0 HH0 HW0 HC0 HCt0.
  destruct (nonzero_masking_run images targets Hk HN HH HW HN0 HH0 HW0 HC0 HCt0)
    as [imin [tmin [t' [Himin [Htmin [Hrun [Htk [Hts Hpx]]]]]]]].
  cbv zeta in Hrun, Hpx.
  assert (Hval : forall n h w c, in_bounds targets n h w c ->
            px t' n h w c == px targets n h w c \/ px t' n h w c == tmin).
  { intros n h w c Hin. rewrite (Hpx n h w c Hin).
    apply nonzero_masked_value. apply mask_value_cases. }
  inversion Hts as [[HtN HtH HtW HtC]].
  destruct (amin_defined t') as [m' Hm']; try lia.
  exists tmin, t', m'. split; [exact Htmin|]. split; [exact (Hrun false)|].
  split.
  - intros n h w c Hin. split; [|now apply Hval].
    destruct (amin_is_minimum targets tmin Htmin) as [Hle _].
    destruct (Hval n h w c Hin) as [E | E]; rewrite E;
      [now apply Hle | apply Qle_refl].
  - split; [exact Hm'|]. exact (amin_of_masked targets t' tmin m' Htmin Hts Hval Hm').
Qed.

Lemma nonzero_masking_keeps_minimum_witness :
  exists tmin targets' m',
    amin two_scores_example = Ok tmin /\
    nonzero_masking four_channel_example two_scores_example false = Ok (targets', None) /\
    amin targets' = Ok m' /\ m' == tmin.
Proof.
  destruct (nonzero_masking_keeps_minimum four_channel_example two_scores_example)
    as [tmin [t' [m' [H1 [H2 [_ [H3 H4]]]]]]]; try reflexivity; try (cbn; lia).
  exists tmin, t', m'. auto.
Defined.

(** X10. In an image with at most four channels the pixel that holds the
    global minimum of the image is background: the mask is 0 there and the
    score of that pixel is replaced by the minimum of the scores.  So the
    mask is never 1 everywhere. *)
Theorem nonzero_masking_minimum_is_background (images targets : ImageClass) :
  kind images = kind targets ->
  dimN images = dimN targets -> dimH images = dimH targets -> dimW images = dimW targets ->
  (0 < dimN images)%nat -> (0 < dimH images)%nat -> (0 < dimW images)%nat ->
  (0 < dimC images)%nat -> (0 < dimC targets)%nat ->
  (dimC images <= 4)%nat ->
  exists imin tmin targets' mask,
    amin images = Ok imin /\ amin targets = Ok tmin /\
    nonzero_masking images targets true = Ok (targets', Some mask) /\
    exists n h w c,
      in_bounds images n h w c /\ px images n h w c = imin /\
      px mask n h w 0 = 0 /\
      forall c', (c' < dimC targets)%nat -> px targets' n h w c' == tmin.
Proof.
  intros Hk HN HH HW HN0 HH0 HW0 HC0 HCt0 HC4.
  destruct (nonzero_masking_run images targets Hk HN HH HW HN0 HH0 HW0 HC0 HCt0)
    as [imin [tmin [t' [Himin [Htmin [Hrun [Htk [Hts Hpx]]]]]]]].
  cbv zeta in Hrun, Hpx.
  eexists imin, tmin, t', _. split; [exact Himin|]. split; [exact Htmin|].
  split; [exact (Hrun true)|].
  destruct (amin_is_minimum images imin Himin) as [_ [n [h [w [c [Hin Hat]]]]]].
  exists n, h, w, c. split; [exact Hin|]. split; [exact Hat|].
  assert (Hmask : px (amap (fun s => b2q (Qeq_bool s 4) * 1)
                       (reduce_channels Qsum
                          (amap (fun v => b2q (Qltb (imin * 1) v)) images))) n h w 0 = 0).
  { rewrite nonzero_mask_pixel.
    destruct (Nat.eqb_spec (List.length (channels_exceeding images imin n h w)) 4)
      as [E | _]; [|reflexivity].
    exfalso. unfold channels_exceeding in E.
    pose proof (filter_length_le (fun c0 => Qltb imin (px images n h w c0))
                  (seq 0 (dimC images))) as Hle.
    rewrite length_seq in Hle.
    assert (Hall : List.length (filter (fun c0 => Qltb imin (px images n h w c0))
                                  (seq 0 (dimC images))) =
                   List.length (seq 0 (dimC images)))
      by (rewrite length_seq; lia).
    rewrite filter_all_length in Hall.
    destruct Hin as [_ [_ [_ Hc]]].
    specialize (Hall c (proj2 (in_seq _ _ _) (conj (Nat.le_0_l c) Hc))).
    cbv beta in Hall. rewrite Hat in Hall.
    apply Qltb_lt in Hall. exact (Qlt_irrefl _ Hall). }
  split; [exact Hmask|].
  intros c' Hc'.
  assert (Hin' : in_bounds targets n h w c')
    by (unfold in_bounds in *; lia).
  rewrite (Hpx n h w c' Hin'), Hmask. ring.
Qed.

Lemma nonzero_masking_minimum_is_background_witness :
  exists targets' mask,
    nonzero_masking four_channel_example two_scores_example true =
    Ok (targets', Some mask).
Proof.
  destruct (nonzero_masking_minimum_is_background four_channel_example two_scores_example)
    as [imin [tmin [t' [m [_ [_ [H _]]]]]]]; try reflexivity; try (cbn; lia).
  exists t', m. exact H.
Defined.

(** X11. Masking a score map that is already masked with the same image
    changes nothing. *)
Theorem nonzero_masking_idempotent (images targets : ImageClass) :
  kind images = kind targets ->
  dimN images = dimN targets -> dimH images = dimH targets -> dimW images = dimW targets ->
  (0 < dimN images)%nat -> (0 < dimH images)%nat -> (0 < dimW images)%nat ->
  (0 < dimC images)%nat -> (0 < dimC targets)%nat ->
  exists targets' targets'',
    nonzero_masking images targets false = Ok (targets', None) /\
    nonzero_masking images targets' false = Ok (targets'', None) /\
    shape targets'' = shape targets' /\
    forall n h w c, in_bounds targets' n h w c ->
      px targets'' n h w c == px targets' n h w c.
Proof.
  intros Hk HN HH HW HN0 HH0 HW0 HC0 HCt0.
  destruct (nonzero_masking_run images targets Hk HN HH HW HN0 HH0 HW0 HC0 HCt0)
    as [imin [tmin [t' [Himin [Htmin [Hrun [Htk [Hts Hpx]]]]]]]].
  cbv zeta in Hrun, Hpx.
  inversion Hts as [[HtN HtH HtW HtC]].
  destruct (nonzero_masking_run images t') as
    [imin2 [tmin2 [t'' [Himin2 [Htmin2 [Hrun2 [Htk2 [Hts2 Hpx2]]]]]]]];
    try congruence; try lia.
  cbv zeta in Hrun2, Hpx2.
  assert (Ei : imin2 = imin) by congruence. subst imin2.
  assert (Hval : forall n h w c, in_bounds targets n h w c ->
            px t' n h w c == px targets n h w c \/ px t' n h w c == tmin).
  { intros n h w c Hin. rewrite (Hpx n h w c Hin).
    apply nonzero_masked_value. apply mask_value_cases. }
  pose proof (amin_of_masked targets t' tmin tmin2 Htmin Hts Hval Htmin2) as Emin.
  exists t', t''. split; [exact (Hrun false)|]. split; [exact (Hrun2 false)|].
  split; [exact Hts2|].
  intros n h w c Hin.
  assert (Hin' : in_bounds targets n h w c)
    by now apply (in_bounds_same_shape t' targets).
  rewrite (Hpx2 n h w c Hin), (Hpx n h w c Hin').
  destruct (mask_value_cases images imin n h w) as [E | E]; cbv zeta in E;
    rewrite E, ?Emin; ring.
Qed.

Lemma nonzero_masking_idempotent_witness :
  exists targets' targets'',
    nonzero_masking four_channel_example two_scores_example false = Ok (targets', None) /\
    nonzero_masking four_channel_example targets' false = Ok (targets'', None).
Proof.
  destruct (nonzero_masking_idempotent four_channel_example two_scores_example)
    as [t' [t'' [H1 [H2 _]]]]; try reflexivity; try (cbn; lia).
  exists t', t''. auto.
Defined.

(** ** [min_max_scale] *)

Lemma fold_Qmax_ge (l : list Q) (x : Q) :
  x <= fold_left Qmax l x /\ forall y, In y l -> y <= fold_left Qmax l x.
Proof.
  revert x. induction l as [|z l IH]; intro x; cbn [fold_left].
  - split; [apply Qle_refl | intros y []].
  - destruct (IH (Qmax x z)) as [H1 H2]. split.
    + eapply Qle_trans; [apply Q.le_max_l | exact H1].
    + intros y [-> | Hy].
      * eapply Qle_trans; [apply Q.le_max_r | exact H1].
      * now apply H2.
Qed.

Lemma fold_Qmax_in (l : list Q) (x : Q) :
  fold_left Qmax l x = x \/ In (fold_left Qmax l x) l.
Proof.
  revert x. induction l as [|z l IH]; intro x; cbn [fold_left].
  - now left.
  - destruct (IH (Qmax x z)) as [H | H].
    + rewrite H. unfold Qmax, GenericMinMax.gmax.
      destruct (x ?= z); [now left | right; now left | now left].
    + right; now right.
Qed.

Lemma amax_is_maximum (a : ImageClass) (m : Q) :
  amax a = Ok m ->
  (forall n h w c, in_bounds a n h w c -> px a n h w c <= m) /\
  (exists n h w c, in_bounds a n h w c /\ px a n h w c = m).
Proof.
  unfold amax, list_max. intro H.
  destruct (flatten a) as [|x l] eqn:E; [discriminate|].
  inversion H as [Hm]. clear H.
  destruct (fold_Qmax_ge l x) as [H1 H2]. split.
  - intros n h w c Hin.
    assert (Hv : In (px a n h w c) (flatten a))
      by (apply in_flatten; exists n, h, w, c; auto).
    rewrite E in Hv. destruct Hv as [<- | Hv]; [exact H1 | now apply H2].
  - apply in_flatten. rewrite E.
    destruct (fold_Qmax_in l x) as [-> | Hin]; [now left | now right].
Qed.

(** X12. When the maximum of an image exceeds its minimum, [min_max_scale]
    maps every element into [0, 1], keeps the order of the elements, sends
    the minimum to 0 and the maximum to 1. *)
Theorem min_max_scale_range (image : ImageClass) (lo hi : Q) :
  amin image = Ok lo -> amax image = Ok hi -> lo < hi ->
  exists r,
    min_max_scale image = Ok r /\ shape r = shape image /\
    (forall n h w c, in_bounds image n h w c ->
       0 <= px r n h w c /\ px r n h w c <= 1) /\
    (forall n h w c n' h' w' c',
       px image n h w c <= px image n' h' w' c' -> px r n h w c <= px r n' h' w' c') /\
    (exists n h w c, in_bounds image n h w c /\ px image n h w c = lo /\ px r n h w c == 0) /\
    (exists n h w c, in_bounds image n h w c /\ px image n h w c = hi /\ px r n h w c == 1).
Proof.
  intros Hlo Hhi Hlt. unfold min_max_scale. rewrite Hlo, Hhi. cbn [rbind].
  eexists. split; [reflexivity|]. split; [reflexivity|].
  destruct (amin_is_minimum image lo Hlo) as [Hmin [n0 [h0 [w0 [c0 [Hin0 Hat0]]]]]].
  destruct (amax_is_maximum image hi Hhi) as [Hmax [n1 [h1 [w1 [c1 [Hin1 Hat1]]]]]].
  assert (Hd : 0 < hi - lo) by (unfold Qminus; rewrite <- Qlt_minus_iff; exact Hlt).
  split; [|split; [|split]].
  - intros n h w c Hin. cbn [px amap]. split.
    + apply Qle_shift_div_l; [exact Hd|]. rewrite Qmult_0_l.
      unfold Qminus. rewrite <- Qle_minus_iff. now apply Hmin.
    + apply Qle_shift_div_r; [exact Hd|]. rewrite Qmult_1_l.
      unfold Qminus. apply Qplus_le_compat; [now apply Hmax | apply Qle_refl].
  - intros n h w c n' h' w' c' Hle. cbn [px amap].
    unfold Qdiv. apply Qmult_le_compat_r.
    + unfold Qminus. apply Qplus_le_compat; [exact Hle | apply Qle_refl].
    + apply Qlt_le_weak. now apply Qinv_lt_0_compat.
  - exists n0, h0, w0, c0. split; [exact Hin0|]. split; [exact Hat0|].
    cbn [px amap]. rewrite Hat0. field. intro E. rewrite E in Hd. discriminate Hd.
  - exists n1, h1, w1, c1. split; [exact Hin1|]. split; [exact Hat1|].
    cbn [px amap]. rewrite Hat1. field. intro E. rewrite E in Hd. discriminate Hd.
Qed.

Lemma min_max_scale_range_witness :
  exists r,
    min_max_scale two_scores_example = Ok r /\
    map (map Qred) (to_rows r) = [[1; 0]].
Proof.
  destruct (min_max_scale_range two_scores_example 5 7) as [r [H _]];
    try reflexivity.
  exists r. split; [exact H|].
  assert (F : match min_max_scale two_scores_example with
              | Ok r' => map (map Qred) (to_rows r') = [[1; 0]]
              | Raise _ => False
              end) by (vm_compute; reflexivity).
  rewrite H in F. exact F.
Defined.

(** ** More on the two masking closures *)

(** X13. In use-threshold mode raising the threshold never marks a new
    pixel, and for a threshold in (0, 1] binarizing an already binarized map
    changes nothing. *)
Theorem using_mask_fn_monotone_idempotent (pred : ImageClass) (t t' : Q) :
  (t <= t' ->
   forall n h w c,
     px (using_thresh.mask_fn t' pred) n h w c <= px (using_thresh.mask_fn t pred) n h w c) /\
  (0 < t -> t <= 1 ->
   forall n h w c,
     px (using_thresh.mask_fn t (using_thresh.mask_fn t pred)) n h w c =
     px (using_thresh.mask_fn t pred) n h w c).
Proof.
  split.
  - intros Hle n h w c. rewrite !using_mask_fn_pixel.
    destruct (Qle_bool t' (px pred n h w c)) eqn:E'; [|destruct (Qle_bool t _); discriminate].
    apply Qle_bool_iff in E'.
    assert (E : Qle_bool t (px pred n h w c) = true)
      by (apply Qle_bool_iff; eapply Qle_trans; eassumption).
    rewrite E. apply Qle_refl.
  - intros H0 H1 n h w c. rewrite (using_mask_fn_pixel t (using_thresh.mask_fn t pred)).
    rewrite using_mask_fn_pixel.
    destruct (Qle_bool t (px pred n h w c)); cbn [b2q].
    + apply Qle_bool_iff in H1. now rewrite H1.
    + destruct (Qle_bool t 0) eqn:E; [|reflexivity].
      apply Qle_bool_iff in E. exfalso. exact (Qlt_not_le _ _ H0 E).
Qed.

Lemma using_mask_fn_monotone_idempotent_witness :
  px (using_thresh.mask_fn (9 # 10) score_map_example) 0 0 0 0
    <= px (using_thresh.mask_fn (1 # 10) score_map_example) 0 0 0 0 /\
  px (using_thresh.mask_fn using_thresh.default_thresh
        (using_thresh.mask_fn using_thresh.default_thresh score_map_example)) 0 1 0 0 =
  px (using_thresh.mask_fn using_thresh.default_thresh score_map_example) 0 1 0 0.
Proof.
  split.
  - apply (proj1 (using_mask_fn_monotone_idempotent score_map_example (1 # 10) (9 # 10))).
    discriminate.
  - apply (proj2 (using_mask_fn_monotone_idempotent score_map_example
                    using_thresh.default_thresh 0)); [reflexivity | discriminate].
Defined.

(** X14. The threshold of find-threshold mode depends only on the scores at
    the positions where the mask is positive: two score maps that agree
    there get the same threshold. *)
Theorem finding_threshold_ignores_background (pred pred' mask : ImageClass)
    (t t' : Q) (b b' : ImageClass) :
  finding_threshold.mask_fn pred mask true = Ok (Some t, b) ->
  finding_threshold.mask_fn pred' mask true = Ok (Some t', b') ->
  (forall n h w c, in_bounds mask n h w c -> 0 < px mask n h w c ->
     px pred n h w c = px pred' n h w c) ->
  t = t'.
Proof.
  intros H H' Hagree.
  apply finding_mask_fn_inv in H. destruct H as [sel [Hsel [Ht _]]].
  apply finding_mask_fn_inv in H'. destruct H' as [sel' [Hsel' [Ht' _]]].
  cbv zeta in Ht, Ht'.
  assert (E : sel = sel').
  { unfold take_where in Hsel, Hsel'.
    destruct (forallb (in_boundsb pred) _); [|discriminate].
    destruct (forallb (in_boundsb pred') _); [|discriminate].
    inversion Hsel. inversion Hsel'. apply map_ext_in.
    intros [[[n h] w] c] Hin. apply filter_In in Hin. destruct Hin as [Hin Hpos].
    cbn [at_index] in *. apply Hagree.
    - exact (proj1 (in_indices4 _ _ _ _ n h w c) Hin).
    - now apply Qltb_lt. }
  subst sel'. congruence.
Qed.

Lemma finding_threshold_ignores_background_witness :
  exists t t' b b',
    finding_threshold.mask_fn score_map_example top_mask_example true = Ok (Some t, b) /\
    finding_threshold.mask_fn score_map_variant top_mask_example true = Ok (Some t', b') /\
    t = t'.
Proof.
  exists (0 # 255), (0 # 255),
    (amap (fun v => b2q (Qltb (0 # 255) v) * 1) score_map_example),
    (amap (fun v => b2q (Qltb (0 # 255) v) * 1) score_map_variant).
  split; [reflexivity|]. split; [reflexivity|].
  refine (finding_threshold_ignores_background score_map_example score_map_variant
            top_mask_example _ _ _ _ eq_refl eq_refl _).
  intros n h w c [Hn [Hh [Hw Hc]]] Hpos. cbn in Hn, Hh, Hw, Hc.
  destruct n as [|n]; [|lia]. destruct c as [|c]; [|lia].
  destruct h as [|[|h]]; [| |lia]; (destruct w as [|[|w]]; [| |lia]);
    try reflexivity; vm_compute in Hpos; discriminate Hpos.
Defined.

(** X15. When the mask is positive at a position that lies outside the
    score map, the selection raises an index error, with or without
    [return_thresh]. *)
Theorem finding_mask_fn_out_of_bounds (pred mask : ImageClass) (return_thresh : bool)
    (n h w c : nat) :
  in_bounds mask n h w c -> 0 < px mask n h w c -> ~ in_bounds pred n h w c ->
  finding_threshold.mask_fn pred mask return_thresh =
  Raise (IndexError "index is out of bounds").
Proof.
  intros Hin Hpos Hout. unfold finding_threshold.mask_fn, take_where.
  destruct (forallb (in_boundsb pred)
              (filter (fun i => Qltb 0 (at_index mask i)) (indices mask))) eqn:E;
    [|reflexivity].
  exfalso. apply Hout. rewrite forallb_forall in E.
  apply in_boundsb_iff. apply E. apply filter_In. split.
  - exact (proj2 (in_indices4 _ _ _ _ n h w c) Hin).
  - cbn [at_index]. now apply Qltb_lt.
Qed.

Lemma finding_mask_fn_out_of_bounds_witness :
  finding_threshold.mask_fn boundary_map_example ones_mask_example true =
  Raise (IndexError "index is out of bounds").
Proof.
  apply (finding_mask_fn_out_of_bounds boundary_map_example ones_mask_example true
           0 1 0 0).
  - unfold in_bounds. cbn. lia.
  - reflexivity.
  - intros [_ [Hh _]]. cbn in Hh. lia.
Defined.

(** *** One-valued data *)

Lemma levels_split_at (k : nat) :
  (k <= 255)%nat ->
  levels = map Z.of_nat (seq 0 k) ++ Z.of_nat k :: map Z.of_nat (seq (S k) (255 - k)).
Proof.
  intro Hk. unfold levels.
  replace 256%nat with (k + S (255 - k))%nat by lia.
  rewrite seq_app, map_app. reflexivity.
Qed.

Lemma otsu_fold_single_bin (h : Z -> Z) (mu scale : Q) (before after : list Z)
    (v : Z) (n : nat) :
  Forall (fun i => h i = 0%Z) before ->
  Forall (fun i => h i = 0%Z) after ->
  h v = Z.of_nat n ->
  scale = 1 / inject_Z (Z.of_nat n) ->
  max_val (fold_left (otsu_step h mu scale) (before ++ v :: after) otsu_init) = 0%Z.
Proof.
  intros Hb Ha Hv Hscale.
  rewrite fold_left_app. cbn [fold_left].
  assert (Hinit : otsu_inv mu otsu_init) by (left; reflexivity).
  destruct (otsu_fold_zero_bins h mu scale before Hb otsu_init Hinit) as [Hv0 [Hq0 _]].
  revert Hv0 Hq0. generalize (fold_left (otsu_step h mu scale) before otsu_init).
  intros st0 Hv0 Hq0. cbn [max_val q1 otsu_init] in Hv0, Hq0.
  assert (Hskip : otsu_skip (Qred (q1 st0 + inject_Z (h v) * scale)) = true).
  { assert (Hq : Qred (q1 st0 + inject_Z (h v) * scale) == inject_Z (Z.of_nat n) * scale)
      by (rewrite Qred_correct, Hq0, Hv; ring).
    destruct n as [|n].
    - apply otsu_skip_at_0. rewrite Hq, Hscale. reflexivity.
    - apply otsu_skip_at_1. rewrite Hq, Hscale. field.
      intro E. unfold Qeq in E. cbn in E. lia. }
  pose proof (otsu_step_skipped h mu scale st0 v Hskip) as Hv1.
  pose proof (otsu_step_inv h mu scale st0 v) as Hinv1.
  revert Hv1 Hinv1. generalize (otsu_step h mu scale st0 v). intros st1 Hv1 Hinv1.
  destruct (otsu_fold_zero_bins h mu scale after Ha st1 Hinv1) as [Hv2 _].
  congruence.
Qed.

(** On data with a single level the search returns 0. *)
Lemma otsu_one_valued (src : list Z) (v : Z) :
  (0 <= v <= 255)%Z -> Forall (fun z => z = v) src -> getThreshVal_Otsu_8u src = 0%Z.
Proof.
  intros Hv Hsrc.
  assert (Hcount : histogram src v = Z.of_nat (List.length src) /\
                   forall i, i <> v -> histogram src i = 0%Z).
  { unfold histogram. induction Hsrc as [|z src Hz Hsrc [IH1 IH2]];
      [split; reflexivity|]. subst z. split.
    - rewrite count_occ_cons_eq by reflexivity. cbn [List.length]. lia.
    - intros i Hi. rewrite count_occ_cons_neq by congruence. now apply IH2. }
  destruct Hcount as [Hcv Hother].
  unfold getThreshVal_Otsu_8u.
  rewrite (levels_split_at (Z.to_nat v)) by lia.
  rewrite Z2Nat.id by lia.
  apply (otsu_fold_single_bin _ _ _ _ _ _ (List.length src)).
  - apply Forall_forall. intros i Hi. apply in_map_iff in Hi.
    destruct Hi as [k [<- Hk]]. apply in_seq in Hk. apply Hother. lia.
  - apply Forall_forall. intros i Hi. apply in_map_iff in Hi.
    destruct Hi as [k [<- Hk]]. apply in_seq in Hk. apply Hother. lia.
  - exact Hcv.
  - reflexivity.
Qed.

(** X16. When all the scores inside the mask share one 8-bit level (or the
    mask selects nothing), the threshold returned is 0 and the binary map
    marks exactly the strictly positive scores. *)
Theorem finding_mask_fn_constant_region (pred mask : ImageClass) (v : Z)
    (t : Q) (b : ImageClass) :
  finding_threshold.mask_fn pred mask true = Ok (Some t, b) ->
  (forall n h w c, in_bounds mask n h w c -> 0 < px mask n h w c ->
     astype_uint8 (px pred n h w c * 255) = v) ->
  t == 0 /\ forall n h w c, px b n h w c = 1 <-> 0 < px pred n h w c.
Proof.
  intros H Hconst.
  pose proof (finding_mask_fn_pixel _ _ _ _ H) as Hpx.
  apply finding_mask_fn_inv in H. destruct H as [sel [Hsel [Ht _]]].
  cbv zeta in Ht.
  assert (Ht' : t = inject_Z (getThreshVal_Otsu_8u
                               (map (fun x => astype_uint8 (x * 255)) sel)) / 255)
    by congruence.
  clear Ht.
  assert (Hall : Forall (fun z => z = Z.modulo v 256)
                   (map (fun x => astype_uint8 (x * 255)) sel)).
  { unfold take_where in Hsel.
    destruct (forallb (in_boundsb pred) _); [|discriminate].
    inversion Hsel. apply Forall_forall. intros z Hz.
    rewrite map_map in Hz. apply in_map_iff in Hz.
    destruct Hz as [[[[n h] w] c] [<- Hin]]. apply filter_In in Hin.
    destruct Hin as [Hin Hpos]. cbn [at_index] in *.
    pose proof (Hconst n h w c (proj1 (in_indices4 _ _ _ _ n h w c) Hin)
                  (proj1 (Qltb_lt _ _) Hpos)) as Hc.
    rewrite <- Hc. unfold astype_uint8. symmetry. apply Zmod_mod. }
  assert (Hotsu : getThreshVal_Otsu_8u (map (fun x => astype_uint8 (x * 255)) sel) = 0%Z).
  { apply (otsu_one_valued _ (Z.modulo v 256)); [|exact Hall].
    pose proof (Z.mod_pos_bound v 256). lia. }
  rewrite Hotsu in Ht'.
  assert (E : t == 0) by (rewrite Ht'; reflexivity).
  split; [exact E|].
  intros n h w c. rewrite Hpx, b2q_one, Qltb_lt. now rewrite E.
Qed.

Lemma finding_mask_fn_constant_region_witness :
  (0 # 255) == 0 /\
  (px (amap (fun x => b2q (Qltb (0 # 255) x) * 1) score_map_example) 0 1 0 0 = 1 <->
   0 < px score_map_example 0 1 0 0).
Proof.
  destruct (finding_mask_fn_constant_region score_map_example top_mask_example 229%Z
              (0 # 255) (amap (fun x => b2q (Qltb (0 # 255) x) * 1) score_map_example)
              eq_refl) as [H1 H2].
  - intros n h w c [Hn [Hh [Hw Hc]]] Hpos. cbn in Hn, Hh, Hw, Hc.
    destruct n as [|n]; [|lia]. destruct c as [|c]; [|lia].
    destruct h as [|[|h]]; [| |lia]; (destruct w as [|[|w]]; [| |lia]);
      try reflexivity; vm_compute in Hpos; discriminate Hpos.
  - split; [exact H1 | exact (H2 0 1 0 0)%nat].
Defined.

(** ** The list of files of an evaluator *)

Lemma substring_append_suffix (p suffix : string) :
  substring (String.length p) (String.length suffix) (p ++ suffix) = suffix.
Proof.
  induction p as [|a p IH]; cbn [String.length append substring].
  - induction suffix as [|a s IH]; cbn [String.length substring]; [reflexivity|].
    now rewrite IH.
  - exact IH.
Qed.

Lemma length_append (p s : string) :
  String.length (p ++ s) = (String.length p + String.length s)%nat.
Proof. induction p as [|a p IH]; cbn [String.length append]; [reflexivity | now rewrite IH]. Qed.

Lemma substring_split (s : string) (k : nat) :
  (k <= String.length s)%nat ->
  s = (substring 0 k s ++ substring k (String.length s - k) s)%string.
Proof.
  revert k. induction s as [|a s IH]; intros k Hk; cbn [String.length] in *.
  - assert (k = 0%nat) by lia. subst k. reflexivity.
  - destruct k as [|k].
    + cbn [substring append Nat.sub]. f_equal.
      clear. induction s as [|b s IH]; cbn [String.length substring]; [reflexivity|].
      now rewrite <- IH.
    + cbn [substring append Nat.sub]. f_equal. apply IH. lia.
Qed.

Lemma endswith_iff (file_name suffix : string) :
  endswith file_name suffix = true <-> exists p, file_name = (p ++ suffix)%string.
Proof.
  unfold endswith. rewrite andb_true_iff, Nat.leb_le, String.eqb_eq. split.
  - intros [Hle Hsub].
    exists (substring 0 (String.length file_name - String.length suffix) file_name).
    assert (Hk : (String.length file_name - String.length suffix
                  <= String.length file_name)%nat) by lia.
    pose proof (substring_split file_name _ Hk) as Hsplit.
    replace (String.length file_name - (String.length file_name - String.length suffix))%nat
      with (String.length suffix) in Hsplit by lia.
    rewrite Hsub in Hsplit. exact Hsplit.
  - intros [p ->]. rewrite length_append. split; [lia|].
    replace (String.length p + String.length suffix - String.length suffix)%nat
      with (String.length p) by lia.
    apply substring_append_suffix.
Qed.



(** ** More on [evaluate_images] *)

Lemma evaluate_images_run (np_load : string -> result ImageClass)
    (np_mean np_std : list cell -> Q) (self : BratsEvaluator) (output_dir : string)
    (w0 : world) :
  In "AUROC_WT"%string (dict_keys (metrics self)) ->
  Forall (fun f => exists m, sample_metrics np_load self f = Ok m) (data_files self) ->
  let kept := kept_samples np_load self (data_files self) in
  let header := ("file_name" :: "threshold" :: dict_keys (metrics self))%string in
  let agg := map (fun kv => (fst kv, (np_mean (column (fst kv) kept),
                                      np_std (column (fst kv) kept))))
                 (empty_lists (metrics self)) in
  evaluate_images np_load np_mean np_std self output_dir true w0 =
    (Ok agg, Some (mkCsv header (map (row_of header) kept) true)) /\
  evaluate_images np_load np_mean np_std self output_dir false w0 = (Ok agg, w0).
Proof.
  intros Hauroc Hfiles kept header agg.
  assert (Hkeys : forall key, In key (dict_keys (empty_lists (metrics self))) ->
                              In key (dict_keys (metrics self)))
    by (intros key Hk; now apply empty_lists_keys).
  assert (Hagg : map (fun kv => (fst kv, (np_mean (snd kv), np_std (snd kv))))
                   (map (fun kv => (fst kv, snd kv ++ column (fst kv) kept))
                        (empty_lists (metrics self))) = agg).
  { unfold agg. rewrite map_map. apply map_ext_in. intros [key l] Hin. cbn [fst snd].
    pose proof (empty_lists_empty (metrics self)) as He.
    rewrite Forall_forall in He. specialize (He _ Hin). cbn [snd] in He. now subst l. }
  unfold evaluate_images. split.
  - unfold bind at 1, open_csv at 1. unfold bind at 1.
    rewrite (evaluate_loop_spec np_load self true Hauroc (data_files self) Hfiles _ _ Hkeys).
    fold kept. cbn [write_rows fieldnames rows closed app].
    unfold bind at 1, close_csv at 1, ret. cbn [fieldnames rows closed].
    now rewrite Hagg.
  - unfold bind at 1, ret at 1. unfold bind at 1.
    rewrite (evaluate_loop_spec np_load self false Hauroc (data_files self) Hfiles _ _ Hkeys).
    fold kept. unfold bind at 1, ret. now rewrite Hagg.
Qed.

(** X18. The aggregate [evaluate_images] returns is the same with and without
    [store_data]; without it the output file is not touched. *)
Theorem evaluate_images_store_data_independent
    (np_load : string -> result ImageClass) (np_mean np_std : list cell -> Q)
    (self : BratsEvaluator) (output_dir : string) (w0 : world) :
  In "AUROC_WT"%string (dict_keys (metrics self)) ->
  Forall (fun f => exists m, sample_metrics np_load self f = Ok m) (data_files self) ->
  exists agg csv,
    evaluate_images np_load np_mean np_std self output_dir true w0 = (Ok agg, Some csv) /\
    evaluate_images np_load np_mean np_std self output_dir false w0 = (Ok agg, w0).
Proof.
  intros Hauroc Hfiles.
  destruct (evaluate_images_run np_load np_mean np_std self output_dir w0 Hauroc Hfiles)
    as [H1 H2].
  eexists _, _. split; [exact H1 | exact H2].
Qed.

Lemma evaluate_images_store_data_independent_witness :
  exists agg csv,
    evaluate_images np_load_example np_mean_example np_std_example
      (evaluator_example directory_example) "out" true None = (Ok agg, Some csv) /\
    evaluate_images np_load_example np_mean_example np_std_example
      (evaluator_example directory_example) "out" false None = (Ok agg, None).
Proof.
  apply evaluate_images_store_data_independent.
  - cbn. auto.
  - apply Forall_forall. intros f Hf. vm_compute in Hf.
    destruct Hf as [<- | [<- | [<- | []]]]; eexists; vm_compute; reflexivity.
Defined.

Lemma kept_samples_all_flagged (np_load : string -> result ImageClass)
    (self : BratsEvaluator) (files : list string) :
  Forall (fun f => exists m, sample_metrics np_load self f = Ok m /\
                             sentinel_flagged m = true) files ->
  kept_samples np_load self files = [].
Proof.
  induction 1 as [|f files [m [Hm Hflag]] Hrest IH]; [reflexivity|].
  rewrite (kept_samples_cons np_load self f files m Hm), Hflag. exact IH.
Qed.

(** X19. When every sample of the directory is flagged by the sentinel (in
    particular when the directory has no sample), the table holds its header
    and no row, and every aggregate is the mean and the deviation of the
    empty list. *)
Theorem evaluate_images_all_flagged
    (np_load : string -> result ImageClass) (np_mean np_std : list cell -> Q)
    (self : BratsEvaluator) (output_dir : string) (w0 : world) :
  In "AUROC_WT"%string (dict_keys (metrics self)) ->
  Forall (fun f => exists m, sample_metrics np_load self f = Ok m /\
                             sentinel_flagged m = true) (data_files self) ->
  evaluate_images np_load np_mean np_std self output_dir true w0 =
  (Ok (map (fun kv => (fst kv, (np_mean [], np_std []))) (empty_lists (metrics self))),
   Some (mkCsv ("file_name" :: "threshold" :: dict_keys (metrics self))%string [] true)).
Proof.
  intros Hauroc Hfiles.
  assert (Hok : Forall (fun f => exists m, sample_metrics np_load self f = Ok m)
                  (data_files self))
    by (eapply Forall_impl; [|exact Hfiles]; intros f [m [H _]]; now exists m).
  destruct (evaluate_images_run np_load np_mean np_std self output_dir w0 Hauroc Hok)
    as [H1 _].
  rewrite H1, (kept_samples_all_flagged np_load self _ Hfiles). reflexivity.
Qed.

Lemma evaluate_images_all_flagged_witness :
  evaluate_images np_load_example np_mean_example np_std_example
    (evaluator_example ["b.npy"; "readme.md"]%string) "out" true None =
  (Ok (map (fun kv => (fst kv, (np_mean_example [], np_std_example [])))
           (empty_lists metrics_example)),
   Some (mkCsv ["file_name"; "threshold"; "DICE_WT"; "AUROC_WT"]%string [] true)).
Proof.
  apply (evaluate_images_all_flagged np_load_example np_mean_example np_std_example
           (evaluator_example ["b.npy"; "readme.md"]%string) "out" None).
  - cbn. auto.
  - apply Forall_forall. intros f Hf. vm_compute in Hf.
    destruct Hf as [<- | []]. eexists. split; vm_compute; reflexivity.
Defined.

Lemma eval_metrics_keys_only (ms : list (string * metric_fn)) (seg pred : ImageClass) :
  forall acc m,
    eval_metrics ms seg pred acc = Ok m ->
    forall k, dict_get k m <> None -> In k (dict_keys ms) \/ dict_get k acc <> None.
Proof.
  induction ms as [|[k' fn] ms IH]; intros acc m H k Hk; cbn [eval_metrics] in H.
  - inversion H. subst m. now right.
  - destruct (fn seg pred) as [v|e]; cbn [rbind] in H; [|discriminate].
    destruct (IH _ _ H k Hk) as [Hin | Hacc]; [left; now right|].
    destruct (string_dec k k') as [-> | Hne]; [left; now left|].
    right. now rewrite dict_get_set_other in Hacc.
Qed.

(** X20. Without a metric registered under the name AUROC_WT,
    [evaluate_images] computes all metrics of the first file and then raises
    the key error of the sentinel test; with [store_data] the output file
    holds the header only and is left open. *)
Theorem evaluate_images_needs_auroc
    (np_load : string -> result ImageClass) (np_mean np_std : list cell -> Q)
    (self : BratsEvaluator) (output_dir : string) (w0 : world)
    (f : string) (rest : list string) (m : list (string * cell)) :
  ~ In "AUROC_WT"%string (dict_keys (metrics self)) ->
  data_files self = f :: rest ->
  sample_metrics np_load self f = Ok m ->
  evaluate_images np_load np_mean np_std self output_dir true w0 =
    (Raise (KeyError "AUROC_WT"),
     Some (mkCsv ("file_name" :: "threshold" :: dict_keys (metrics self))%string [] false)) /\
  evaluate_images np_load np_mean np_std self output_dir false w0 =
    (Raise (KeyError "AUROC_WT"), w0).
Proof.
  intros Hno Hfiles Hm. unfold sample_metrics in Hm.
  destruct (np_load (path_join (data_folder self) f)) as [data|] eqn:Eload;
    cbn [rbind] in Hm; [|discriminate].
  destruct (split_sample data) as [[[img seg] pred]|] eqn:Esplit;
    cbn [rbind] in Hm; [|discriminate].
  destruct (nonzero_masking img pred false) as [masked|] eqn:Emask;
    cbn [rbind] in Hm; [|discriminate].
  destruct (eval_metrics (metrics self) seg (fst masked) []) as [m0|] eqn:Eeval;
    cbn [rbind] in Hm; [|discriminate].
  assert (Hnone : dict_get "AUROC_WT" (dict_set "file_name" (Str f) m0) = None).
  { rewrite dict_get_set_other by discriminate.
    destruct (dict_get "AUROC_WT" m0) eqn:E; [|reflexivity].
    exfalso.
    destruct (eval_metrics_keys_only _ _ _ _ _ Eeval "AUROC_WT"%string) as [H | H];
      [rewrite E; discriminate | contradiction | now apply H]. }
  unfold evaluate_images. rewrite Hfiles. split.
  - unfold bind at 1, open_csv at 1. unfold bind at 1. cbn [evaluate_loop].
    unfold bind at 1, lift at 1. rewrite Eload.
    unfold bind at 1, lift at 1. rewrite Esplit.
    unfold bind at 1, lift at 1. rewrite Emask.
    unfold bind at 1, lift at 1. rewrite Eeval.
    unfold bind at 1, lift at 1, dict_item. rewrite Hnone. reflexivity.
  - unfold bind at 1, ret at 1. unfold bind at 1. cbn [evaluate_loop].
    unfold bind at 1, lift at 1. rewrite Eload.
    unfold bind at 1, lift at 1. rewrite Esplit.
    unfold bind at 1, lift at 1. rewrite Emask.
    unfold bind at 1, lift at 1. rewrite Eeval.
    unfold bind at 1, lift at 1, dict_item. rewrite Hnone. reflexivity.
Qed.

Lemma evaluate_images_needs_auroc_witness :
  fst (evaluate_images np_load_example np_mean_example np_std_example
         dice_only_evaluator_example "out" false None) = Raise (KeyError "AUROC_WT").
Proof.
  assert (Hm : exists m, sample_metrics np_load_example dice_only_evaluator_example "a.npy"
                         = Ok m) by (eexists; vm_compute; reflexivity).
  destruct Hm as [m Hm].
  destruct (evaluate_images_needs_auroc np_load_example np_mean_example np_std_example
              dice_only_evaluator_example "out" None "a.npy" [] m) as [_ H].
  - cbn. intros [H | []]. discriminate H.
  - reflexivity.
  - exact Hm.
  - now rewrite H.
Defined.

(** ** The method [finding_threshold] *)

(** X21. An evaluator built without a masking function cannot find
    thresholds: on a directory with at least one sample the method never
    returns a result. *)
Theorem finding_threshold_needs_mask_fn
    (np_load : string -> result ImageClass) (np_mean np_std : list cell -> Q)
    (np_percentile : ImageClass -> Q -> Q) (self : BratsEvaluator) :
  mask_fn self = None -> data_files self <> [] ->
  exists e, finding_threshold_method np_load np_mean np_std np_percentile self = Raise e.
Proof.
  intros Hnone Hfiles. unfold finding_threshold_method. rewrite Hnone.
  destruct (data_files self) as [|f rest]; [congruence|].
  assert (H : forall metrics mi mm, exists e,
             finding_loop np_load np_percentile (data_folder self) None (f :: rest)
               metrics mi mm = Raise e).
  { intros metrics mi mm. cbn [finding_loop]. unfold rbind.
    repeat first
      [ solve [eauto]
      | match goal with
        | |- context [match ?x with _ => _ end] => destruct x
        end ]. }
  destruct (H (metrics self) (dict_set "threshold" [] (empty_lists (metrics self)))
              (mkMaxMin 0 None 0 1 None 0)) as [e He].
  rewrite He. cbn [rbind]. eauto.
Qed.

Lemma finding_threshold_needs_mask_fn_witness :
  exists e,
    finding_threshold_method np_load_example np_mean_example np_std_example
      (fun _ _ => 0) (evaluator_example directory_example) = Raise e.
Proof.
  apply finding_threshold_needs_mask_fn; [reflexivity|].
  vm_compute. discriminate.
Defined.

Lemma tracks_refl (files : list string) (mm : max_min) : tracks files mm mm.
Proof.
  unfold tracks. split; [apply Qle_refl|]. split; [apply Qle_refl|].
  split; left; repeat split.
Qed.

Lemma tracks_weaken (l l' : list string) (a b : max_min) :
  (forall f, In f l -> In f l') -> tracks l a b -> tracks l' a b.
Proof.
  intros Hsub [H1 [H2 [H3 H4]]]. unfold tracks.
  split; [exact H1|]. split; [exact H2|]. split.
  - destruct H3 as [H3 | [f [Hf H3]]]; [now left | right; exists f; split; auto].
  - destruct H4 as [H4 | [f [Hf H4]]]; [now left | right; exists f; split; auto].
Qed.

Lemma tracks_trans (l1 l2 : list string) (a b c : max_min) :
  tracks l1 a b -> tracks l2 b c -> tracks (l1 ++ l2) a c.
Proof.
  intros [A1 [A2 [A3 A4]]] [B1 [B2 [B3 B4]]]. unfold tracks.
  split; [eapply Qle_trans; eassumption|].
  split; [eapply Qle_trans; eassumption|].
  split.
  - destruct B3 as [[E1 [E2 E3]] | [f [Hf [Ef Hlt]]]].
    + destruct A3 as [[F1 [F2 F3]] | [f [Hf [Ef Hlt]]]].
      * left. repeat split; congruence.
      * right. exists f. split; [apply in_or_app; now left|].
        split; [congruence | now rewrite E1].
    + right. exists f. split; [apply in_or_app; now right|].
      split; [exact Ef | eapply Qle_lt_trans; eassumption].
  - destruct B4 as [[E1 [E2 E3]] | [f [Hf [Ef Hlt]]]].
    + destruct A4 as [[F1 [F2 F3]] | [f [Hf [Ef Hlt]]]].
      * left. repeat split; congruence.
      * right. exists f. split; [apply in_or_app; now left|].
        split; [congruence | now rewrite E1].
    + right. exists f. split; [apply in_or_app; now right|].
      split; [exact Ef | eapply Qlt_le_trans; eassumption].
Qed.

(** The two [if] of the loop body that update [max_min_dict]. *)
Lemma tracks_update (f : string) (dice thresh : Q) (mm : max_min) :
  tracks [f] mm
    (if Qltb dice
          (min_DICE
             (if Qltb (max_DICE mm) dice
              then mkMaxMin dice (Some f) thresh (min_DICE mm) (min_DICE_file mm)
                     (min_DICE_thresh mm)
              else mm))
     then
       mkMaxMin
         (max_DICE
            (if Qltb (max_DICE mm) dice
             then mkMaxMin dice (Some f) thresh (min_DICE mm) (min_DICE_file mm)
                    (min_DICE_thresh mm)
             else mm))
         (max_DICE_file
            (if Qltb (max_DICE mm) dice
             then mkMaxMin dice (Some f) thresh (min_DICE mm) (min_DICE_file mm)
                    (min_DICE_thresh mm)
             else mm))
         (max_DICE_thresh
            (if Qltb (max_DICE mm) dice
             then mkMaxMin dice (Some f) thresh (min_DICE mm) (min_DICE_file mm)
                    (min_DICE_thresh mm)
             else mm))
         dice (Some f) thresh
     else
       if Qltb (max_DICE mm) dice
       then mkMaxMin dice (Some f) thresh (min_DICE mm) (min_DICE_file mm)
              (min_DICE_thresh mm)
       else mm).
Proof.
  unfold tracks.
  destruct (Qltb (max_DICE mm) dice) eqn:Emax; cbn [min_DICE];
    destruct (Qltb dice (min_DICE mm)) eqn:Emin;
    cbn [max_DICE max_DICE_file max_DICE_thresh min_DICE min_DICE_file min_DICE_thresh];
    try apply Qltb_lt in Emax; try apply Qltb_lt in Emin;
    repeat split;
    try apply Qle_refl; try (now apply Qlt_le_weak);
    try (left; repeat split; reflexivity);
    try (right; exists f; split; [now left | split; [reflexivity | assumption]]).
Qed.

Ltac step_finding_loop H :=
  repeat (cbv zeta in H;
          lazymatch type of H with
          | finding_loop _ _ _ _ _ _ _ _ = _ => fail
          | context [match ?x with _ => _ end] => destruct x eqn:?; try discriminate H
          end).

Lemma finding_loop_tracks (np_load : string -> result ImageClass)
    (np_percentile : ImageClass -> Q -> Q) (folder : string) (sel : option selector) :
  forall files metrics mi mm mi' mm',
    finding_loop np_load np_percentile folder sel files metrics mi mm = Ok (mi', mm') ->
    tracks files mm mm'.
Proof.
  induction files as [|f files IH]; intros metrics mi mm mi' mm' H.
  - cbn [finding_loop] in H. inversion H. apply tracks_refl.
  - cbn [finding_loop] in H. unfold rbind in H. step_finding_loop H.
    + apply (tracks_weaken files); [intros; now right|]. exact (IH _ _ _ _ _ H).
    + change (f :: files) with ([f] ++ files).
      eapply tracks_trans; [|exact (IH _ _ _ _ _ H)]. apply tracks_update.
Qed.

Lemma append_all_keys (mi : list (string * list cell)) (m : list (string * cell)) :
  forall mi1, append_all mi m = Ok mi1 ->
    dict_keys mi1 = dict_keys mi /\
    forall n, Forall (fun kv => List.length (snd kv) = n) mi ->
              Forall (fun kv => List.length (snd kv) = S n) mi1.
Proof.
  induction mi as [|[key l] mi IH]; intros mi1 H; cbn [append_all] in H.
  - inversion H. split; [reflexivity | constructor].
  - unfold rbind in H.
    destruct (dict_item key m) as [v|]; [|discriminate].
    destruct (append_all mi m) as [rest|]; [|discriminate].
    inversion H. destruct (IH rest eq_refl) as [Hk Hl]. split.
    + cbn [dict_keys map fst]. f_equal. exact Hk.
    + intros n Hn. inversion Hn as [|x xs Hx Hxs]. subst. constructor.
      * cbn [snd] in *. rewrite length_app. cbn [List.length]. lia.
      * now apply Hl.
Qed.

Lemma finding_loop_keys (np_load : string -> result ImageClass)
    (np_percentile : ImageClass -> Q -> Q) (folder : string) (sel : option selector) :
  forall files metrics mi mm mi' mm',
    finding_loop np_load np_percentile folder sel files metrics mi mm = Ok (mi', mm') ->
    dict_keys mi' = dict_keys mi.
Proof.
  induction files as [|f files IH]; intros metrics mi mm mi' mm' H.
  - cbn [finding_loop] in H. now inversion H.
  - cbn [finding_loop] in H. unfold rbind in H. step_finding_loop H.
    + exact (IH _ _ _ _ _ H).
    + rewrite (IH _ _ _ _ _ H).
      match goal with
      | E : append_all mi _ = Ok _ |- _ => exact (proj1 (append_all_keys _ _ _ E))
      end.
Qed.

(** X22. The extrema [finding_threshold] reports: the maximal Dice is at least
    its initial value 0 and the minimal Dice at most its initial value 1; a
    file is reported for the maximum only if it is a file of the directory
    whose Dice is positive, and without such a file the maximum and its
    threshold stay 0; likewise a file is reported for the minimum only if its
    Dice is below 1. *)
Theorem finding_threshold_extrema
    (np_load : string -> result ImageClass) (np_mean np_std : list cell -> Q)
    (np_percentile : ImageClass -> Q -> Q) (self : BratsEvaluator)
    (agg : list (string * (Q * Q))) (mm : max_min) :
  finding_threshold_method np_load np_mean np_std np_percentile self = Ok (agg, mm) ->
  0 <= max_DICE mm /\ min_DICE mm <= 1 /\
  (max_DICE_file mm = None -> max_DICE mm = 0 /\ max_DICE_thresh mm = 0) /\
  (forall f, max_DICE_file mm = Some f -> In f (data_files self) /\ 0 < max_DICE mm) /\
  (min_DICE_file mm = None -> min_DICE mm = 1 /\ min_DICE_thresh mm = 0) /\
  (forall f, min_DICE_file mm = Some f -> In f (data_files self) /\ min_DICE mm < 1).
Proof.
  unfold finding_threshold_method. intro H.
  destruct (finding_loop _ _ _ _ _ _ _ _) as [[mi' mm']|] eqn:E; cbn [rbind] in H;
    [|discriminate].
  injection H as Hagg Hmm. subst mm'.
  apply finding_loop_tracks in E. destruct E as [T1 [T2 [H3 H4]]].
  cbn [max_DICE min_DICE max_DICE_file min_DICE_file max_DICE_thresh min_DICE_thresh]
    in T1, T2, H3, H4.
  split; [exact T1|]. split; [exact T2|].
  split; [|split; [|split]].
  - intro Hnone. destruct H3 as [[E1 [_ E3]] | [f [_ [Ef _]]]]; [auto | congruence].
  - intros f Hf. destruct H3 as [[_ [E2 _]] | [f' [Hin [Ef Hlt]]]]; [congruence|].
    assert (f' = f) by congruence. subst f'. auto.
  - intro Hnone. destruct H4 as [[E1 [_ E3]] | [f [_ [Ef _]]]]; [auto | congruence].
  - intros f Hf. destruct H4 as [[_ [E2 _]] | [f' [Hin [Ef Hlt]]]]; [congruence|].
    assert (f' = f) by congruence. subst f'. auto.
Qed.

(** X23. The aggregate of [finding_threshold] has one entry for each metric
    registered when the method is called, in their order, and an entry
    "threshold"; the DICE_WT metric the loop registers itself gets an entry
    only if a metric of that name was registered before. *)
Theorem finding_threshold_columns
    (np_load : string -> result ImageClass) (np_mean np_std : list cell -> Q)
    (np_percentile : ImageClass -> Q -> Q) (self : BratsEvaluator)
    (agg : list (string * (Q * Q))) (mm : max_min) :
  finding_threshold_method np_load np_mean np_std np_percentile self = Ok (agg, mm) ->
  dict_keys agg = dict_keys (dict_set "threshold" [] (empty_lists (metrics self))) /\
  In "threshold"%string (dict_keys agg) /\
  (forall key, In key (dict_keys agg) ->
     key = "threshold"%string \/ In key (dict_keys (metrics self))).
Proof.
  unfold finding_threshold_method. intro H.
  destruct (finding_loop _ _ _ _ _ _ _ _) as [[mi' mm']|] eqn:E; cbn [rbind] in H;
    [|discriminate].
  injection H as Hagg Hmm. subst mm' agg.
  apply finding_loop_keys in E.
  assert (Hk : dict_keys (map (fun kv : string * list cell =>
                                 (fst kv, (np_mean (snd kv), np_std (snd kv)))) mi') =
               dict_keys (dict_set "threshold" [] (empty_lists (metrics self)))).
  { rewrite <- E. unfold dict_keys. rewrite map_map. reflexivity. }
  cbn [fst]. split; [exact Hk|]. rewrite Hk. split.
  - assert (G : dict_get "threshold"
                  (dict_set "threshold" ([] : list cell) (empty_lists (metrics self)))
                <> None) by (rewrite dict_get_set_same; discriminate).
    revert G. generalize (dict_set "threshold" ([] : list cell) (empty_lists (metrics self))).
    intro d. induction d as [|[k v] d IH]; cbn [dict_get dict_keys map fst In];
      [congruence|].
    destruct (String.eqb_spec "threshold" k) as [<- | Hne]; [now left|].
    intro G. right. now apply IH.
  - intros key Hin. apply dict_keys_set in Hin. destruct Hin as [-> | Hin]; [now left|].
    right. now apply empty_lists_keys.
Qed.

Lemma finding_threshold_extrema_witness :
  exists agg mm,
    finding_threshold_method np_load_example np_mean_example np_std_example
      np_percentile_example finding_evaluator_example = Ok (agg, mm) /\
    0 <= max_DICE mm /\ min_DICE mm <= 1.
Proof.
  assert (H : exists agg mm,
             finding_threshold_method np_load_example np_mean_example np_std_example
               np_percentile_example finding_evaluator_example = Ok (agg, mm))
    by (eexists _, _; vm_compute; reflexivity).
  destruct H as [agg [mm H]]. exists agg, mm. split; [exact H|].
  destruct (finding_threshold_extrema _ _ _ _ _ _ _ H) as [H1 [H2 _]]. auto.
Defined.

Lemma finding_threshold_columns_witness :
  exists agg mm,
    finding_threshold_method np_load_example np_mean_example np_std_example
      np_percentile_example finding_evaluator_example = Ok (agg, mm) /\
    In "threshold"%string (dict_keys agg).
Proof.
  assert (H : exists agg mm,
             finding_threshold_method np_load_example np_mean_example np_std_example
               np_percentile_example finding_evaluator_example = Ok (agg, mm))
    by (eexists _, _; vm_compute; reflexivity).
  destruct H as [agg [mm H]]. exists agg, mm. split; [exact H|].
  exact (proj1 (proj2 (finding_threshold_columns _ _ _ _ _ _ _ H))).
Defined.

(** * The sampling driver and the plots *)

Lemma clamp_range (lo hi x : Q) : lo <= hi -> lo <= clamp lo hi x /\ clamp lo hi x <= hi.
Proof.
  intros H. unfold clamp. split.
  - apply Q.min_glb; [apply Q.le_max_r | exact H].
  - apply Q.le_min_r.
Qed.

Lemma clamp_mono (lo hi x y : Q) : x <= y -> clamp lo hi x <= clamp lo hi y.
Proof.
  intros H. unfold clamp.
  apply Q.min_le_compat_r. apply Q.max_le_compat_r. exact H.
Qed.

Lemma clamp_low (lo hi x : Q) : lo <= hi -> x <= lo -> clamp lo hi x == lo.
Proof.
  intros H Hx. unfold clamp. rewrite (Q.max_r x lo) by exact Hx.
  apply Q.min_l. exact H.
Qed.

Lemma clamp_high (lo hi x : Q) : lo <= hi -> hi <= x -> clamp lo hi x == hi.
Proof.
  intros H Hx. unfold clamp. apply Q.min_r.
  apply Qle_trans with x; [exact Hx | apply Q.le_max_l].
Qed.

Lemma clamp_inside (lo hi x : Q) : lo <= x -> x <= hi -> clamp lo hi x == x.
Proof.
  intros H1 H2. unfold clamp. rewrite (Q.max_l x lo) by exact H1.
  apply Q.min_l. exact H2.
Qed.

Lemma astype_uint8_floor (q : Q) : 0 <= q -> q <= 255 -> astype_uint8 q = Qfloor q.
Proof.
  intros H0 H1. unfold astype_uint8.
  assert (Hn : (0 <= Qnum q)%Z) by (unfold Qle in H0; cbn in H0; lia).
  rewrite Z.quot_div_nonneg by lia.
  assert (Hf : Qfloor q = (Qnum q / Zpos (Qden q))%Z) by (destruct q; reflexivity).
  rewrite <- Hf.
  apply Z.mod_small. split.
  - change 0%Z with (Qfloor 0). apply Qfloor_resp_le. exact H0.
  - apply Z.le_lt_trans with (Qfloor 255); [apply Qfloor_resp_le; exact H1|].
    vm_compute. reflexivity.
Qed.

Lemma astype_uint8_proper (p q : Q) : 0 <= p -> p <= 255 -> p == q -> astype_uint8 p = astype_uint8 q.
Proof.
  intros H0 H1 E. rewrite (astype_uint8_floor p H0 H1).
  rewrite (astype_uint8_floor q) by (rewrite <- E; assumption).
  apply Qfloor_comp. exact E.
Qed.

(** X24. [float2uint] keeps the shape and turns every element into a whole
    number between 0 and 255 without wrapping around: the scaled value (the
    element plus 1, times 127.5, with [rescale]; the element itself without)
    is sent to 0 when it is at most 0, to 255 when it is at least 255, and to
    its integer part in between; a larger element never gets a smaller
    byte. *)
Theorem float2uint_saturates (input : ImageClass) (rescale : bool) :
  shape (float2uint input rescale) = shape input /\
  (forall n h w c,
     let s := if rescale then (px input n h w c + 1) * (255 # 2) else px input n h w c in
     exists z : Z,
       px (float2uint input rescale) n h w c = inject_Z z /\
       (0 <= z <= 255)%Z /\
       (s <= 0 -> z = 0%Z) /\ (255 <= s -> z = 255%Z) /\
       (0 <= s -> s <= 255 -> z = Qfloor s)) /\
  (forall n h w c n' h' w' c',
     px input n h w c <= px input n' h' w' c' ->
     px (float2uint input rescale) n h w c <= px (float2uint input rescale) n' h' w' c').
Proof.
  assert (R : 0 <= 255) by discriminate.
  split; [destruct rescale; reflexivity|]. split.
  - intros n h w c s.
    exists (astype_uint8 (clamp 0 255 s)).
    split; [subst s; destruct rescale; reflexivity|].
    split; [apply astype_uint8_range|].
    destruct (clamp_range 0 255 s R) as [C0 C1].
    split; [|split].
    + intro Hs. rewrite (astype_uint8_proper _ 0 C0 C1); [reflexivity|].
      apply clamp_low; assumption.
    + intro Hs. rewrite (astype_uint8_proper _ 255 C0 C1); [reflexivity|].
      apply clamp_high; assumption.
    + intros H0 H1. rewrite (astype_uint8_proper _ s C0 C1).
      * apply astype_uint8_floor; assumption.
      * apply clamp_inside; assumption.
  - intros n h w c n' h' w' c' H.
    assert (M : forall x y, x <= y ->
              inject_Z (astype_uint8 (clamp 0 255 x)) <= inject_Z (astype_uint8 (clamp 0 255 y))).
    { intros x y Hxy. rewrite <- Zle_Qle.
      destruct (clamp_range 0 255 x R) as [X0 X1].
      destruct (clamp_range 0 255 y R) as [Y0 Y1].
      rewrite (astype_uint8_floor _ X0 X1), (astype_uint8_floor _ Y0 Y1).
      apply Qfloor_resp_le. apply clamp_mono. exact Hxy. }
    destruct rescale; cbn [float2uint amap px]; apply M; [|exact H].
    apply Qmult_le_compat_r; [|discriminate].
    apply Qplus_le_compat; [exact H | apply Qle_refl].
Qed.

Lemma float2uint_saturates_witness :
  (exists z : Z,
     px (float2uint img_batch_example true) 0 0 0 3 = inject_Z z /\ z = 255%Z) /\
  px (float2uint generated_example true) 0 0 0 0 <= px (float2uint generated_example true) 1 0 0 0.
Proof.
  split.
  - destruct (proj1 (proj2 (float2uint_saturates img_batch_example true)) 0 0 0 3)%nat
      as [z [Hz [_ [_ [H255 _]]]]].
    exists z. split; [exact Hz|]. apply H255. cbn. discriminate.
  - apply (proj2 (proj2 (float2uint_saturates generated_example true))).
    cbn. discriminate.
Defined.

Lemma split_sample_nine (data : ImageClass) :
  dimN data = 1%nat -> dimC data = 9%nat ->
  exists img seg pred,
    split_sample data = Ok (img, seg, pred) /\
    (kind img = kind data /\ kind seg = kind data /\ kind pred = kind data) /\
    shape img = (1%nat, dimH data, dimW data, 4%nat) /\
    shape seg = (1%nat, dimH data, dimW data, 1%nat) /\
    shape pred = (1%nat, dimH data, dimW data, 1%nat) /\
    (forall n h w c, px img n h w c = px data 0 h w c * 1 / 255) /\
    (forall n h w c, px seg n h w c = px data 0 h w 4) /\
    (forall n h w c, (h < dimH data)%nat -> (w < dimW data)%nat ->
       px pred n h w c == anomaly_score data h w).
Proof.
  intros HN HC. unfold split_sample. rewrite HN, HC. cbn [Nat.eqb Nat.ltb Nat.leb negb].
  unfold broadcast2. cbn [dimN dimH dimW dimC amap slice_channels].
  rewrite HC, !bdim_same. cbn [Nat.min Nat.sub bdim Nat.eqb rbind].
  eexists _, _, _. split; [reflexivity|].
  split; [repeat split|].
  split; [unfold shape; cbn [dimN dimH dimW dimC amap slice_channels];
          rewrite HC; reflexivity|].
  split; [reflexivity|]. split; [reflexivity|].
  split; [reflexivity|]. split; [reflexivity|].
  intros n h w c Hh Hw.
  cbn [px reduce_channels amap dimC seq map].
  rewrite !(bidx_in_range (dimH data)), !(bidx_in_range (dimW data)) by assumption.
  unfold anomaly_score, mean_list, sqrt_of_square, Qsum.
  cbn [bidx Nat.eqb Nat.add List.length map seq fold_right].
  rewrite !abs_diff_scaled. reflexivity.
Qed.

Lemma float2uint_px_range (a : ImageClass) (rescale : bool) (n h w c : nat) :
  0 <= px (float2uint a rescale) n h w c /\ px (float2uint a rescale) n h w c <= 255.
Proof.
  assert (R : forall x, 0 <= inject_Z (astype_uint8 x) /\ inject_Z (astype_uint8 x) <= 255).
  { intro x. pose proof (astype_uint8_range x) as [H0 H1].
    split; [change 0 with (inject_Z 0) | change 255 with (inject_Z 255)];
      rewrite <- Zle_Qle; assumption. }
  destruct rescale; cbn [float2uint amap px]; apply R.
Qed.

Lemma abs_diff_bytes (a b : Q) :
  0 <= a -> a <= 255 -> 0 <= b -> b <= 255 ->
  0 <= Qabs (a / 255 - b / 255) /\ Qabs (a / 255 - b / 255) <= 1.
Proof.
  intros. split; [apply Qabs_nonneg|].
  apply Qabs_Qle_condition. unfold Qdiv. change (/ 255) with (1 # 255). split; lra.
Qed.

(** X25. What the driver saves is what the evaluator reads back: for an input
    and a generated batch of four channels and a label batch of one channel,
    all of the same batch and spatial extents, the record has nine channels,
    and from record [idx] the evaluator recovers the input bytes divided by
    255, the label bytes, and a score that is the mean over the four
    modalities of the absolute difference between input byte and generated
    byte, both divided by 255; that score lies between 0 and 1. *)
Theorem saved_record_round_trip (img_batch seg smp : ImageClass) :
  dimC img_batch = 4%nat -> dimC seg = 1%nat -> dimC smp = 4%nat ->
  (dimN seg, dimH seg, dimW seg) = (dimN img_batch, dimH img_batch, dimW img_batch) ->
  (dimN smp, dimH smp, dimW smp) = (dimN img_batch, dimH img_batch, dimW img_batch) ->
  exists arr,
    save_sample img_batch seg smp = Some arr /\
    shape arr = (dimN img_batch, dimH img_batch, dimW img_batch, 9%nat) /\
    forall idx, (idx < dimN img_batch)%nat ->
    exists img seg' pred,
      split_sample (sample (numpy arr) idx) = Ok (img, seg', pred) /\
      (forall h w c, (c < 4)%nat ->
         px img 0 h w c == px (float2uint img_batch true) idx h w c / 255) /\
      (forall h w, px seg' 0 h w 0 = px (float2uint seg false) idx h w 0) /\
      (forall h w, (h < dimH img_batch)%nat -> (w < dimW img_batch)%nat ->
         px pred 0 h w 0 ==
           Qsum (map (fun c => Qabs (px (float2uint img_batch true) idx h w c / 255 -
                                     px (float2uint smp true) idx h w c / 255))
                     (seq 0 4)) / 4 /\
         0 <= px pred 0 h w 0 /\ px pred 0 h w 0 <= 1).
Proof.
  intros Ci Cs Cg Hs Hg. injection Hs as Ns Hs Ws. injection Hg as Ng Hg Wg.
  unfold save_sample, concat_channels.
  assert (E1 : dimN (float2uint seg false) = dimN seg) by reflexivity.
  assert (E2 : forall a, shape (float2uint a true) = shape a) by reflexivity.
  replace (dimN (float2uint img_batch true)) with (dimN img_batch) by reflexivity.
  replace (dimH (float2uint img_batch true)) with (dimH img_batch) by reflexivity.
  replace (dimW (float2uint img_batch true)) with (dimW img_batch) by reflexivity.
  replace (dimC (float2uint img_batch true)) with 4%nat by (symmetry; exact Ci).
  replace (dimN (float2uint seg false)) with (dimN img_batch) by (symmetry; exact Ns).
  replace (dimH (float2uint seg false)) with (dimH img_batch) by (symmetry; exact Hs).
  replace (dimW (float2uint seg false)) with (dimW img_batch) by (symmetry; exact Ws).
  replace (dimC (float2uint seg false)) with 1%nat by (symmetry; exact Cs).
  replace (dimN (float2uint smp true)) with (dimN img_batch) by (symmetry; exact Ng).
  replace (dimH (float2uint smp true)) with (dimH img_batch) by (symmetry; exact Hg).
  replace (dimW (float2uint smp true)) with (dimW img_batch) by (symmetry; exact Wg).
  replace (dimC (float2uint smp true)) with 4%nat by (symmetry; exact Cg).
  rewrite !Nat.eqb_refl. cbn [andb].
  eexists. split; [reflexivity|]. split; [reflexivity|].
  intros idx Hidx.
  match goal with |- context [split_sample ?d] => set (data := d) end.
  destruct (split_sample_nine data eq_refl eq_refl)
    as [img [seg' [pred [Hrun [_ [_ [_ [_ [Pi [Ps Pp]]]]]]]]]].
  exists img, seg', pred. split; [exact Hrun|].
  assert (D : forall h w k, px data 0 h w k =
            if Nat.ltb k 4 then px (float2uint img_batch true) idx h w k
            else if Nat.ltb k 5 then px (float2uint seg false) idx h w (k - 4)
            else px (float2uint smp true) idx h w (k - 4 - 1)) by reflexivity.
  split; [|split].
  - intros h w c Hc. rewrite Pi, D.
    destruct (Nat.ltb_spec c 4) as [_|F]; [|lia]. field.
  - intros h w. rewrite Ps, D. reflexivity.
  - intros h w Hh Hw.
    assert (Q : px pred 0 h w 0 ==
                Qsum (map (fun c => Qabs (px (float2uint img_batch true) idx h w c / 255 -
                                          px (float2uint smp true) idx h w c / 255))
                          (seq 0 4)) / 4).
    { rewrite (Pp 0 h w 0)%nat by assumption.
      unfold anomaly_score. cbn [seq map]. rewrite !D. cbn [Nat.add Nat.ltb Nat.leb Nat.sub].
      reflexivity. }
    split; [exact Q|].
    rewrite Q. cbn [seq map Qsum fold_right].
    pose proof (fun c => float2uint_px_range img_batch true idx h w c) as Ri.
    pose proof (fun c => float2uint_px_range smp true idx h w c) as Rg.
    pose proof (fun c => abs_diff_bytes _ _ (proj1 (Ri c)) (proj2 (Ri c))
                                        (proj1 (Rg c)) (proj2 (Rg c))) as A.
    assert (G : forall a b c d,
              0 <= a /\ a <= 1 -> 0 <= b /\ b <= 1 -> 0 <= c /\ c <= 1 -> 0 <= d /\ d <= 1 ->
              0 <= (a + (b + (c + (d + 0)))) / 4 /\ (a + (b + (c + (d + 0)))) / 4 <= 1).
    { intros a b c d Ha Hb Hc Hd. unfold Qdiv. change (/ 4) with (1 # 4). split; lra. }
    apply G; apply A.
Qed.

Lemma saved_record_round_trip_witness :
  exists arr,
    save_sample img_batch_example seg_example generated_example = Some arr /\
    shape arr = (2, 1, 1, 9)%nat /\
    exists img seg' pred,
      split_sample (sample (numpy arr) 1) = Ok (img, seg', pred) /\
      px seg' 0 0 0 0 = 4 /\ px pred 0 0 0 0 <= 1.
Proof.
  destruct (saved_record_round_trip img_batch_example seg_example generated_example
              eq_refl eq_refl eq_refl eq_refl eq_refl) as [arr [Hs [Hshape Hidx]]].
  exists arr. split; [exact Hs|]. split; [exact Hshape|].
  destruct (Hidx 1%nat) as [img [seg' [pred [Hrun [_ [Hseg Hpred]]]]]]; [cbn; lia|].
  exists img, seg', pred. split; [exact Hrun|]. split.
  - rewrite Hseg. vm_compute. reflexivity.
  - apply (Hpred 0 0)%nat; cbn; lia.
Defined.

Lemma append_cancel_l (p a b : string) : (p ++ a)%string = (p ++ b)%string -> a = b.
Proof.
  induction p as [|c p IH]; cbn; intro H; [exact H|].
  injection H as H. apply IH. exact H.
Qed.

Lemma append_cancel_r (s s' t : string) : (s ++ t)%string = (s' ++ t)%string -> s = s'.
Proof.
  revert s'. induction s as [|c s IH]; intros [|c' s'] H; cbn in H.
  - reflexivity.
  - apply (f_equal String.length) in H. cbn in H. rewrite length_append in H. lia.
  - apply (f_equal String.length) in H. cbn in H. rewrite length_append in H. lia.
  - injection H as Hc H. subst c'. f_equal. apply IH. exact H.
Qed.

Lemma sample_name_injective (i j : nat) : sample_name i = sample_name j -> i = j.
Proof.
  unfold sample_name. intro H.
  apply append_cancel_l, append_cancel_r in H.
  apply (f_equal NilEmpty.uint_of_string) in H. rewrite !NilEmpty.usu in H.
  injection H as H. apply (f_equal Nat.of_uint) in H. rewrite !DecimalNat.Unsigned.of_to in H. exact H.
Qed.

Lemma path_join_injective (dir a b : string) : path_join dir a = path_join dir b -> a = b.
Proof.
  unfold path_join. intro H. apply append_cancel_l in H.
  cbn in H. injection H as H. exact H.
Qed.

Lemma NoDup_map_injective {A B : Type} (f : A -> B) (l : list A) :
  (forall x y, f x = f y -> x = y) -> NoDup l -> NoDup (map f l).
Proof.
  intros Hf H. induction H as [|x l Hx H IH]; cbn [map]; constructor.
  - intro Hin. apply in_map_iff in Hin. destruct Hin as [y [E Hy]].
    apply Hf in E. subst y. contradiction.
  - exact IH.
Qed.

(** X26. The driver writes every record under a path of its own, and an
    evaluator built on a directory listing that holds the names written keeps
    each of them and loads it from the path where that record was written. *)
Theorem saved_files_are_evaluated (dir : string) (arr : ImageClass)
    (listdir : list string) (metrics : list (string * metric_fn)) (mask_fn : option selector) :
  (forall idx, (idx < dimN arr)%nat -> In (sample_name idx) listdir) ->
  let ev := BratsEvaluator_init listdir dir metrics mask_fn in
  NoDup (map fst (save_all dir arr)) /\
  forall idx, (idx < dimN arr)%nat ->
    In (sample_name idx) (data_files ev) /\
    In (path_join (data_folder ev) (sample_name idx), sample arr idx) (save_all dir arr).
Proof.
  intros Hdir ev. split.
  - unfold save_all. rewrite map_map. cbn [fst].
    apply NoDup_map_injective; [|apply seq_NoDup].
    intros i j H. apply sample_name_injective. apply path_join_injective with dir. exact H.
  - intros idx H. split.
    + subst ev. unfold BratsEvaluator_init. cbn [data_files].
      apply filter_In. split; [apply Hdir; exact H|].
      apply endswith_iff.
      exists ("samples_" ++ NilEmpty.string_of_uint (Nat.to_uint idx))%string.
      reflexivity.
    + unfold save_all. apply in_map_iff. exists idx.
      split; [reflexivity|]. apply in_seq. lia.
Qed.

Lemma saved_files_are_evaluated_witness :
  In "samples_1.npy"%string
     (data_files (BratsEvaluator_init ["log.txt"; "samples_1.npy"; "samples_0.npy"]%string
                    "val" metrics_example None)) /\
  NoDup (map fst (save_all "val" img_batch_example)).
Proof.
  assert (H : forall idx, (idx < dimN img_batch_example)%nat ->
            In (sample_name idx) ["log.txt"; "samples_1.npy"; "samples_0.npy"]%string).
  { intros idx Hidx. cbn in Hidx.
    destruct idx as [|[|idx]]; [right; right; left; reflexivity | right; left; reflexivity | lia]. }
  destruct (saved_files_are_evaluated "val" img_batch_example _ metrics_example None H)
    as [Hnd Hall].
  split; [|exact Hnd].
  apply (Hall 1%nat). cbn. lia.
Defined.

Lemma vdot_ext (D : nat) (u u' v : nat -> Q) :
  (forall i, (i < D)%nat -> u i == u' i) -> vdot D u v == vdot D u' v.
Proof.
  intro H. unfold vdot. apply Qsum_map_ext.
  intros i Hi. apply in_seq in Hi. rewrite (H i) by lia. reflexivity.
Qed.

Lemma Qsum_map_linear (f g : nat -> Q) (s : Q) (l : list nat) :
  Qsum (map (fun i => f i + s * g i) l) == Qsum (map f l) + s * Qsum (map g l).
Proof.
  induction l as [|i l IH]; unfold Qsum; cbn [map fold_right].
  - ring.
  - fold (Qsum (map (fun i => f i + s * g i) l)).
    fold (Qsum (map f l)). fold (Qsum (map g l)). rewrite IH. ring.
Qed.

Lemma vdot_shift (D : nat) (u w : nat -> Q) (s : Q) :
  vdot D (fun i => u i + s * w i) w == vdot D u w + s * vdot D w w.
Proof.
  unfold vdot.
  rewrite <- (Qsum_map_linear (fun i => u i * w i) (fun i => w i * w i) s).
  apply Qsum_map_ext. intros i _. ring.
Qed.

Lemma standardize_shiftingZ (D : nat) (z_mean z_std w : nat -> Q) (b score : Q)
    (z : nat -> Q) (i : nat) :
  ~ z_std i == 0 ->
  standardize z_mean z_std (shiftingZ D z_mean z_std w b score z) i ==
  standardize z_mean z_std z i +
  (score - b - vdot D (standardize z_mean z_std z) w) / vdot D w w * w i.
Proof.
  intro H. unfold shiftingZ. cbv zeta.
  generalize ((score - b - vdot D (standardize z_mean z_std z) w) / vdot D w w).
  intro s. unfold standardize. field. exact H.
Qed.

Lemma logit_shiftingZ (D : nat) (z_mean z_std w : nat -> Q) (b score : Q) (z : nat -> Q) :
  (forall i, (i < D)%nat -> ~ z_std i == 0) -> ~ vdot D w w == 0 ->
  logit D z_mean z_std w b (shiftingZ D z_mean z_std w b score z) == score.
Proof.
  intros Hstd Hw. unfold logit.
  rewrite (vdot_ext D _ (fun i => standardize z_mean z_std z i +
             (score - b - vdot D (standardize z_mean z_std z) w) / vdot D w w * w i)).
  - rewrite vdot_shift. field. exact Hw.
  - intros i Hi. apply standardize_shiftingZ. apply Hstd. exact Hi.
Qed.

(** X27. With deviations that are not zero and a weight vector that is not
    zero, [shiftingZ] moves a latent vector to one on which the linear
    classifier outputs exactly [args.anomaly_score]; shifting twice is
    shifting once, and a vector that already has that output is left where it
    is. *)
Theorem shiftingZ_reaches_score (D : nat) (z_mean z_std w : nat -> Q) (b score : Q)
    (z : nat -> Q) :
  (forall i, (i < D)%nat -> ~ z_std i == 0) -> ~ vdot D w w == 0 ->
  let z' := shiftingZ D z_mean z_std w b score z in
  logit D z_mean z_std w b z' == score /\
  (forall i, (i < D)%nat -> shiftingZ D z_mean z_std w b score z' i == z' i) /\
  (logit D z_mean z_std w b z == score -> forall i, (i < D)%nat -> z' i == z i).
Proof.
  intros Hstd Hw z'.
  assert (L : logit D z_mean z_std w b z' == score) by (apply logit_shiftingZ; assumption).
  assert (F : forall y, logit D z_mean z_std w b y == score ->
            forall i, (i < D)%nat -> shiftingZ D z_mean z_std w b score y i == y i).
  { intros y Hy i Hi. unfold shiftingZ. cbv zeta.
    assert (S0 : (score - b - vdot D (standardize z_mean z_std y) w) / vdot D w w == 0).
    { unfold logit in Hy. rewrite <- Hy. field. exact Hw. }
    revert S0.
    generalize ((score - b - vdot D (standardize z_mean z_std y) w) / vdot D w w).
    intros s S0. rewrite S0. unfold standardize. field. apply Hstd. exact Hi. }
  split; [exact L|]. split.
  - apply F. exact L.
  - apply F.
Qed.

Lemma shiftingZ_reaches_score_witness :
  logit 2 (fun _ => 1) (fun _ => 2) (fun i => inject_Z (Z.of_nat i) + 1) 1
    (shiftingZ 2 (fun _ => 1) (fun _ => 2) (fun i => inject_Z (Z.of_nat i) + 1) 1 (-3)
       (fun _ => 3)) == -3.
Proof.
  assert (H1 : forall i : nat, (i < 2)%nat -> ~ (fun _ : nat => 2) i == 0)
    by (intros i _ H; discriminate H).
  assert (H2 : ~ vdot 2 (fun i => inject_Z (Z.of_nat i) + 1)
                        (fun i => inject_Z (Z.of_nat i) + 1) == 0)
    by (intro H; vm_compute in H; discriminate H).
  exact (proj1 (shiftingZ_reaches_score 2 (fun _ => 1) (fun _ => 2)
                  (fun i => inject_Z (Z.of_nat i) + 1) 1 (-3) (fun _ => 3) H1 H2)).
Defined.

Lemma mem_In (s : string) (l : list string) : mem s l = true <-> In s l.
Proof.
  unfold mem. rewrite existsb_exists. split.
  - intros [x [Hx E]]. apply String.eqb_eq in E. subst x. exact Hx.
  - intro H. exists s. split; [exact H | apply String.eqb_refl].
Qed.

Lemma mem_not_In (s : string) (l : list string) : mem s l = false <-> ~ In s l.
Proof.
  rewrite <- mem_In. destruct (mem s l); split; intro H; try reflexivity; try discriminate.
  exfalso. apply H. reflexivity.
Qed.

Lemma default_get_set_same (k : string) (v : list Q) (m : list (string * list Q)) :
  default_get k (dict_set k v m) = v.
Proof. unfold default_get. now rewrite dict_get_set_same. Qed.

Lemma default_get_set_other (k k' : string) (v : list Q) (m : list (string * list Q)) :
  k <> k' -> default_get k (dict_set k' v m) = default_get k m.
Proof. intro H. unfold default_get. now rewrite dict_get_set_other. Qed.

Lemma dict_keys_set_present {V : Type} (k : string) (v : V) (m : list (string * V)) :
  In k (dict_keys m) -> dict_keys (dict_set k v m) = dict_keys m.
Proof.
  unfold dict_keys. induction m as [|[k' v'] m IH]; cbn [dict_set map fst In]; [tauto|].
  intro H. destruct (String.eqb_spec k k') as [E|E]; cbn [map fst].
  - now subst.
  - f_equal. apply IH. destruct H as [H|H]; [congruence | exact H].
Qed.

Lemma dict_keys_set_absent {V : Type} (k : string) (v : V) (m : list (string * V)) :
  ~ In k (dict_keys m) -> dict_keys (dict_set k v m) = dict_keys m ++ [k].
Proof.
  unfold dict_keys. induction m as [|[k' v'] m IH]; cbn [dict_set map fst In app]; [reflexivity|].
  intro H. destruct (String.eqb_spec k k') as [E|E]; cbn [map fst].
  - exfalso. apply H. left. congruence.
  - f_equal. apply IH. tauto.
Qed.

Section training_facts.
Variable py_int : string -> result Z.
Variable py_float : string -> result Q.

Lemma append_items_length (items : list (string * string)) :
  forall m m', NoDup (dict_keys items) -> append_items py_float items m = Ok m' ->
  forall k, List.length (default_get k m') =
            (List.length (default_get k m) + if mem k (dict_keys items) then 1 else 0)%nat.
Proof.
  induction items as [|[k0 v] rest IH]; intros m m' Hnd H k.
  - cbn in H. injection H as <-. cbn. lia.
  - cbn [append_items] in H. destruct (py_float v) as [x|e]; cbn [rbind] in H; [|discriminate].
    cbn [dict_keys map fst] in Hnd. inversion Hnd as [|? ? Hk0 Hrest]; subst.
    rewrite (IH _ _ Hrest H k).
    cbn [dict_keys map fst mem existsb].
    destruct (String.eqb_spec k k0) as [E|E].
    + subst k0. rewrite default_get_set_same, length_app. cbn [List.length orb].
      apply mem_not_In in Hk0. unfold dict_keys in Hk0 |- *.
      fold (mem k (map fst rest)). rewrite Hk0. lia.
    + rewrite default_get_set_other by exact E. cbn [orb]. reflexivity.
Qed.

Lemma append_items_keys_present (items : list (string * string)) :
  forall m m', (forall k, In k (dict_keys items) -> In k (dict_keys m)) ->
  append_items py_float items m = Ok m' -> dict_keys m' = dict_keys m.
Proof.
  induction items as [|[k0 v] rest IH]; intros m m' Hin H.
  - cbn in H. now injection H as <-.
  - cbn [append_items] in H. destruct (py_float v) as [x|e]; cbn [rbind] in H; [|discriminate].
    assert (K : dict_keys (dict_set k0 (default_get k0 m ++ [x]) m) = dict_keys m)
      by (apply dict_keys_set_present, Hin; left; reflexivity).
    rewrite (IH _ _ (fun k Hk => eq_ind_r (In k) (Hin k (or_intror Hk)) K) H). exact K.
Qed.

Lemma append_items_keys_fresh (items : list (string * string)) :
  forall m m', NoDup (dict_keys m ++ dict_keys items) ->
  append_items py_float items m = Ok m' -> dict_keys m' = dict_keys m ++ dict_keys items.
Proof.
  induction items as [|[k0 v] rest IH]; intros m m' Hnd H.
  - cbn in H. injection H as <-. cbn. now rewrite app_nil_r.
  - cbn [append_items] in H. destruct (py_float v) as [x|e]; cbn [rbind] in H; [|discriminate].
    cbn [dict_keys map fst] in Hnd |- *.
    assert (Hk0 : ~ In k0 (dict_keys m)).
    { intro Hin. apply NoDup_remove_2 in Hnd. apply Hnd. apply in_or_app. now left. }
    assert (K : dict_keys (dict_set k0 (default_get k0 m ++ [x]) m) = dict_keys m ++ [k0])
      by (apply dict_keys_set_absent; exact Hk0).
    rewrite (IH _ _) with (2 := H).
    + rewrite K, <- app_assoc. reflexivity.
    + rewrite K, <- app_assoc. exact Hnd.
Qed.

Lemma append_items_table (fields : list string) (n : nat) (row : list (string * string))
    (m m' : list (string * list Q)) :
  NoDup fields -> dict_keys row = fields -> table_of fields n m ->
  append_items py_float row m = Ok m' ->
  dict_keys m' = fields /\ forall k, In k fields -> List.length (default_get k m') = S n.
Proof.
  intros Hnd Hrow Ht H.
  assert (L : forall k, In k fields ->
            List.length (default_get k m') = S (List.length (default_get k m))).
  { intros k Hk. rewrite (append_items_length row m m') by (rewrite ?Hrow; assumption).
    rewrite Hrow. apply mem_In in Hk. rewrite Hk. lia. }
  destruct Ht as [[-> ->] | [Hkeys Hlen]].
  - split.
    + rewrite (append_items_keys_fresh row [] m'); [exact Hrow | | exact H].
      cbn. rewrite Hrow. exact Hnd.
    + intros k Hk. rewrite (L k Hk). reflexivity.
  - split.
    + rewrite (append_items_keys_present row m m'); [exact Hkeys | | exact H].
      intros k Hk. rewrite Hkeys, <- Hrow. exact Hk.
    + intros k Hk. rewrite (L k Hk), (Hlen k Hk). reflexivity.
Qed.

Lemma read_rows_table (fields : list string) (rows : list (list (string * string))) :
  NoDup fields -> Forall (fun row => dict_keys row = fields) rows ->
  forall w0 m0 w m n,
    read_rows py_int py_float rows w0 m0 = Ok (w, m) -> table_of fields n m0 ->
    w = (w0 + List.length (filter (is_warm_up py_int) rows))%nat /\
    table_of fields (n + List.length rows) m.
Proof.
  intros Hnd Hrows. induction Hrows as [|row rest Hrow Hrest IH]; intros w0 m0 w m n H Ht.
  - cbn in H. injection H as <- <-. cbn. rewrite !Nat.add_0_r. auto.
  - cbn [read_rows] in H. cbn [filter]. unfold is_warm_up at 1.
    destruct (s <- dict_item "step" row ;; py_int s) as [step|e]; cbn [rbind] in H; [|discriminate].
    destruct (append_items py_float row m0) as [m1|e] eqn:E; cbn [rbind] in H; [|discriminate].
    pose proof (append_items_table fields n row m0 m1 Hnd Hrow Ht E) as T1.
    destruct (IH _ _ _ _ (S n) H (or_intror T1)) as [Hw Hm].
    split.
    + rewrite Hw. destruct (step <? warm_up_steps)%Z; cbn [List.length]; lia.
    + cbn [List.length]. replace (n + S (List.length rest))%nat
        with (S n + List.length rest)%nat by lia. exact Hm.
Qed.
End training_facts.

Lemma ceil_quarter (M : nat) :
  let R := Z.to_nat (Qceiling (inject_Z (Z.of_nat M) / inject_Z (Z.of_nat num_columns))) in
  (M <= R * num_columns)%nat /\ (R * num_columns < M + num_columns)%nat.
Proof.
  cbv zeta. unfold num_columns.
  set (x := inject_Z (Z.of_nat M) / inject_Z (Z.of_nat 4)).
  pose proof (Qle_ceiling x) as Hle. pose proof (Qceiling_lt x) as Hlt.
  set (c := Qceiling x) in *.
  assert (Hx : x == inject_Z (Z.of_nat M) * (1 # 4)) by reflexivity.
  rewrite Hx in Hle, Hlt.
  unfold Qle in Hle. unfold Qlt in Hlt. cbn in Hle, Hlt.
  assert (Hc : (0 <= c)%Z) by lia.
  split; lia.
Qed.

Lemma filter_partition_length {A : Type} (f : A -> bool) (l : list A) :
  List.length l = (List.length (filter f l) + List.length (filter (fun x => negb (f x)) l))%nat.
Proof.
  induction l as [|a l IH]; cbn [filter List.length]; [reflexivity|].
  destruct (f a); cbn [negb List.length]; lia.
Qed.

Lemma skip_count (keys : list string) :
  NoDup keys ->
  (List.length keys - List.length (filter (fun s => mem s keys) skip_metric))%nat =
  List.length (plotted keys).
Proof.
  intro Hnd. unfold plotted.
  rewrite (filter_partition_length (fun k => mem k skip_metric) keys).
  assert (E : List.length (filter (fun k => mem k skip_metric) keys) =
              List.length (filter (fun s => mem s keys) skip_metric)).
  { apply Nat.le_antisymm; apply NoDup_incl_length.
    - apply NoDup_filter. exact Hnd.
    - intros k Hk. apply filter_In in Hk. destruct Hk as [Hk Hs].
      apply filter_In. split; [apply mem_In; exact Hs | apply mem_In; exact Hk].
    - apply NoDup_filter. unfold skip_metric.
      repeat constructor; cbn; intuition discriminate.
    - intros k Hk. apply filter_In in Hk. destruct Hk as [Hk Hs].
      apply filter_In. split; [apply mem_In; exact Hs | apply mem_In; exact Hk]. }
  rewrite E. lia.
Qed.

Lemma num_rows_grid (m : list (string * list Q)) :
  NoDup (dict_keys m) ->
  (List.length (plotted (dict_keys m)) <= num_rows m * num_columns)%nat /\
  (num_rows m * num_columns < List.length (plotted (dict_keys m)) + num_columns)%nat.
Proof.
  intro Hnd. unfold num_rows.
  replace (List.length m) with (List.length (dict_keys m)) by apply length_map.
  rewrite (skip_count _ Hnd). apply ceil_quarter.
Qed.

Lemma dict_item_key {V : Type} (k : string) (d : list (string * V)) (v : V) :
  dict_item k d = Ok v -> In k (dict_keys d).
Proof.
  unfold dict_item, dict_keys.
  induction d as [|[k' v'] d IH]; cbn [dict_get map fst In]; [discriminate|].
  destruct (String.eqb_spec k k') as [E|E]; [now left|].
  intro H. right. apply IH. exact H.
Qed.

Section plot_facts.
Variables (m : list (string * list Q)) (w R n : nat).
Hypothesis Hstep : List.length (default_get "step" m) = n.

Lemma plot_loop_ok (names : list string) :
  (forall k, In k names -> List.length (default_get k m) = n) ->
  (w < n)%nat ->
  forall idx fig, (idx + List.length (plotted names) <= R * num_columns)%nat ->
  exists plots,
    plot_loop names m w R idx fig = Ok (fig ++ plots) /\
    map position plots = seq (S idx) (List.length (plotted names)) /\
    map title plots = plotted names /\
    Forall (fun p => xdata p = default_get "step" m /\
                     ydata p = default_get (title p) m /\
                     list_min (skipn w (ydata p)) = Some (fst (ylim p)) /\
                     list_max (skipn w (ydata p)) = Some (snd (ylim p))) plots.
Proof.
  intros Hlen Hw. induction names as [|k names IH]; intros idx fig Hidx.
  - exists []. cbn. rewrite app_nil_r. auto.
  - cbn [plot_loop]. unfold plotted in Hidx |- *. cbn [filter] in Hidx |- *.
    destruct (mem k skip_metric) eqn:Hskip; cbn [negb] in Hidx |- *.
    + apply IH; [intros k' Hk'; apply Hlen; now right | exact Hidx].
    + cbn [List.length] in Hidx.
      destruct (Nat.leb_spec (S idx) (R * num_columns)) as [_|F]; [|lia].
      cbn [Nat.leb andb negb].
      rewrite Hstep, (Hlen k (or_introl eq_refl)), Nat.eqb_refl. cbn [negb].
      destruct (skipn w (default_get k m)) as [|y0 ys] eqn:Es.
      { apply (f_equal (@List.length Q)) in Es. rewrite length_skipn in Es.
        rewrite (Hlen k (or_introl eq_refl)) in Es. cbn in Es. lia. }
      cbn [list_min list_max].
      destruct (IH (fun k' Hk' => Hlen k' (or_intror Hk')) (S idx)
                  (fig ++ [mkSubplot (S idx) k (default_get "step" m) (default_get k m)
                             (fold_left Qmin ys y0, fold_left Qmax ys y0)]))
        as [plots [Hrun [Hpos [Htitle Hall]]]]; [unfold plotted; lia|].
      eexists (_ :: plots). split; [|split; [|split]].
      * rewrite Hrun, <- app_assoc. reflexivity.
      * cbn [map position List.length seq]. f_equal. exact Hpos.
      * cbn [map title]. f_equal. exact Htitle.
      * constructor; [|exact Hall]. cbn [xdata ydata title ylim fst snd].
        rewrite Es. auto.
Qed.

Lemma plot_loop_warm_up (names : list string) :
  (forall k, In k names -> List.length (default_get k m) = n) ->
  (n <= w)%nat -> (1 <= R)%nat -> plotted names <> [] ->
  forall fig,
    plot_loop names m w R 0 fig = Raise (ValueError "min() arg is an empty sequence").
Proof.
  intros Hlen Hw HR. induction names as [|k names IH]; intros Hp fig.
  - now contradiction Hp.
  - cbn [plot_loop]. unfold plotted in Hp. cbn [filter] in Hp.
    destruct (mem k skip_metric) eqn:Hskip; cbn [negb] in Hp.
    + apply IH; [intros k' Hk'; apply Hlen; now right | exact Hp].
    + destruct (Nat.leb_spec 1 (R * num_columns)) as [_|F]; [|unfold num_columns in F; lia].
      cbn [Nat.leb andb negb].
      rewrite Hstep, (Hlen k (or_introl eq_refl)), Nat.eqb_refl. cbn [negb].
      rewrite skipn_all2 by (rewrite (Hlen k (or_introl eq_refl)); exact Hw).
      reflexivity.
Qed.
End plot_facts.

Section training_theorems.
Variable py_int : string -> result Z.
Variable py_float : string -> result Q.

Lemma read_rows_columns (fields : list string) (reader : list (list (string * string)))
    (w : nat) (m : list (string * list Q)) :
  NoDup fields -> Forall (fun row => dict_keys row = fields) reader -> reader <> [] ->
  read_rows py_int py_float reader 0 [] = Ok (w, m) ->
  w = List.length (filter (is_warm_up py_int) reader) /\
  dict_keys m = fields /\ In "step"%string fields /\
  forall k, In k fields -> List.length (default_get k m) = List.length reader.
Proof.
  intros Hnd Hrows Hne H.
  destruct (read_rows_table py_int py_float fields reader Hnd Hrows 0 [] w m 0 H
              (or_introl (conj eq_refl eq_refl))) as [Hw Ht].
  split; [exact Hw|].
  destruct reader as [|row rest]; [contradiction|].
  assert (Hs : In "step"%string fields).
  { cbn [read_rows] in H.
    destruct (dict_item "step" row) as [s|e] eqn:E; cbn [rbind] in H; [|discriminate].
    apply dict_item_key in E. inversion Hrows; subst. assumption. }
  destruct Ht as [[_ F] | [Hk Hl]]; [cbn in F; discriminate|].
  auto.
Qed.

(** X28. When the rows of the progress file all have the same columns, are
    read without error and one of them is past the warm-up, [evaluate_training]
    draws one subplot for each column other than step and samples, in the
    order of the columns, at the positions 1, 2, ... of a grid of four
    columns that has room for all of them and fewer than four free cells;
    each subplot plots as many values as there are rows, and its limits are
    the minimum and the maximum of the values after the first [warm_up_idx]
    rows. *)
Theorem evaluate_training_figure (fields : list string)
    (reader : list (list (string * string))) (w : nat) (m : list (string * list Q)) :
  NoDup fields -> Forall (fun row => dict_keys row = fields) reader ->
  read_rows py_int py_float reader 0 [] = Ok (w, m) ->
  Exists (fun row => is_warm_up py_int row = false) reader ->
  exists fig,
    evaluate_training py_int py_float reader = Ok fig /\
    map title fig = plotted fields /\
    map position fig = seq 1 (List.length fig) /\
    (List.length fig <= num_rows m * num_columns)%nat /\
    (num_rows m * num_columns < List.length fig + num_columns)%nat /\
    Forall (fun p => List.length (xdata p) = List.length reader /\
                     List.length (ydata p) = List.length reader /\
                     list_min (skipn w (ydata p)) = Some (fst (ylim p)) /\
                     list_max (skipn w (ydata p)) = Some (snd (ylim p))) fig.
Proof.
  intros Hnd Hrows Hread Hex.
  assert (Hne : reader <> []) by (intro E; subst; inversion Hex).
  destruct (read_rows_columns fields reader w m Hnd Hrows Hne Hread)
    as [Hw [Hkeys [Hstep Hlen]]].
  assert (Hwlt : (w < List.length reader)%nat).
  { rewrite Hw. clear -Hex. induction Hex as [row rest Hrow | row rest _ IH]; cbn [filter].
    - rewrite Hrow. pose proof (filter_length_le (is_warm_up py_int) rest).
      cbn [List.length]. lia.
    - destruct (is_warm_up py_int row); cbn [List.length]; lia. }
  pose proof (num_rows_grid m) as G. rewrite Hkeys in G. destruct (G Hnd) as [G1 G2].
  destruct (plot_loop_ok m w (num_rows m) (List.length reader) (Hlen _ Hstep) fields Hlen Hwlt
              0%nat [] G1) as [plots [Hrun [Hpos [Htitle Hall]]]].
  exists plots. unfold evaluate_training. rewrite Hread. cbn [rbind]. rewrite Hkeys.
  assert (Hcount : List.length plots = List.length (plotted fields))
    by (rewrite <- Htitle; symmetry; apply length_map).
  split; [exact Hrun|]. split; [exact Htitle|].
  split; [rewrite Hcount; exact Hpos|].
  split; [rewrite Hcount; exact G1|]. split; [rewrite Hcount; exact G2|].
  assert (Hin : forall p, In p plots -> In (title p) fields).
  { intros p Hp. apply (in_map title) in Hp. rewrite Htitle in Hp.
    unfold plotted in Hp. apply filter_In in Hp. tauto. }
  rewrite Forall_forall in Hall |- *.
  intros p Hp. destruct (Hall p Hp) as [Hx [Hy [Hlo Hhi]]].
  rewrite Hx, Hy, (Hlen _ Hstep), (Hlen _ (Hin p Hp)). rewrite <- Hy. auto.
Qed.

(** X29. When every row of the progress file is below the warm-up step (and
    some column other than step and samples exists), the slice after the
    warm-up is empty and [evaluate_training] raises the error of [min] on an
    empty list at its first subplot: no figure is saved. *)
Theorem evaluate_training_warm_up_only (fields : list string)
    (reader : list (list (string * string))) (w : nat) (m : list (string * list Q)) :
  NoDup fields -> Forall (fun row => dict_keys row = fields) reader -> reader <> [] ->
  read_rows py_int py_float reader 0 [] = Ok (w, m) ->
  Forall (fun row => is_warm_up py_int row = true) reader ->
  plotted fields <> [] ->
  evaluate_training py_int py_float reader =
  Raise (ValueError "min() arg is an empty sequence").
Proof.
  intros Hnd Hrows Hne Hread Hwarm Hp.
  destruct (read_rows_columns fields reader w m Hnd Hrows Hne Hread)
    as [Hw [Hkeys [Hstep Hlen]]].
  assert (Hwall : w = List.length reader).
  { rewrite Hw. clear -Hwarm. induction Hwarm as [|row rest Hrow _ IH]; cbn [filter]; [reflexivity|].
    rewrite Hrow. cbn [List.length]. now rewrite IH. }
  pose proof (num_rows_grid m) as G. rewrite Hkeys in G. destruct (G Hnd) as [G1 _].
  assert (HR : (1 <= num_rows m)%nat).
  { destruct (plotted fields) as [|k l]; [contradiction|].
    cbn [List.length] in G1. unfold num_columns in G1. lia. }
  unfold evaluate_training. rewrite Hread. cbn [rbind]. rewrite Hkeys.
  apply (plot_loop_warm_up m w (num_rows m) (List.length reader) (Hlen _ Hstep) fields Hlen);
    [lia | exact HR | exact Hp].
Qed.
End training_theorems.

Lemma evaluate_training_figure_witness :
  exists fig,
    evaluate_training py_int_example py_float_example progress_example = Ok fig /\
    map title fig = ["loss"; "mse"]%string /\ map position fig = [1; 2]%nat.
Proof.
  assert (R : exists r, read_rows py_int_example py_float_example progress_example 0 [] = Ok r)
    by (eexists; vm_compute; reflexivity).
  destruct R as [[w m] R].
  destruct (evaluate_training_figure py_int_example py_float_example
              ["step"; "loss"; "samples"; "mse"]%string progress_example w m)
    as [fig [Hrun [Ht [Hp _]]]].
  - repeat constructor; cbn; intuition discriminate.
  - repeat constructor.
  - exact R.
  - right. left. vm_compute. reflexivity.
  - exists fig. split; [exact Hrun|]. split; [exact Ht|].
    rewrite Hp. apply (f_equal (@List.length string)) in Ht.
    rewrite length_map in Ht. rewrite Ht. reflexivity.
Defined.

Lemma evaluate_training_warm_up_only_witness :
  evaluate_training py_int_example py_float_example warm_up_progress_example =
  Raise (ValueError "min() arg is an empty sequence").
Proof.
  assert (R : exists r,
            read_rows py_int_example py_float_example warm_up_progress_example 0 [] = Ok r)
    by (eexists; vm_compute; reflexivity).
  destruct R as [[w m] R].
  apply (evaluate_training_warm_up_only py_int_example py_float_example
           ["step"; "loss"; "samples"; "mse"]%string warm_up_progress_example w m).
  - repeat constructor; cbn; intuition discriminate.
  - repeat constructor.
  - discriminate.
  - exact R.
  - repeat constructor.
  - cbv. discriminate.
Defined.




